(** * DS18B20 1-Wire driver (STM32): shallow embedding of Src/ds18b20.c

    The driver talks to the hardware through three HAL capabilities
    (drive the open-drain pin, sample it, spin on a microsecond timer).
    They are kept abstract in the class [HAL]; every driver function is a
    state-passing function over an arbitrary world [W] that offers them.
    Machine integers are [Z] with the C conversions written out. *)

From Stdlib Require Import ZArith List Bool Lia Sorted.
Import ListNotations.
Open Scope Z_scope.

(** ** C integer conversions *)

Definition uint8 (x : Z) : Z := x mod 256.
Definition uint16 (x : Z) : Z := x mod 65536.
Definition uint64 (x : Z) : Z := x mod 2 ^ 64.

Definition INT_MIN : Z := - 2 ^ 31.
Definition INT_MAX : Z := 2 ^ 31 - 1.

(** ** Hardware interface *)

Inductive GPIO_PinState : Type := GPIO_PIN_RESET | GPIO_PIN_SET.

(** [TIM_wait us] is the busy wait of [DS18B20_delay]: the counter is set to
    0 and polled until it reaches [us]. *)
Class HAL (W : Type) : Type := {
  HAL_GPIO_WritePin : GPIO_PinState -> W -> W;
  HAL_GPIO_ReadPin : W -> GPIO_PinState * W;
  TIM_wait : Z -> W -> W
}.

(** ** A small state monad over the world *)

Definition M (W A : Type) : Type := W -> A * W.

Definition ret {W A : Type} (a : A) : M W A := fun w => (a, w).

Definition bind {W A B : Type} (c : M W A) (k : A -> M W B) : M W B :=
  fun w => let (a, w') := c w in k a w'.

Definition act {W : Type} (f : W -> W) : M W unit := fun w => (tt, f w).

Declare Scope drv_scope.
Delimit Scope drv_scope with drv.
Notation "x <- c ;; k" := (bind c (fun x => k))
  (at level 61, c at next level, right associativity) : drv_scope.
Notation "c ;; k" := (bind c (fun _ => k))
  (at level 61, right associativity) : drv_scope.
Open Scope drv_scope.

(** ** ROM and function commands (Inc/ds18b20.h) *)

Definition SEARCH_ROM : Z := 0xF0.
Definition MATCH_ROM : Z := 0x55.
Definition CONVERT_T : Z := 0x44.
Definition READ_SCRATCHPAD : Z := 0xBE.

(** ** Search state (Inc/ds18b20.h, [onewire_search_state_t]) *)

Record onewire_search_state_t : Type := mkState {
  last_zero_branch : Z;      (* int8_t *)
  done : bool;
  address : list Z           (* uint8_t address[8] *)
}.

(** [a[i] = v] on a byte array kept as a list. *)
Fixpoint store_byte (a : list Z) (i : nat) (v : Z) : list Z :=
  match a, i with
  | [], _ => []
  | _ :: t, O => v :: t
  | h :: t, S i' => h :: store_byte t i' v
  end.

Definition load_byte (a : list Z) (i : Z) : Z := nth (Z.to_nat i) a 0.

(** ** CRC-8 *)

Definition crc8_table : list Z :=
  [0x00; 0x5E; 0xBC; 0xE2; 0x61; 0x3F; 0xDD; 0x83; 0xC2; 0x9C; 0x7E; 0x20; 0xA3; 0xFD; 0x1F; 0x41;
   0x9D; 0xC3; 0x21; 0x7F; 0xFC; 0xA2; 0x40; 0x1E; 0x5F; 0x01; 0xE3; 0xBD; 0x3E; 0x60; 0x82; 0xDC;
   0x23; 0x7D; 0x9F; 0xC1; 0x42; 0x1C; 0xFE; 0xA0; 0xE1; 0xBF; 0x5D; 0x03; 0x80; 0xDE; 0x3C; 0x62;
   0xBE; 0xE0; 0x02; 0x5C; 0xDF; 0x81; 0x63; 0x3D; 0x7C; 0x22; 0xC0; 0x9E; 0x1D; 0x43; 0xA1; 0xFF;
   0x46; 0x18; 0xFA; 0xA4; 0x27; 0x79; 0x9B; 0xC5; 0x84; 0xDA; 0x38; 0x66; 0xE5; 0xBB; 0x59; 0x07;
   0xDB; 0x85; 0x67; 0x39; 0xBA; 0xE4; 0x06; 0x58; 0x19; 0x47; 0xA5; 0xFB; 0x78; 0x26; 0xC4; 0x9A;
   0x65; 0x3B; 0xD9; 0x87; 0x04; 0x5A; 0xB8; 0xE6; 0xA7; 0xF9; 0x1B; 0x45; 0xC6; 0x98; 0x7A; 0x24;
   0xF8; 0xA6; 0x44; 0x1A; 0x99; 0xC7; 0x25; 0x7B; 0x3A; 0x64; 0x86; 0xD8; 0x5B; 0x05; 0xE7; 0xB9;
   0x8C; 0xD2; 0x30; 0x6E; 0xED; 0xB3; 0x51; 0x0F; 0x4E; 0x10; 0xF2; 0xAC; 0x2F; 0x71; 0x93; 0xCD;
   0x11; 0x4F; 0xAD; 0xF3; 0x70; 0x2E; 0xCC; 0x92; 0xD3; 0x8D; 0x6F; 0x31; 0xB2; 0xEC; 0x0E; 0x50;
   0xAF; 0xF1; 0x13; 0x4D; 0xCE; 0x90; 0x72; 0x2C; 0x6D; 0x33; 0xD1; 0x8F; 0x0C; 0x52; 0xB0; 0xEE;
   0x32; 0x6C; 0x8E; 0xD0; 0x53; 0x0D; 0xEF; 0xB1; 0xF0; 0xAE; 0x4C; 0x12; 0x91; 0xCF; 0x2D; 0x73;
   0xCA; 0x94; 0x76; 0x28; 0xAB; 0xF5; 0x17; 0x49; 0x08; 0x56; 0xB4; 0xEA; 0x69; 0x37; 0xD5; 0x8B;
   0x57; 0x09; 0xEB; 0xB5; 0x36; 0x68; 0x8A; 0xD4; 0x95; 0xCB; 0x29; 0x77; 0xF4; 0xAA; 0x48; 0x16;
   0xE9; 0xB7; 0x55; 0x0B; 0x88; 0xD6; 0x34; 0x6A; 0x2B; 0x75; 0x97; 0xC9; 0x4A; 0x14; 0xF6; 0xA8;
   0x74; 0x2A; 0xC8; 0x96; 0x15; 0x4B; 0xA9; 0xF7; 0xB6; 0xE8; 0x0A; 0x54; 0xD7; 0x89; 0x6B; 0x35].

(** [crcGenerator]: one table lookup at [input ^ initial_crc]. *)
Definition crcGenerator (initial_crc input : Z) : Z :=
  let index := uint8 (Z.lxor input initial_crc) in
  let final_crc := load_byte crc8_table index in
  final_crc.

(** The [for (i = 0; i < 7; i++)] loop of [addressValid]. *)
Fixpoint addressValid_loop (n : nat) (i : Z) (ROM_code : list Z)
    (initial_crc computed_crc : Z) : Z :=
  match n with
  | O => computed_crc
  | S n' =>
      let computed_crc := crcGenerator initial_crc (load_byte ROM_code i) in
      let initial_crc := computed_crc in
      addressValid_loop n' (i + 1) ROM_code initial_crc computed_crc
  end.

(** [addressValid]: 0 when the CRC over bytes 0..6 equals byte 7, else 1. *)
Definition addressValid (ROM_code : list Z) : Z :=
  let computed_crc := addressValid_loop 7 0 ROM_code 0x00 0x00 in
  if negb (computed_crc =? load_byte ROM_code 7) then 1 else 0.

(** Reference for the refinement: the Dallas/Maxim 1-Wire CRC-8
    (polynomial x^8 + x^5 + x^4 + 1, reflected constant 0x8C), computed one
    bit at a time, least significant bit of the data byte first. *)
Definition dallas_crc8_bit (crc : Z) (b : bool) : Z :=
  let mix := xorb (Z.odd crc) b in
  let crc := Z.shiftr crc 1 in
  if mix then Z.lxor crc 0x8C else crc.

Fixpoint dallas_crc8_bits (n : nat) (crc byte : Z) : Z :=
  match n with
  | O => crc
  | S n' => dallas_crc8_bits n' (dallas_crc8_bit crc (Z.odd byte)) (Z.shiftr byte 1)
  end.

Definition dallas_crc8_bitwise (crc byte : Z) : Z := dallas_crc8_bits 8 crc byte.

(** ** Bus signaling layer *)

Section Driver.

Context {W : Type} `{HAL W}.

(** [DS18B20_delay] *)
Definition DS18B20_delay (us : Z) : M W unit := act (TIM_wait us).

Definition WritePin (s : GPIO_PinState) : M W unit := act (HAL_GPIO_WritePin s).

(** [DS18B20_Start]: reset pulse, then sample for the presence pulse. *)
Definition DS18B20_Start : M W Z :=
  WritePin GPIO_PIN_RESET ;;
  DS18B20_delay 480 ;;
  WritePin GPIO_PIN_SET ;;
  DS18B20_delay 80 ;;
  pin <- HAL_GPIO_ReadPin ;;
  let response := match pin with GPIO_PIN_RESET => 1 | GPIO_PIN_SET => 0 end in
  DS18B20_delay 400 ;;
  ret response.

(** [DS18B20_read]: one read slot. *)
Definition DS18B20_read : M W Z :=
  WritePin GPIO_PIN_RESET ;;
  DS18B20_delay 3 ;;
  WritePin GPIO_PIN_SET ;;
  DS18B20_delay 10 ;;
  pin <- HAL_GPIO_ReadPin ;;
  let response := match pin with GPIO_PIN_SET => 1 | GPIO_PIN_RESET => 0 end in
  DS18B20_delay 52 ;;
  ret response.

(** [DS18B20_readByte]: [value |= bit << i] for i = 0..7. *)
Fixpoint DS18B20_readByte_loop (n : nat) (i value : Z) : M W Z :=
  match n with
  | O => ret value
  | S n' =>
      bit <- DS18B20_read ;;
      DS18B20_readByte_loop n' (i + 1) (uint8 (Z.lor value (Z.shiftl bit i)))
  end.

Definition DS18B20_readByte : M W Z := DS18B20_readByte_loop 8 0 0.

Definition DS18B20_write0 : M W Z :=
  WritePin GPIO_PIN_RESET ;;
  DS18B20_delay 60 ;;
  WritePin GPIO_PIN_SET ;;
  DS18B20_delay 5 ;;
  ret 0.

Definition DS18B20_write1 : M W Z :=
  WritePin GPIO_PIN_RESET ;;
  DS18B20_delay 5 ;;
  WritePin GPIO_PIN_SET ;;
  DS18B20_delay 60 ;;
  ret 0.

(** [DS18B20_writeData]: bit i is sent as a 1 when
    [(data & (1 << i)) == (1 << i)]. *)
Fixpoint DS18B20_writeData_loop (n : nat) (i data : Z) : M W unit :=
  match n with
  | O => ret tt
  | S n' =>
      (if Z.land data (Z.shiftl 1 i) =? Z.shiftl 1 i
       then DS18B20_write1 else DS18B20_write0) ;;
      DS18B20_writeData_loop n' (i + 1) data
  end.

Definition DS18B20_writeData (data : Z) : M W Z :=
  DS18B20_writeData_loop 8 0 data ;; ret 0.

End Driver.

(** ** ROM search engine *)

(** States of the two complement reads (the [enum] of [searchNext]). *)
Definition kConflict : Z := 0x00.
Definition kZero : Z := 0x02.
Definition kOne : Z := 0x01.

(** "Write bit into address": [address[byteIndex] &= ~(1 << bitIndex)] when
    [bitValue == 0], otherwise [address[byteIndex] |= (bitValue << bitIndex)];
    both computed at type int and converted back to uint8_t. *)
Definition address_write_bit (address : list Z) (byteIndex bitIndex bitValue : Z)
    : list Z :=
  let old := load_byte address byteIndex in
  if bitValue =? 0
  then store_byte address (Z.to_nat byteIndex)
         (uint8 (Z.land old (Z.lnot (Z.shiftl 1 bitIndex))))
  else store_byte address (Z.to_nat byteIndex)
         (uint8 (Z.lor old (Z.shiftl bitValue bitIndex))).

Definition set_address (state : onewire_search_state_t) (a : list Z) :=
  mkState (last_zero_branch state) (done state) a.
Definition set_done (state : onewire_search_state_t) (d : bool) :=
  mkState (last_zero_branch state) d (address state).
Definition set_last_zero_branch (state : onewire_search_state_t) (b : Z) :=
  mkState b (done state) (address state).

(** The [switch (DS18B20_reading)] of [searchNext]: the value to write at
    this position and the updated [locallast_zero_branch]; [None] is the
    [default:] branch, which leaves the function. *)
Definition switch_reading (DS18B20_reading bitPosition : Z)
    (state : onewire_search_state_t) (locallast_zero_branch : Z)
    : option (Z * Z) :=
  let byteIndex := bitPosition / 8 in
  let bitIndex := bitPosition mod 8 in
  if (DS18B20_reading =? kZero) || (DS18B20_reading =? kOne) then
    Some (uint8 (Z.land DS18B20_reading 0x1), locallast_zero_branch)
  else if DS18B20_reading =? kConflict then
    let bitValue :=
      if bitPosition =? last_zero_branch state then 1
      else if bitPosition <? last_zero_branch state then
        uint8 (Z.land (load_byte (address state) byteIndex) (Z.shiftl 1 bitIndex))
      else 0 in
    Some (bitValue, if bitValue =? 0 then bitPosition else locallast_zero_branch)
  else None.

(** [onewireSearchInit] *)
Definition onewireSearchInit : onewire_search_state_t :=
  mkState (-1) false [0; 0; 0; 0; 0; 0; 0; 0].

(** Outcome of a loop that the model runs on fuel. *)
Inductive outcome : Type :=
  | Returned (v : Z)
  | OutOfBounds
  | OutOfFuel.

(** The value of [E1 << E2] at type int (32 bits), for an operand [E1]
    promoted from uint8_t.  C defines it only when [E2 < 32] and
    [E1 * 2^E2] fits in an int. *)
Definition c_int_shl (a n : Z) : option Z :=
  if (0 <=? n) && (n <? 32) && (0 <=? a) && (a * 2 ^ n <=? INT_MAX)
  then Some (a * 2 ^ n) else None.

(** What is asked of the target's int shift [int_shl]: it agrees with C
    where C defines the result and yields some int everywhere else. *)
Definition int_platform (int_shl : Z -> Z -> Z) : Prop :=
  (forall a n, INT_MIN <= int_shl a n <= INT_MAX) /\
  (forall a n v, c_int_shl a n = Some v -> int_shl a n = v).

(** The packing loop of [DS18B20_Search]:
    [ROM_codes_array[index] |= search_state.address[i] << 8*(7-i)].  The shift
    is an int shift; its result is converted to uint64_t for the [|=]. *)
Fixpoint pack_ROM_code_loop (int_shl : Z -> Z -> Z) (n : nat) (i : Z)
    (address : list Z) (slot : Z) : Z :=
  match n with
  | O => slot
  | S n' =>
      pack_ROM_code_loop int_shl n' (i + 1) address
        (Z.lor slot (uint64 (int_shl (load_byte address i) (8 * (7 - i)))))
  end.

Definition pack_ROM_code (int_shl : Z -> Z -> Z) (address : list Z) : Z :=
  pack_ROM_code_loop int_shl 8 0 address 0.

Section Search.

Context {W : Type} `{HAL W}.

(** Body of the [for (bitPosition ...)] loop of [searchNext].  [None]: the
    function returned from inside the loop (reading "11").  Otherwise the
    value written, the new [locallast_zero_branch] and the new state.
    [bitValue] is declared outside the loop in the source, but every path
    that reaches its use assigns it first, so it is local here. *)
Definition searchNext_bit (bitPosition locallast_zero_branch : Z)
    (state : onewire_search_state_t)
    : M W (option (Z * Z * onewire_search_state_t)) :=
  let byteIndex := bitPosition / 8 in
  let bitIndex := bitPosition mod 8 in
  r1 <- DS18B20_read ;;
  r2 <- DS18B20_read ;;
  let DS18B20_reading := uint8 (Z.lor (Z.lor 0 r1) (Z.shiftl r2 1)) in
  match switch_reading DS18B20_reading bitPosition state locallast_zero_branch with
  | None => ret None
  | Some (bitValue, locallast_zero_branch) =>
      let state :=
        set_address state
          (address_write_bit (address state) byteIndex bitIndex bitValue) in
      (if bitValue =? 0 then DS18B20_write0 else DS18B20_write1) ;;
      ret (Some (bitValue, locallast_zero_branch, state))
  end.

(** [n] iterations of the loop starting at [bitPosition].  The boolean tells
    whether the loop ran to its end ([true]) or was left through the
    [default:] branch ([false]). *)
Fixpoint searchNext_loop (n : nat) (bitPosition locallast_zero_branch : Z)
    (state : onewire_search_state_t)
    : M W (bool * Z * onewire_search_state_t) :=
  match n with
  | O => ret (true, locallast_zero_branch, state)
  | S n' =>
      r <- searchNext_bit bitPosition locallast_zero_branch state ;;
      match r with
      | None => ret (false, locallast_zero_branch, state)
      | Some (_, locallast_zero_branch, state) =>
          searchNext_loop n' (bitPosition + 1) locallast_zero_branch state
      end
  end.

(** [searchNext]: returns [false] from the [default:] branch and [0] after
    the loop. *)
Definition searchNext (state : onewire_search_state_t)
    : M W (Z * onewire_search_state_t) :=
  r <- searchNext_loop 64 0 (-1) state ;;
  let '(completed, locallast_zero_branch, state) := r in
  if completed then
    if locallast_zero_branch =? -1
    then ret (0, set_done state true)
    else ret (0, set_last_zero_branch state locallast_zero_branch)
  else ret (0, state).

(** [searchDevices]: [||] evaluates [DS18B20_Start] only when [done] is
    false. *)
Definition searchDevices (command : Z) (state : onewire_search_state_t)
    : M W (Z * onewire_search_state_t) :=
  if done state then ret (1, state)
  else
    presence <- DS18B20_Start ;;
    if presence =? 0 then ret (1, state)
    else DS18B20_writeData command ;; searchNext state.

(** [DS18B20_Search].  The stores into [ROM_codes_array] are collected in
    program order as (index, value) pairs; [index] and [count] are uint8_t;
    [int_shl] is the target's int shift.
    The call of [addressValid] only selects a log message and has no other
    effect.  The [while] loop runs on fuel. *)
Fixpoint DS18B20_Search_loop (int_shl : Z -> Z -> Z) (fuel : nat) (index count : Z)
    (search_state : onewire_search_state_t) (stores : list (Z * Z))
    : M W (outcome * list (Z * Z) * onewire_search_state_t) :=
  match fuel with
  | O => ret (OutOfFuel, stores, search_state)
  | S fuel' =>
      r <- searchDevices SEARCH_ROM search_state ;;
      let (result, search_state) := r in
      if result =? 0 then ret (Returned 0, stores, search_state)
      else
        let slot := pack_ROM_code int_shl (address search_state) in
        DS18B20_Search_loop int_shl fuel' (uint8 (index + 1)) (uint8 (count + 1))
          search_state (stores ++ [(index, slot)])
  end.

Definition DS18B20_Search (int_shl : Z -> Z -> Z) (fuel : nat)
    : M W (outcome * list (Z * Z) * onewire_search_state_t) :=
  DS18B20_Search_loop int_shl fuel 0 0 onewireSearchInit [].

(** The two [for (i ...)] loops of [DS18B20_GetTemp] that send the ROM code,
    most significant byte first. *)
Fixpoint send_ROM_code (n : nat) (i : Z) (code : Z) : M W unit :=
  match n with
  | O => ret tt
  | S n' =>
      let ROM_code_byte := uint8 (Z.land (Z.shiftr code (8 * (7 - i))) 0xFF) in
      DS18B20_writeData ROM_code_byte ;;
      send_ROM_code n' (i + 1) code
  end.

(** [uint16_t Temperature = ((byte_2 << 8) | byte_1) >> 4], computed at
    type int on the promoted bytes. *)
Definition Temperature_of (Temperature_byte_1 Temperature_byte_2 : Z) : Z :=
  uint16 (Z.shiftr (Z.lor (Z.shiftl Temperature_byte_2 8) Temperature_byte_1) 4).

(** [DS18B20_GetTemp].  [ROM_codes_array] is a list; reading past its end
    is [OutOfBounds].  The stores into [temperature] are collected in
    program order as (index, value) pairs. *)
Fixpoint DS18B20_GetTemp_loop (fuel : nat) (count : Z)
    (ROM_codes_array : list Z) (temperature : list (Z * Z))
    : M W (outcome * list (Z * Z)) :=
  match fuel with
  | O => ret (OutOfFuel, temperature)
  | S fuel' =>
      match nth_error ROM_codes_array (Z.to_nat count) with
      | None => ret (OutOfBounds, temperature)
      | Some code =>
          if code =? 0 then ret (Returned 0, temperature)
          else
            DS18B20_Start ;;
            DS18B20_writeData MATCH_ROM ;;
            send_ROM_code 8 0 code ;;
            DS18B20_writeData CONVERT_T ;;
            DS18B20_Start ;;
            DS18B20_writeData MATCH_ROM ;;
            send_ROM_code 8 0 code ;;
            DS18B20_writeData READ_SCRATCHPAD ;;
            Temperature_byte_1 <- DS18B20_readByte ;;
            Temperature_byte_2 <- DS18B20_readByte ;;
            let Temperature := Temperature_of Temperature_byte_1 Temperature_byte_2 in
            DS18B20_GetTemp_loop fuel' (uint8 (count + 1)) ROM_codes_array
              (temperature ++ [(count, Temperature)])
      end
  end.

Definition DS18B20_GetTemp (fuel : nat) (ROM_codes_array : list Z)
    : M W (outcome * list (Z * Z)) :=
  DS18B20_GetTemp_loop fuel 0 ROM_codes_array [].

End Search.

(** ** Worlds *)

(** *** A scripted line: the samples the pin will deliver, in order; once
    they are used up the line reads high (pulled up, nobody driving). *)
Module ScriptBus.

Definition t : Type := list GPIO_PinState.

Definition read_pin (w : t) : GPIO_PinState * t :=
  match w with
  | [] => (GPIO_PIN_SET, [])
  | s :: rest => (s, rest)
  end.

#[global] Instance hal : HAL t := {
  HAL_GPIO_WritePin := fun _ w => w;
  HAL_GPIO_ReadPin := read_pin;
  TIM_wait := fun _ w => w
}.

Definition level (b : bool) : GPIO_PinState :=
  if b then GPIO_PIN_SET else GPIO_PIN_RESET.

(** Samples that deliver the low 16 bits of [raw], bit 0 first. *)
Definition bits_of (n : nat) (raw : Z) : t :=
  map (fun k => level (Z.testbit raw (Z.of_nat k))) (seq 0 n).

End ScriptBus.

(** *** Recording what the master does on the pin. *)
Inductive Event : Type :=
  | EvWrite (s : GPIO_PinState)
  | EvDelay (us : Z)
  | EvRead (s : GPIO_PinState).

Module Logged.

Section Wrap.
Context {W : Type} `{HAL W}.

Definition t : Type := (W * list Event)%type.

Definition write_pin (s : GPIO_PinState) (w : t) : t :=
  (HAL_GPIO_WritePin s (fst w), snd w ++ [EvWrite s]).

Definition read_pin (w : t) : GPIO_PinState * t :=
  let (s, w') := HAL_GPIO_ReadPin (fst w) in (s, (w', snd w ++ [EvRead s])).

Definition wait (us : Z) (w : t) : t :=
  (TIM_wait us (fst w), snd w ++ [EvDelay us]).

End Wrap.

#[global] Instance hal {W : Type} `{HAL W} : HAL (W * list Event) := {
  HAL_GPIO_WritePin := write_pin;
  HAL_GPIO_ReadPin := read_pin;
  TIM_wait := wait
}.

End Logged.

(** *** A simulated bus.  This models the devices, not the driver: [roms]
    are the 64-bit ROM codes of the devices on the line, bit [k] of a code
    being the [k]-th bit the device puts on the wire; the line is low when
    the master or any device pulls it low.  The devices follow the reset pulse, the SEARCH ROM command and the
    three-slot search protocol; nominal timing: presence pulse from 30 to
    150 us after the reset pulse ends, a written bit is a 1 when the low
    pulse lasts at most 15 us, read data is held until 15 us after the
    falling edge. *)
Module SimBus.

Inductive Phase : Type :=
  | Idle
  | Command (n : nat) (acc : Z)
  | SearchBit (pos : Z) (alive : list Z)
  | SearchCmp (pos : Z) (alive : list Z)
  | SearchSel (pos : Z) (alive : list Z).

Record t : Type := mk {
  roms : list Z;
  phase : Phase;
  master_low : bool;
  low_us : Z;
  high_us : Z;
  pull : option (Z * Z)
}.

Definition bus (roms : list Z) : t := mk roms Idle false 0 0 None.

Definition sends (bit : bool) (pos : Z) (alive : list Z) : bool :=
  existsb (fun r => Bool.eqb (Z.testbit r pos) bit) alive.

Definition select (bit : bool) (pos : Z) (alive : list Z) : list Z :=
  filter (fun r => Bool.eqb (Z.testbit r pos) bit) alive.

Definition after_command (roms : list Z) (cmd : Z) : Phase :=
  if cmd =? SEARCH_ROM then SearchBit 0 roms else Idle.

(** What the devices do when the master releases the line after a low pulse
    of [low] microseconds. *)
Definition on_release (roms : list Z) (ph : Phase) (low : Z)
    : Phase * option (Z * Z) :=
  if 480 <=? low then
    (Command 0 0, match roms with [] => None | _ :: _ => Some (30, 150) end)
  else
    let written := low <=? 15 in
    match ph with
    | Idle => (Idle, None)
    | Command n acc =>
        let acc := acc + (if written then 2 ^ Z.of_nat n else 0) in
        (if (n =? 7)%nat then after_command roms acc else Command (S n) acc, None)
    | SearchBit pos alive =>
        (SearchCmp pos alive,
         if sends false pos alive then Some (0, 15 - low) else None)
    | SearchCmp pos alive =>
        (SearchSel pos alive,
         if sends true pos alive then Some (0, 15 - low) else None)
    | SearchSel pos alive =>
        (if pos =? 63 then Idle else SearchBit (pos + 1) (select written pos alive),
         None)
    end.

Definition write_pin (s : GPIO_PinState) (w : t) : t :=
  match s with
  | GPIO_PIN_RESET =>
      if master_low w then w
      else mk (roms w) (phase w) true 0 0 None
  | GPIO_PIN_SET =>
      if master_low w then
        let (ph, p) := on_release (roms w) (phase w) (low_us w) in
        mk (roms w) ph false (low_us w) 0 p
      else w
  end.

Definition wait (us : Z) (w : t) : t :=
  if master_low w
  then mk (roms w) (phase w) true (low_us w + us) (high_us w) (pull w)
  else mk (roms w) (phase w) false (low_us w) (high_us w + us) (pull w).

Definition read_pin (w : t) : GPIO_PinState * t :=
  (if master_low w then GPIO_PIN_RESET
   else match pull w with
        | Some (lo, hi) =>
            if (lo <=? high_us w) && (high_us w <? hi)
            then GPIO_PIN_RESET else GPIO_PIN_SET
        | None => GPIO_PIN_SET
        end, w).

#[global] Instance hal : HAL t := {
  HAL_GPIO_WritePin := write_pin;
  HAL_GPIO_ReadPin := read_pin;
  TIM_wait := wait
}.

End SimBus.

(** ** Notions used by the statements *)

(** Bit [p] (0..63) of the address buffer, in the order of the search loop. *)
Definition addr_bit (address : list Z) (p : Z) : bool :=
  Z.testbit (load_byte address (p / 8)) (p mod 8).

(** The address buffer as one number, byte 0 least significant: bit [p] of it
    is the bit the search handled at position [p]. *)
Fixpoint address_value (address : list Z) : Z :=
  match address with
  | [] => 0
  | b :: rest => b + 256 * address_value rest
  end.

(** Sum over i of [address[i] * 2^(8*(7-i))]: byte 0 most significant. *)
Definition msb_first_value (address : list Z) : Z :=
  fold_right Z.add 0
    (map (fun i => load_byte address i * 2 ^ (8 * (7 - i))) [0; 1; 2; 3; 4; 5; 6; 7]).

(** The bytes of a 64-bit number, least significant first. *)
Fixpoint bytes_of (n : nat) (v : Z) : list Z :=
  match n with
  | O => []
  | S n' => v mod 256 :: bytes_of n' (v / 256)
  end.

(** The [n]-bit number read with bit 0 as the most significant bit. *)
Fixpoint bitrev (n : nat) (a : Z) : Z :=
  match n with
  | O => 0
  | S n' => (if Z.odd a then 2 ^ Z.of_nat n' else 0) + bitrev n' (a / 2)
  end.

Section Cycles.
Context {W : Type} `{HAL W}.

(** [n] consecutive calls of [searchDevices] on the same state; the address
    buffer is collected after every call that returns 0. *)
Fixpoint search_cycles (n : nat) (state : onewire_search_state_t) (w : W)
    : list Z * onewire_search_state_t * W :=
  match n with
  | O => ([], state, w)
  | S n' =>
      let '(result, state', w') := searchDevices SEARCH_ROM state w in
      let '(found, state'', w'') := search_cycles n' state' w' in
      ((if result =? 0 then [address_value (address state')] else []) ++ found,
       state'', w'')
  end.

End Cycles.

(** An implementation of the int shift: the low 32 bits of [a * 2^n] read as
    a signed int when [n < 32], and 0 for larger counts. *)
Definition wrap_int (x : Z) : Z := (x + 2 ^ 31) mod 2 ^ 32 - 2 ^ 31.

Definition wrap_shl (a n : Z) : Z :=
  if (0 <=? n) && (n <? 32) then wrap_int (a * 2 ^ n) else 0.



Definition is_byte (x : Z) : Prop := 0 <= x < 256.

(** What [DS18B20_Start] does on the pin when the sample is [s]. *)
Definition reset_events (s : GPIO_PinState) : list Event :=
  [EvWrite GPIO_PIN_RESET; EvDelay 480; EvWrite GPIO_PIN_SET; EvDelay 80;
   EvRead s; EvDelay 400].

(** Example ROM codes (family code 0x28, serial, CRC-8), as address bytes. *)
Definition rom_00 : list Z := [0x28; 0x00; 0x64; 0x1E; 0x0F; 0x2A; 0x01; 0x1A].
Definition rom_01 : list Z := [0x28; 0x01; 0x64; 0x1E; 0x0F; 0x2A; 0x01; 0x2D].
Definition rom_02 : list Z := [0x28; 0x02; 0x64; 0x1E; 0x0F; 0x2A; 0x01; 0x74].
Definition rom_06 : list Z := [0x28; 0x06; 0x64; 0x1E; 0x0F; 0x2A; 0x01; 0xA8].
Definition rom_0A : list Z := [0x28; 0x0A; 0x64; 0x1E; 0x0F; 0x2A; 0x01; 0xD5].

(** ** Enumerating an initial segment of the integers *)

Fixpoint upto (n : nat) (z : Z) : list Z :=
  match n with
  | O => []
  | S n' => z :: upto n' (z + 1)
  end.

Definition below (n : nat) : list Z := upto n 0.


Definition clear_check (a b k : Z) : bool :=
  Bool.eqb (Z.testbit (uint8 (Z.land a (Z.lnot (Z.shiftl 1 b)))) k)
           (if k =? b then false else Z.testbit a k).

Definition set_check (a b k : Z) : bool :=
  Bool.eqb (Z.testbit (uint8 (Z.lor a (Z.shiftl 1 b))) k)
           (if k =? b then true else Z.testbit a k).

Definition replay_check (a b k : Z) : bool :=
  let v := uint8 (Z.land a (Z.shiftl 1 b)) in
  Bool.eqb (v =? 0) (negb (Z.testbit a b)) &&
  Bool.eqb (Z.testbit (uint8 (Z.lor a (Z.shiftl v b))) k)
           (Z.testbit a k || (negb (v =? 0) && (k =? 2 * b))).

(** ** The search on the simulated bus: vocabulary of the invariants *)

(** The master is not driving the line and the devices are in phase [ph]. *)
Definition quiet (w : SimBus.t) (roms : list Z) (ph : SimBus.Phase) : Prop :=
  SimBus.roms w = roms /\ SimBus.master_low w = false /\ SimBus.phase w = ph.

Definition phase_at (p : Z) (alive : list Z) : SimBus.Phase :=
  if p =? 64 then SimBus.Idle else SimBus.SearchBit p alive.

Definition valid_roms (roms : list Z) : Prop :=
  roms <> [] /\ Forall (fun r => 0 <= r < 2 ^ 64) roms.

(** ROM code [r] matches the address buffer on positions below [p]. *)
Definition agree (r : Z) (address : list Z) (p : Z) : Prop :=
  forall j, 0 <= j < p -> Z.testbit r j = addr_bit address j.

Definition bytes8 (address : list Z) : Prop :=
  length address = 8%nat /\ Forall is_byte address.

(** The mask the replay branch computes:
    [state->address[byteIndex] & (1 << bitIndex)]. *)
Definition replay_mask (address : list Z) (p : Z) : Z :=
  uint8 (Z.land (load_byte address (p / 8)) (Z.shiftl 1 (p mod 8))).

(** The three kinds of value the loop writes at [p], with the bit [c] that
    goes on the bus. *)
Definition bit_written (cur : list Z) (p v : Z) (c : bool) : Prop :=
  (v = 0 /\ c = false) \/
  (v = 1 /\ c = true) \/
  (v = replay_mask cur p /\ v <> 0 /\ c = true /\ addr_bit cur p = true).

(** The devices still answering are those that match the bits chosen so
    far, and there is at least one. *)
Definition alive_ok (roms alive cur : list Z) (p : Z) : Prop :=
  (forall r, In r alive <-> In r roms /\ agree r cur p) /\ exists r, In r alive.

(** [locallast_zero_branch], when set, is a position where a 0 was chosen
    although some device on the same path has a 1. *)
Definition local_ok (roms : list Z) (local : Z) (cur : list Z) (p : Z) : Prop :=
  local = -1 \/
  (0 <= local < p /\ addr_bit cur local = false /\
   exists r, In r roms /\ agree r cur local /\ Z.testbit r local = true).

(** With [A0] and [lzb0] the address buffer and [last_zero_branch] on entry
    to the cycle: still on the path of the previous cycle (same bits below
    [p], and no bit of the previous address cleared at or above [p]). *)
Definition same_path (A0 : list Z) (lzb0 : Z) (cur : list Z) (p : Z) : Prop :=
  p <= lzb0 /\
  (forall j, 0 <= j < p -> addr_bit cur j = addr_bit A0 j) /\
  (forall j, p <= j < 64 -> addr_bit A0 j = true -> addr_bit cur j = true).

(** Left the path of the previous cycle at [q], on the 1 side. *)
Definition branched (A0 cur : list Z) (p : Z) : Prop :=
  exists q, 0 <= q < p /\
    (forall j, 0 <= j < q -> addr_bit cur j = addr_bit A0 j) /\
    addr_bit A0 q = false /\ addr_bit cur q = true.

Definition order_ok (A0 : list Z) (lzb0 : Z) (cur : list Z) (p : Z) : Prop :=
  same_path A0 lzb0 cur p \/ branched A0 cur p.

(** What a complete cycle leaves behind when it does not set [done]: the
    buffer holds a device's code, and at [last_zero_branch] it has a 0 where
    another device on the same path has a 1. *)
Definition entry_ok (roms A0 : list Z) (lzb0 : Z) : Prop :=
  0 <= lzb0 < 64 /\
  (exists r0, In r0 roms /\ agree r0 A0 64) /\
  addr_bit A0 lzb0 = false /\
  exists r1, In r1 roms /\ agree r1 A0 lzb0 /\ Z.testbit r1 lzb0 = true.

(** The order of discovery: numeric order of the codes read with bit 0 as
    the most significant bit. *)
Definition lsb_first_lt (a b : Z) : Prop := bitrev 64 a < bitrev 64 b.

(** Devices still ahead of an address in the order of discovery. *)
Definition ahead (roms : list Z) (a : Z) : list Z :=
  filter (fun r => bitrev 64 a <? bitrev 64 r) roms.

(** *** A line on which the master misses samples.  [LossyBus] wraps any bus:
    the next [n] samples the master takes are lost (it reads the released
    level, as when a pulse is missed), while the bus below goes on as
    usual. *)
Module LossyBus.

Section Wrap.
Context {W : Type} `{HAL W}.

Definition t : Type := (nat * W)%type.

Definition write_pin (s : GPIO_PinState) (w : t) : t :=
  (fst w, HAL_GPIO_WritePin s (snd w)).

Definition read_pin (w : t) : GPIO_PinState * t :=
  let (s, w') := HAL_GPIO_ReadPin (snd w) in
  match fst w with
  | O => (s, (O, w'))
  | S n => (GPIO_PIN_SET, (n, w'))
  end.

Definition wait (us : Z) (w : t) : t := (fst w, TIM_wait us (snd w)).

End Wrap.

#[global] Instance hal {W : Type} `{HAL W} : HAL (nat * W) := {
  HAL_GPIO_WritePin := write_pin;
  HAL_GPIO_ReadPin := read_pin;
  TIM_wait := wait
}.

End LossyBus.

(** ** Slots: what the master does on the pin, operation by operation *)

(** One operation of the signaling layer with what the line delivered:
    [DS18B20_Start], [DS18B20_read], [DS18B20_write0] / [DS18B20_write1]. *)
Inductive Slot : Type :=
  | SlotReset (s : GPIO_PinState)
  | SlotRead (s : GPIO_PinState)
  | SlotWrite (b : bool).

(** The pin writes, delays and sample of a slot, in program order. *)
Definition slot_events (x : Slot) : list Event :=
  match x with
  | SlotReset s => reset_events s
  | SlotRead s =>
      [EvWrite GPIO_PIN_RESET; EvDelay 3; EvWrite GPIO_PIN_SET; EvDelay 10;
       EvRead s; EvDelay 52]
  | SlotWrite false =>
      [EvWrite GPIO_PIN_RESET; EvDelay 60; EvWrite GPIO_PIN_SET; EvDelay 5]
  | SlotWrite true =>
      [EvWrite GPIO_PIN_RESET; EvDelay 5; EvWrite GPIO_PIN_SET; EvDelay 60]
  end.

Definition slots_events (l : list Slot) : list Event := concat (map slot_events l).

(** On the recording bus [cl] does what [c] does on the bus below it, and
    appends the slots [f w] to the record. *)
Definition emits {W A : Type} (cl : M (W * list Event) A) (c : M W A)
    (f : W -> list Slot) : Prop :=
  forall w l, cl (w, l) = (fst (c w), (snd (c w), l ++ slots_events (f w))).

(** The bit [DS18B20_read] returns for a sample. *)
Definition sample_bit (s : GPIO_PinState) : Z :=
  match s with GPIO_PIN_SET => 1 | GPIO_PIN_RESET => 0 end.

(** A slot without the sample it took. *)
Inductive SlotKind : Type := KReset | KRead | KWrite (b : bool).

Definition kind (x : Slot) : SlotKind :=
  match x with
  | SlotReset _ => KReset
  | SlotRead _ => KRead
  | SlotWrite b => KWrite b
  end.

(** The eight write slots of a byte, bit 0 first. *)
Definition byte_kinds (d : Z) : list SlotKind :=
  map (fun k => KWrite (Z.testbit d k)) (below 8).

(** The value of samples read least significant bit first. *)
Fixpoint lsb_first_value (samples : list GPIO_PinState) : Z :=
  match samples with
  | [] => 0
  | s :: rest => sample_bit s + 2 * lsb_first_value rest
  end.

(** The test [(data & (1 << i)) == (1 << i)] of [DS18B20_writeData] against
    bit [i] of the byte. *)
Definition mask_check (d k : Z) : bool :=
  Bool.eqb (Z.land d (Z.shiftl 1 k) =? Z.shiftl 1 k) (Z.testbit d k).

(** A computation on the recording bus appends whole slots to the record;
    [R] relates the slots and the result. *)
Definition traces {W A : Type} (cl : M (W * list Event) A)
    (R : list Slot -> A -> Prop) : Prop :=
  forall w l, exists slots a w',
    cl (w, l) = (a, (w', l ++ slots_events slots)) /\ R slots a.

(** Byte [i] of a 64-bit code, byte 0 being the most significant. *)
Definition ROM_byte (code i : Z) : Z := (code / 2 ^ (8 * (7 - i))) mod 256.

(** The 64 write slots of a code sent most significant byte first. *)
Definition code_kinds (code : Z) : list SlotKind :=
  concat (map (fun i => byte_kinds (ROM_byte code i)) (below 8)).

(** The slots of one turn of [DS18B20_GetTemp] for one code. *)
Definition transaction_kinds (code : Z) : list SlotKind :=
  [KReset] ++ byte_kinds MATCH_ROM ++ code_kinds code ++ byte_kinds CONVERT_T ++
  [KReset] ++ byte_kinds MATCH_ROM ++ code_kinds code ++
  byte_kinds READ_SCRATCHPAD ++ repeat KRead 16.

(** The slots of the search positions [p], [p+1], ... whose written bits are
    those of [address]. *)
Definition search_kinds (address : list Z) (n : nat) (p : Z) : list SlotKind :=
  concat (map (fun j => [KRead; KRead; KWrite (addr_bit address j)]) (upto n p)).

(** Two cells of the CRC table with the same content are the same cell. *)
Definition table_injective_check (i j : Z) : bool :=
  implb (load_byte crc8_table i =? load_byte crc8_table j) (i =? j).

(** The exclusive or of two bytes is a byte. *)
Definition xor_byte_check (x c : Z) : bool :=
  (0 <=? Z.lxor x c) && (Z.lxor x c <? 256).

(** The master samples the line only while it has released it, and the
    events end with the line released; [low] tells whether the master is
    holding the line low before the events. *)
Fixpoint bus_discipline (low : bool) (events : list Event) : bool :=
  match events with
  | [] => negb low
  | EvWrite GPIO_PIN_RESET :: rest => bus_discipline true rest
  | EvWrite GPIO_PIN_SET :: rest => bus_discipline false rest
  | EvDelay _ :: rest => bus_discipline low rest
  | EvRead _ :: rest => negb low && bus_discipline false rest
  end.

(** What a call appends to the log is a sequence of whole slots. *)
Definition slotted {W A : Type} (cl : M (W * list Event) A) : Prop :=
  traces cl (fun _ _ => True).

(** The microseconds of [DS18B20_delay] in a list of events. *)
Fixpoint total_delay (events : list Event) : Z :=
  match events with
  | [] => 0
  | EvDelay us :: rest => us + total_delay rest
  | _ :: rest => total_delay rest
  end.

(** The microseconds of delay in a slot: 480 + 80 + 400 for a reset,
    3 + 10 + 52 for a read, 60 + 5 or 5 + 60 for a write. *)
Definition kind_time (k : SlotKind) : Z :=
  match k with
  | KReset => 960
  | KRead | KWrite _ => 65
  end.

Definition kinds_time (l : list SlotKind) : Z := fold_right Z.add 0 (map kind_time l).

(** Eight bytes in the buffer, and a [last_zero_branch] that is -1 or a bit
    position (so that it fits its [int8_t]). *)
Definition search_state_ok (state : onewire_search_state_t) : Prop :=
  bytes8 (address state) /\ -1 <= last_zero_branch state <= 63.

(** Every device either still matches the buffer below [p], or left its path
    at a position where the buffer took the 0 and the device has a 1. *)
Definition behind_ok (roms cur : list Z) (p : Z) : Prop :=
  forall r, In r roms ->
    agree r cur p \/
    exists q, 0 <= q < p /\ agree r cur q /\ addr_bit cur q = false /\
              Z.testbit r q = true.

(** ** Initialisation ([DS18B20_Init], [DS18B20_Timer_Init]) *)

Definition uint32 (x : Z) : Z := x mod 2 ^ 32.

Definition NULL : Z := 0.

(** The enumerators of [error_t] (errors.h) and the HAL constants the two
    functions use are defined outside the driver's files; they are kept as
    the fields of a platform. *)
Class Platform : Type := {
  OK : Z;
  NULL_POINTER : Z;
  ERROR_OTHER : Z;
  RCC_HCLK_DIV1 : Z;
  GPIO_MODE_OUTPUT_OD : Z;
  GPIO_NOPULL : Z;
  GPIO_SPEED_FREQ_HIGH : Z;
  TIM_CLOCKDIVISION_DIV1 : Z;
  TIM_AUTORELOAD_PRELOAD_DISABLE : Z;
  TIM_CLOCKSOURCE_INTERNAL : Z;
  TIM_TRGO_RESET : Z;
  TIM_MASTERSLAVEMODE_DISABLE : Z
}.

Record GPIO_InitTypeDef : Type := mkGPIO_Init {
  Pin : Z;
  Mode : Z;
  Pull : Z;
  Speed : Z
}.

(** The fields of [TIM_HandleTypeDef] that the driver writes. *)
Record TIM_HandleTypeDef : Type := mkTIM {
  htim_Instance : Z;
  Init_Prescaler : Z;
  Init_Period : Z;
  Init_ClockDivision : Z;
  Init_AutoReloadPreload : Z
}.

(** The HAL calls of the two functions. [HAL_RCC_GetClockConfig] yields the
    [APB1CLKDivider] field it fills in; the four timer calls yield [true]
    for [HAL_OK]. *)
Class InitHAL (W : Type) : Type := {
  HAL_GPIO_Init : Z -> GPIO_InitTypeDef -> W -> W;
  HAL_RCC_GetClockConfig : W -> Z * W;
  HAL_RCC_GetPCLK1Freq : W -> Z * W;
  HAL_TIM_Base_Init : TIM_HandleTypeDef -> W -> bool * W;
  HAL_TIM_ConfigClockSource : TIM_HandleTypeDef -> Z -> W -> bool * W;
  HAL_TIMEx_MasterConfigSynchronization : TIM_HandleTypeDef -> Z -> Z -> W -> bool * W;
  HAL_TIM_Base_Start : TIM_HandleTypeDef -> W -> bool * W
}.

(** [DS18B20_t]; a function pointer is [None] when it is NULL. *)
Record DS18B20_t (W : Type) : Type := mkSensor {
  htim : TIM_HandleTypeDef;
  timer_instance : Z;
  timer_clk_enable : option (W -> W);
  gpio_port : Z;
  gpio_pin : Z;
  gpio_clk_enable : option (W -> W)
}.
Arguments mkSensor {W}.
Arguments htim {W}.
Arguments timer_instance {W}.
Arguments timer_clk_enable {W}.
Arguments gpio_port {W}.
Arguments gpio_pin {W}.
Arguments gpio_clk_enable {W}.

Definition set_htim {W : Type} (sensor : DS18B20_t W) (h : TIM_HandleTypeDef)
    : DS18B20_t W :=
  mkSensor h (timer_instance sensor) (timer_clk_enable sensor)
    (gpio_port sensor) (gpio_pin sensor) (gpio_clk_enable sensor).

Section Init.

Context {platform : Platform} {W : Type} {init_hal : InitHAL W}.

(** [if (f != NULL) f();] *)
Definition call_if_set (f : option (W -> W)) : M W unit :=
  match f with
  | Some f => act f
  | None => ret tt
  end.

(** [DS18B20_Timer_Init]. The arithmetic is on [uint32_t]; [2UL] is a 32-bit
    unsigned long on the target. *)
Definition DS18B20_Timer_Init (sensor : DS18B20_t W) : M W (Z * DS18B20_t W) :=
  let result := OK in
  let result := if timer_instance sensor =? NULL then NULL_POINTER else result in
  call_if_set (timer_clk_enable sensor) ;;
  APB1_prescaler <- HAL_RCC_GetClockConfig ;;
  APB1_timers_clock <-
    (if APB1_prescaler =? RCC_HCLK_DIV1
     then HAL_RCC_GetPCLK1Freq
     else f <- HAL_RCC_GetPCLK1Freq ;; ret (uint32 (2 * f))) ;;
  let prescaler := uint32 (APB1_timers_clock / 1000000 - 1) in
  let sensor :=
    set_htim sensor
      (mkTIM (timer_instance sensor) prescaler (uint32 (-1))
         TIM_CLOCKDIVISION_DIV1 TIM_AUTORELOAD_PRELOAD_DISABLE) in
  s <- HAL_TIM_Base_Init (htim sensor) ;;
  let result := if negb s then ERROR_OTHER else result in
  s <- HAL_TIM_ConfigClockSource (htim sensor) TIM_CLOCKSOURCE_INTERNAL ;;
  let result := if negb s then ERROR_OTHER else result in
  s <- HAL_TIMEx_MasterConfigSynchronization (htim sensor) TIM_TRGO_RESET
         TIM_MASTERSLAVEMODE_DISABLE ;;
  let result := if negb s then ERROR_OTHER else result in
  s <- HAL_TIM_Base_Start (htim sensor) ;;
  let result := if negb s then ERROR_OTHER else result in
  ret (result, sensor).

(** [DS18B20_Init] *)
Definition DS18B20_Init (sensor : DS18B20_t W) : M W (Z * DS18B20_t W) :=
  let result := OK in
  call_if_set (gpio_clk_enable sensor) ;;
  let GPIO_InitStruct :=
    mkGPIO_Init (gpio_pin sensor) GPIO_MODE_OUTPUT_OD GPIO_NOPULL
      GPIO_SPEED_FREQ_HIGH in
  act (HAL_GPIO_Init (gpio_port sensor) GPIO_InitStruct) ;;
  r <- DS18B20_Timer_Init sensor ;;
  let (timer_result, sensor) := r in
  let result := if negb (timer_result =? 0) then ERROR_OTHER else result in
  ret (result, sensor).

End Init.

(** *** A board that answers the HAL calls and records them. *)
Inductive InitCall : Type :=
  | CallClockEnable (which : Z)
  | CallGPIO_Init (port : Z) (init : GPIO_InitTypeDef)
  | CallGetClockConfig
  | CallGetPCLK1Freq
  | CallTIM_Base_Init (h : TIM_HandleTypeDef)
  | CallConfigClockSource (h : TIM_HandleTypeDef) (source : Z)
  | CallMasterConfig (h : TIM_HandleTypeDef) (trigger mode : Z)
  | CallTIM_Base_Start (h : TIM_HandleTypeDef).

Module Board.

Record t : Type := mk {
  APB1CLKDivider : Z;          (* uint32_t *)
  PCLK1Freq : Z;               (* uint32_t, in Hz *)
  base_init_ok : bool;
  clock_source_ok : bool;
  master_config_ok : bool;
  base_start_ok : bool;
  calls : list InitCall
}.

Definition record (c : InitCall) (b : t) : t :=
  mk (APB1CLKDivider b) (PCLK1Freq b) (base_init_ok b) (clock_source_ok b)
    (master_config_ok b) (base_start_ok b) (calls b ++ [c]).

#[global] Instance hal : InitHAL t := {
  HAL_GPIO_Init := fun port init b => record (CallGPIO_Init port init) b;
  HAL_RCC_GetClockConfig := fun b => (APB1CLKDivider b, record CallGetClockConfig b);
  HAL_RCC_GetPCLK1Freq := fun b => (PCLK1Freq b, record CallGetPCLK1Freq b);
  HAL_TIM_Base_Init := fun h b => (base_init_ok b, record (CallTIM_Base_Init h) b);
  HAL_TIM_ConfigClockSource := fun h s b =>
    (clock_source_ok b, record (CallConfigClockSource h s) b);
  HAL_TIMEx_MasterConfigSynchronization := fun h x y b =>
    (master_config_ok b, record (CallMasterConfig h x y) b);
  HAL_TIM_Base_Start := fun h b => (base_start_ok b, record (CallTIM_Base_Start h) b)
}.

(** The clock feeding the APB1 timers. *)
Definition timers_clock {platform : Platform} (b : t) : Z :=
  if APB1CLKDivider b =? RCC_HCLK_DIV1 then PCLK1Freq b else 2 * PCLK1Freq b.

Definition all_ok (b : t) : bool :=
  base_init_ok b && clock_source_ok b && master_config_ok b && base_start_ok b.

(** [b'] answers the HAL calls as [b] does. *)
Definition same_answers (b b' : t) : Prop :=
  APB1CLKDivider b' = APB1CLKDivider b /\ PCLK1Freq b' = PCLK1Freq b /\
  base_init_ok b' = base_init_ok b /\ clock_source_ok b' = clock_source_ok b /\
  master_config_ok b' = master_config_ok b /\ base_start_ok b' = base_start_ok b.

(** The clock-enable functions of the sensor do not change the answers. *)
Definition plain_callbacks (sensor : DS18B20_t t) : Prop :=
  forall f, (timer_clk_enable sensor = Some f \/ gpio_clk_enable sensor = Some f) ->
    forall b, same_answers b (f b).

Definition enable (which : Z) : t -> t := record (CallClockEnable which).

End Board.

(** A platform for the examples: [error_t] numbered from 0, the HAL
    constants as on an STM32H7. *)
Definition example_platform : Platform := {|
  OK := 0; NULL_POINTER := 1; ERROR_OTHER := 2;
  RCC_HCLK_DIV1 := 0;
  GPIO_MODE_OUTPUT_OD := 0x11; GPIO_NOPULL := 0; GPIO_SPEED_FREQ_HIGH := 2;
  TIM_CLOCKDIVISION_DIV1 := 0; TIM_AUTORELOAD_PRELOAD_DISABLE := 0;
  TIM_CLOCKSOURCE_INTERNAL := 0x1000; TIM_TRGO_RESET := 0;
  TIM_MASTERSLAVEMODE_DISABLE := 0
|}.

(** What [DS18B20_Timer_Init] computes on a board, once the clock-enable
    function has run. *)
Definition timer_handle {platform : Platform} (sensor : DS18B20_t Board.t)
    (b : Board.t) : TIM_HandleTypeDef :=
  mkTIM (timer_instance sensor)
    (uint32 ((if Board.APB1CLKDivider b =? RCC_HCLK_DIV1 then Board.PCLK1Freq b
              else uint32 (2 * Board.PCLK1Freq b)) / 1000000 - 1))
    (uint32 (-1)) TIM_CLOCKDIVISION_DIV1 TIM_AUTORELOAD_PRELOAD_DISABLE.

(** Its result: a HAL failure overrides the NULL instance. *)
Definition timer_result {platform : Platform} (sensor : DS18B20_t Board.t)
    (b : Board.t) : Z :=
  if Board.all_ok b
  then (if timer_instance sensor =? NULL then NULL_POINTER else OK)
  else ERROR_OTHER.

(** * Properties *)

(** ** Checking a decidable property on an initial segment of the integers *)

Lemma upto_complete (n : nat) (a z : Z) :
  a <= z < a + Z.of_nat n -> In z (upto n a).
Proof.
  revert a. induction n as [|n IH]; intros a Hz; [lia|].
  cbn [upto]. destruct (Z.eq_dec a z) as [->|Hne]; [now left|].
  right. apply IH. lia.
Qed.

Lemma below_complete (n : nat) (z : Z) : 0 <= z < Z.of_nat n -> In z (below n).
Proof. intros Hz. apply upto_complete. lia. Qed.

Lemma check_below (P : Z -> bool) (n : nat) :
  forallb P (below n) = true -> forall z, 0 <= z < Z.of_nat n -> P z = true.
Proof.
  intros Hall z Hz. rewrite forallb_forall in Hall.
  apply Hall, below_complete, Hz.
Qed.

Lemma uint8_range (x : Z) : 0 <= uint8 x < 256.
Proof. unfold uint8. apply Z.mod_pos_bound. lia. Qed.

Lemma uint8_small (x : Z) : 0 <= x < 256 -> uint8 x = x.
Proof. intros Hx. unfold uint8. apply Z.mod_small, Hx. Qed.

(** ** CRC-8: the table against the shift register *)

Lemma crc8_table_range (i : Z) :
  0 <= i < 256 -> 0 <= load_byte crc8_table i < 256.
Proof.
  intros Hi.
  pose proof (check_below
    (fun i => (0 <=? load_byte crc8_table i) && (load_byte crc8_table i <? 256))
    256 eq_refl i Hi) as Hc.
  cbv beta in Hc. apply andb_true_iff in Hc. destruct Hc as [Hlo Hhi].
  apply Z.leb_le in Hlo. apply Z.ltb_lt in Hhi. lia.
Qed.

Lemma crcGenerator_range (crc b : Z) : 0 <= crcGenerator crc b < 256.
Proof. unfold crcGenerator. apply crc8_table_range, uint8_range. Qed.

Lemma crcGenerator_bitwise (crc b : Z) :
  0 <= crc < 256 -> 0 <= b < 256 ->
  crcGenerator crc b = dallas_crc8_bitwise crc b.
Proof.
  intros Hcrc Hb.
  assert (Hall : forallb (fun c => forallb (fun x =>
            crcGenerator c x =? dallas_crc8_bitwise c x) (below 256)) (below 256)
          = true) by (vm_compute; reflexivity).
  pose proof (check_below _ 256 Hall crc Hcrc) as Hrow. cbv beta in Hrow.
  pose proof (check_below _ 256 Hrow b Hb) as Hcell. cbv beta in Hcell.
  apply Z.eqb_eq, Hcell.
Qed.

(** C7. For every byte [b] the table step [crcGenerator 0 b] is the
    bit-by-bit Dallas/Maxim CRC-8 of [b] from initial value 0, and the fold
    of [crcGenerator] that [addressValid] runs over a 7-byte payload is the
    bit-by-bit CRC-8 of that payload. *)
Theorem crc_table_agrees_with_bitwise (b : Z) (payload : list Z) :
  0 <= b < 256 ->
  length payload = 7%nat ->
  Forall (fun x => 0 <= x < 256) payload ->
  crcGenerator 0 b = dallas_crc8_bitwise 0 b /\
  addressValid_loop 7 0 payload 0 0 = fold_left dallas_crc8_bitwise payload 0.
Proof.
  intros Hb Hlen Hbytes. split.
  - apply crcGenerator_bitwise; lia.
  - destruct payload as [|b0 [|b1 [|b2 [|b3 [|b4 [|b5 [|b6 [|? ?]]]]]]]];
      try discriminate Hlen.
    repeat match goal with
           | Hf : Forall _ (_ :: _) |- _ => inversion Hf; subst; clear Hf
           end.
    cbn [addressValid_loop fold_left].
    change (load_byte [b0; b1; b2; b3; b4; b5; b6] 0) with b0.
    change (load_byte [b0; b1; b2; b3; b4; b5; b6] (0 + 1)) with b1.
    change (load_byte [b0; b1; b2; b3; b4; b5; b6] (0 + 1 + 1)) with b2.
    change (load_byte [b0; b1; b2; b3; b4; b5; b6] (0 + 1 + 1 + 1)) with b3.
    change (load_byte [b0; b1; b2; b3; b4; b5; b6] (0 + 1 + 1 + 1 + 1)) with b4.
    change (load_byte [b0; b1; b2; b3; b4; b5; b6] (0 + 1 + 1 + 1 + 1 + 1)) with b5.
    change (load_byte [b0; b1; b2; b3; b4; b5; b6] (0 + 1 + 1 + 1 + 1 + 1 + 1)) with b6.
    repeat rewrite crcGenerator_bitwise
      by first [assumption | lia | apply crcGenerator_range].
    reflexivity.
Qed.

Lemma crc_table_agrees_with_bitwise_witness :
  crcGenerator 0 0x28 = dallas_crc8_bitwise 0 0x28 /\
  addressValid_loop 7 0 [0x28; 0xFF; 0x64; 0x1E; 0x0F; 0x2A; 0x01] 0 0 =
  fold_left dallas_crc8_bitwise [0x28; 0xFF; 0x64; 0x1E; 0x0F; 0x2A; 0x01] 0.
Proof.
  apply (crc_table_agrees_with_bitwise 0x28 [0x28; 0xFF; 0x64; 0x1E; 0x0F; 0x2A; 0x01]).
  - lia.
  - reflexivity.
  - repeat constructor; lia.
Defined.

(** ** The monad *)

Lemma bind_unfold {W A B : Type} (c : M W A) (k : A -> M W B) (w : W) :
  bind c k w = k (fst (c w)) (snd (c w)).
Proof. unfold bind. destruct (c w); reflexivity. Qed.

(** ** The scripted line: writes and waits leave the samples alone *)







(** ** Temperature conversion *)








(** ** Packing the address into a 64-bit slot *)

Lemma int_high_bits (x k : Z) :
  INT_MIN <= x <= INT_MAX -> 32 <= k -> Z.testbit x k = (x <? 0).
Proof.
  intros Hx Hk. unfold INT_MIN, INT_MAX in Hx.
  change (2 ^ 31) with 2147483648 in Hx.
  assert (Hlog : Z.log2 (Z.abs x) < k).
  { destruct (Z.eq_dec x 0) as [->|Hne]; [cbn; lia|].
    apply Z.log2_lt_pow2; [lia|].
    assert (2 ^ 32 <= 2 ^ k) by (apply Z.pow_le_mono_r; lia).
    change (2 ^ 32) with 4294967296 in *. lia. }
  destruct (Z.ltb_spec x 0) as [Hneg|Hpos].
  - apply (Z.bits_iff_neg x k Hlog), Hneg.
  - destruct (Z.testbit x k) eqn:E; [|reflexivity].
    apply (Z.bits_iff_neg x k Hlog) in E. lia.
Qed.

Lemma uint64_int_high_bits (x k : Z) :
  INT_MIN <= x <= INT_MAX -> 32 <= k < 64 ->
  Z.testbit (uint64 x) k = (x <? 0).
Proof.
  intros Hx Hk. unfold uint64.
  rewrite Z.mod_pow2_bits_low by lia. apply int_high_bits; lia.
Qed.

Lemma pack_loop_high_bits (int_shl : Z -> Z -> Z) (address : list Z) (k : Z) :
  (forall a n, INT_MIN <= int_shl a n <= INT_MAX) -> 32 <= k < 64 ->
  forall (n : nat) (i slot : Z),
    Z.testbit (pack_ROM_code_loop int_shl n i address slot) k =
    Z.testbit slot k ||
    existsb (fun j => int_shl (load_byte address j) (8 * (7 - j)) <? 0) (upto n i).
Proof.
  intros Hint Hk. induction n as [|n IH]; intros i slot.
  - cbn [pack_ROM_code_loop upto existsb]. now rewrite orb_false_r.
  - cbn [pack_ROM_code_loop upto existsb]. rewrite IH, Z.lor_spec.
    rewrite uint64_int_high_bits by (auto; lia). now rewrite orb_assoc.
Qed.

(** Bits 32..63 of the packed slot are all equal: the slot is an int that
    was converted to uint64_t. *)
Lemma pack_ROM_code_high_bits (int_shl : Z -> Z -> Z) (address : list Z) (j k : Z) :
  (forall a n, INT_MIN <= int_shl a n <= INT_MAX) ->
  32 <= j < 64 -> 32 <= k < 64 ->
  Z.testbit (pack_ROM_code int_shl address) j =
  Z.testbit (pack_ROM_code int_shl address) k.
Proof.
  intros Hint Hj Hk. unfold pack_ROM_code.
  rewrite !pack_loop_high_bits by assumption.
  rewrite !Z.bits_0. reflexivity.
Qed.

Lemma msb_first_value_8 (a0 a1 a2 a3 a4 a5 a6 a7 : Z) :
  msb_first_value [a0; a1; a2; a3; a4; a5; a6; a7] =
  a0 * 2 ^ 56 +
  (a1 * 2 ^ 48 + a2 * 2 ^ 40 + a3 * 2 ^ 32 + a4 * 2 ^ 24 + a5 * 2 ^ 16 + a6 * 2 ^ 8 + a7).
Proof.
  unfold msb_first_value. cbn [map fold_right].
  change (load_byte [a0; a1; a2; a3; a4; a5; a6; a7] 0) with a0.
  change (load_byte [a0; a1; a2; a3; a4; a5; a6; a7] 1) with a1.
  change (load_byte [a0; a1; a2; a3; a4; a5; a6; a7] 2) with a2.
  change (load_byte [a0; a1; a2; a3; a4; a5; a6; a7] 3) with a3.
  change (load_byte [a0; a1; a2; a3; a4; a5; a6; a7] 4) with a4.
  change (load_byte [a0; a1; a2; a3; a4; a5; a6; a7] 5) with a5.
  change (load_byte [a0; a1; a2; a3; a4; a5; a6; a7] 6) with a6.
  change (load_byte [a0; a1; a2; a3; a4; a5; a6; a7] 7) with a7.
  change (8 * (7 - 0)) with 56. change (8 * (7 - 1)) with 48.
  change (8 * (7 - 2)) with 40. change (8 * (7 - 3)) with 32.
  change (8 * (7 - 4)) with 24. change (8 * (7 - 5)) with 16.
  change (8 * (7 - 6)) with 8. change (8 * (7 - 7)) with 0.
  change (2 ^ 0) with 1. ring.
Qed.

(** The packing expression taken alone. For an address buffer that starts
    with the DS18B20 family code 0x28, the value it computes is not the sum
    of [address[i] * 2^(8*(7-i))]: the shift is carried out at type int, so
    whatever int the target yields for it, bits 61 and 63 of the result are
    equal, while the family code needs bit 61 set and bit 63 clear. (No call
    of [DS18B20_Search] takes such a buffer to the expression: see
    [Search_loop_stores_entry_buffer].) *)
Lemma packing_expression_is_not_msb_first (int_shl : Z -> Z -> Z) (address : list Z) :
  int_platform int_shl ->
  length address = 8%nat ->
  Forall is_byte address ->
  load_byte address 0 = 0x28 ->
  pack_ROM_code int_shl address <> msb_first_value address.
Proof.
  intros [Hint _] Hlen Hbytes Hfam Heq.
  pose proof (pack_ROM_code_high_bits int_shl address 61 63 Hint
                ltac:(lia) ltac:(lia)) as Hbits.
  rewrite Heq in Hbits.
  destruct address as [|a0 [|a1 [|a2 [|a3 [|a4 [|a5 [|a6 [|a7 [|? ?]]]]]]]]];
    try discriminate Hlen.
  change (load_byte [a0; a1; a2; a3; a4; a5; a6; a7] 0) with a0 in Hfam. subst a0.
  repeat match goal with
         | Hf : Forall _ (_ :: _) |- _ => inversion Hf; subst; clear Hf
         end.
  unfold is_byte in *.
  rewrite msb_first_value_8 in Hbits.
  set (rest := a1 * 2 ^ 48 + a2 * 2 ^ 40 + a3 * 2 ^ 32 + a4 * 2 ^ 24 +
               a5 * 2 ^ 16 + a6 * 2 ^ 8 + a7) in Hbits.
  assert (Hrest : 0 <= rest < 2 ^ 56).
  { subst rest.
    change (2 ^ 56) with 72057594037927936. change (2 ^ 48) with 281474976710656.
    change (2 ^ 40) with 1099511627776. change (2 ^ 32) with 4294967296.
    change (2 ^ 24) with 16777216. change (2 ^ 16) with 65536.
    change (2 ^ 8) with 256. lia. }
  assert (Hdiv : (0x28 * 2 ^ 56 + rest) / 2 ^ 56 = 0x28).
  { rewrite Z.div_add_l by lia. rewrite (Z.div_small rest) by lia. lia. }
  change 61 with (5 + 56) in Hbits. change 63 with (7 + 56) in Hbits.
  rewrite <- !Z.div_pow2_bits in Hbits by lia.
  rewrite Hdiv in Hbits. discriminate Hbits.
Qed.

Lemma wrap_shl_platform : int_platform wrap_shl.
Proof.
  split.
  - intros a n. unfold wrap_shl, wrap_int, INT_MIN, INT_MAX.
    destruct ((0 <=? n) && (n <? 32)).
    + pose proof (Z.mod_pos_bound (a * 2 ^ n + 2 ^ 31) (2 ^ 32) ltac:(lia)).
      change (2 ^ 32) with (2 * 2 ^ 31) in *. lia.
    + change (2 ^ 31) with 2147483648. lia.
  - intros a n v. unfold c_int_shl, wrap_shl, wrap_int, INT_MAX.
    destruct ((0 <=? n) && (n <? 32)); cbn [andb]; [|discriminate].
    destruct (0 <=? a) eqn:Ha; cbn [andb]; [|discriminate].
    destruct (a * 2 ^ n <=? 2 ^ 31 - 1) eqn:Hfit; [|discriminate].
    intros Hv. injection Hv as <-.
    apply Z.leb_le in Ha, Hfit.
    assert (0 <= a * 2 ^ n) by (apply Z.mul_nonneg_nonneg; [lia | apply Z.pow_nonneg; lia]).
    change (2 ^ 32) with (2 * 2 ^ 31). change (2 ^ 31) with 2147483648 in *.
    rewrite Z.mod_small by lia. lia.
Qed.

(** ** The search cycle on any bus *)

Section AnyBus.

Context {W : Type} {hal : HAL W}.

Lemma searchNext_returns_0 (state : onewire_search_state_t) (w : W) :
  fst (fst (searchNext state w)) = 0.
Proof.
  unfold searchNext. rewrite bind_unfold.
  destruct (fst (searchNext_loop 64 0 (-1) state w)) as [[completed l] st].
  destruct completed; [destruct (l =? -1)|]; reflexivity.
Qed.

Lemma searchDevices_done (command : Z) (state : onewire_search_state_t) (w : W) :
  done state = true -> searchDevices command state w = (1, state, w).
Proof. intros Hd. unfold searchDevices. now rewrite Hd. Qed.

Lemma searchDevices_no_presence (command : Z) (state : onewire_search_state_t) (w : W) :
  done state = false -> fst (DS18B20_Start w) = 0 ->
  searchDevices command state w = (1, state, snd (DS18B20_Start w)).
Proof.
  intros Hd Hp. unfold searchDevices. rewrite Hd, bind_unfold, Hp. reflexivity.
Qed.

Lemma searchDevices_presence (command : Z) (state : onewire_search_state_t) (w : W) :
  done state = false -> fst (DS18B20_Start w) <> 0 ->
  fst (fst (searchDevices command state w)) = 0.
Proof.
  intros Hd Hp. unfold searchDevices. rewrite Hd, bind_unfold.
  apply Z.eqb_neq in Hp. rewrite Hp, bind_unfold. apply searchNext_returns_0.
Qed.

(** A bit that is left through the [default:] branch changes nothing, and a
    bit that is handled only touches the address buffer. *)
Lemma searchNext_bit_keeps (p l : Z) (state : onewire_search_state_t) (w : W) :
  match fst (searchNext_bit p l state w) with
  | None => True
  | Some (_, _, state') =>
      last_zero_branch state' = last_zero_branch state /\
      done state' = done state
  end.
Proof.
  unfold searchNext_bit. rewrite !bind_unfold.
  destruct (switch_reading _ p state l) as [[v l']|]; [|exact I].
  rewrite bind_unfold. cbn. split; reflexivity.
Qed.

Lemma searchNext_loop_keeps (n : nat) (p l : Z) (state : onewire_search_state_t) (w : W) :
  let state' := snd (fst (searchNext_loop n p l state w)) in
  last_zero_branch state' = last_zero_branch state /\ done state' = done state.
Proof.
  revert p l state w. induction n as [|n IH]; intros p l state w.
  - cbn. split; reflexivity.
  - cbn [searchNext_loop]. rewrite bind_unfold.
    pose proof (searchNext_bit_keeps p l state w) as Hbit.
    destruct (fst (searchNext_bit p l state w)) as [[[v l'] st']|].
    + destruct Hbit as [Hb Hd]. cbv zeta in IH |- *.
      specialize (IH (p + 1) l' st' (snd (searchNext_bit p l state w))).
      rewrite <- Hb, <- Hd. exact IH.
    + cbn. split; reflexivity.
Qed.

End AnyBus.

(** ** [DS18B20_Search] on any bus *)

Lemma uint8_idem (x : Z) : uint8 (uint8 x) = uint8 x.
Proof. unfold uint8. apply Z.mod_mod. lia. Qed.

Lemma uint8_succ (a b : Z) : uint8 a = uint8 b -> uint8 (a + 1) = uint8 (b + 1).
Proof.
  unfold uint8. intros Hab.
  rewrite (Z.add_mod a 1), (Z.add_mod b 1) by lia. now rewrite Hab.
Qed.

Lemma map_uint8_upto (n : nat) (a b : Z) :
  uint8 a = uint8 b -> map uint8 (upto n a) = map uint8 (upto n b).
Proof.
  revert a b. induction n as [|n IH]; intros a b Hab; [reflexivity|].
  cbn [upto map]. rewrite Hab. f_equal. apply IH, uint8_succ, Hab.
Qed.

Section SearchAnyBus.

Context {W : Type} {hal : HAL W}.
Variable int_shl : Z -> Z -> Z.

(** The loop only ever returns 0, and it stores into consecutive slots
    (modulo 256, [index] being a uint8_t). *)
Lemma Search_loop_shape (fuel : nat) :
  forall (index count : Z) (state : onewire_search_state_t)
         (stores : list (Z * Z)) (w : W),
    0 <= index < 256 ->
    exists out added state' w',
      DS18B20_Search_loop int_shl fuel index count state stores w =
        (out, stores ++ added, state', w') /\
      (out = OutOfFuel \/ out = Returned 0) /\
      map fst added = map uint8 (upto (length added) index).
Proof.
  induction fuel as [|fuel IH]; intros index count state stores w Hindex.
  - exists OutOfFuel, [], state, w. cbn. rewrite app_nil_r. auto.
  - cbn [DS18B20_Search_loop]. rewrite bind_unfold.
    destruct (fst (searchDevices SEARCH_ROM state w)) as [result state1].
    destruct (result =? 0).
    + exists (Returned 0), [], state1, (snd (searchDevices SEARCH_ROM state w)).
      cbn. rewrite app_nil_r. auto.
    + destruct (IH (uint8 (index + 1)) (uint8 (count + 1)) state1
                  (stores ++ [(index, pack_ROM_code int_shl (address state1))])
                  (snd (searchDevices SEARCH_ROM state w)) (uint8_range _))
        as (out & added & state' & w' & Heq & Hout & Hidx).
      exists out, ((index, pack_ROM_code int_shl (address state1)) :: added), state', w'.
      rewrite Heq, <- app_assoc. split; [reflexivity|]. split; [exact Hout|].
      cbn [map fst length upto]. rewrite uint8_small by exact Hindex. f_equal.
      rewrite Hidx. apply map_uint8_upto, uint8_idem.
Qed.

(** When the first reset sees a presence pulse the loop is left at once. *)
Lemma Search_presence (fuel : nat) (w : W) :
  fst (DS18B20_Start w) <> 0 ->
  exists state' w',
    DS18B20_Search int_shl (S fuel) w = (Returned 0, [], state', w').
Proof.
  intros Hp. unfold DS18B20_Search. cbn [DS18B20_Search_loop].
  rewrite bind_unfold.
  pose proof (searchDevices_presence SEARCH_ROM onewireSearchInit w eq_refl Hp) as Hr.
  destruct (fst (searchDevices SEARCH_ROM onewireSearchInit w)) as [result state1].
  cbn [fst] in Hr. subst result. do 2 eexists. reflexivity.
Qed.

End SearchAnyBus.

(** The pin activity of [DS18B20_Start], recorded. *)
Lemma logged_Start {W : Type} {hal : HAL W} (w : W) (log : list Event) :
  exists s,
    DS18B20_Start ((w, log) : W * list Event) =
      (fst (DS18B20_Start w), (snd (DS18B20_Start w), log ++ reset_events s)) /\
    fst (DS18B20_Start w) =
      match s with GPIO_PIN_RESET => 1 | GPIO_PIN_SET => 0 end.
Proof.
  unfold DS18B20_Start, bind, WritePin, DS18B20_delay, act, ret. cbn.
  unfold Logged.read_pin, Logged.wait, Logged.write_pin. cbn.
  destruct (HAL_GPIO_ReadPin _) as [s w1]. exists s. cbn.
  rewrite <- !app_assoc. cbn. split; reflexivity.
Qed.

Lemma logged_no_presence {W : Type} {hal : HAL W} (w : W) (log : list Event) :
  fst (DS18B20_Start w) = 0 ->
  DS18B20_Start ((w, log) : W * list Event) =
    (0, (snd (DS18B20_Start w), log ++ reset_events GPIO_PIN_SET)).
Proof.
  intros Hp. destruct (logged_Start w log) as (s & Heq & Hs).
  rewrite Heq, Hp. rewrite Hp in Hs. destruct s; [discriminate|reflexivity].
Qed.

(** On a bus that never answers the reset, every call of [searchDevices]
    returns 1, so the loop body runs again and again; the pin only sees
    reset pulses. *)
Lemma Search_loop_no_presence {W : Type} {hal : HAL W} (Inv : W -> Prop)
    (int_shl : Z -> Z -> Z) :
  (forall w, Inv w -> fst (DS18B20_Start w) = 0 /\ Inv (snd (DS18B20_Start w))) ->
  forall (fuel : nat) (index count : Z) (state : onewire_search_state_t)
         (stores : list (Z * Z)) (w : W) (log : list Event),
    Inv w -> done state = false ->
    exists added w',
      DS18B20_Search_loop int_shl fuel index count state stores
          ((w, log) : W * list Event) =
        (OutOfFuel, stores ++ added, state,
         (w', log ++ concat (repeat (reset_events GPIO_PIN_SET) fuel))) /\
      length added = fuel.
Proof.
  intros Hinv. induction fuel as [|fuel IH];
    intros index count state stores w log Hw Hd.
  - exists [], w. cbn. rewrite !app_nil_r. auto.
  - cbn [DS18B20_Search_loop]. rewrite bind_unfold.
    destruct (Hinv w Hw) as [Hp Hw1].
    pose proof (logged_no_presence w log Hp) as Hstart.
    rewrite (searchDevices_no_presence SEARCH_ROM state (w, log) Hd)
      by (rewrite Hstart; reflexivity).
    rewrite Hstart. cbn [fst snd].
    change (1 =? 0) with false. cbv iota.
    destruct (IH (uint8 (index + 1)) (uint8 (count + 1)) state
                (stores ++ [(index, pack_ROM_code int_shl (address state))])
                (snd (DS18B20_Start w)) (log ++ reset_events GPIO_PIN_SET) Hw1 Hd)
      as (added & w' & Heq & Hlen).
    exists ((index, pack_ROM_code int_shl (address state)) :: added), w'.
    rewrite Heq, <- !app_assoc. split; [reflexivity|]. cbn; lia.
Qed.

(** C3 fails on the code. On every bus whose reset never detects a presence
    pulse, [DS18B20_Search] does not return: whatever the fuel, the loop is
    still running, it has stored one slot per iteration, and the pin has seen
    nothing but reset pulses (so SEARCH_ROM was never written). *)
Theorem Search_without_presence_never_returns
    {W : Type} {hal : HAL W} (Inv : W -> Prop) (int_shl : Z -> Z -> Z)
    (fuel : nat) (w : W) :
  (forall w, Inv w -> fst (DS18B20_Start w) = 0 /\ Inv (snd (DS18B20_Start w))) ->
  Inv w ->
  exists stores state w',
    DS18B20_Search int_shl fuel ((w, []) : W * list Event) =
      (OutOfFuel, stores, state,
       (w', concat (repeat (reset_events GPIO_PIN_SET) fuel))) /\
    length stores = fuel.
Proof.
  intros Hinv Hw. unfold DS18B20_Search.
  destruct (Search_loop_no_presence Inv int_shl Hinv fuel 0 0 onewireSearchInit
              [] w [] Hw eq_refl) as (added & w' & Heq & Hlen).
  exists added, onewireSearchInit, w'. split; [exact Heq | exact Hlen].
Qed.

Lemma Search_without_presence_never_returns_witness :
  exists stores state w',
    DS18B20_Search wrap_shl 3 ((([] : ScriptBus.t), []) : ScriptBus.t * list Event) =
      (OutOfFuel, stores, state,
       (w', concat (repeat (reset_events GPIO_PIN_SET) 3))) /\
    length stores = 3%nat.
Proof.
  apply (Search_without_presence_never_returns
           (fun w : ScriptBus.t => w = []) wrap_shl 3 []).
  - intros w Hw. rewrite Hw. split; reflexivity.
  - reflexivity.
Defined.

(** C4, as the code has it. Whenever [DS18B20_Search] returns, it returns
    the status 0, not a device count; and the slots it stores into are
    consecutive, starting at index 0 (modulo 256, the index being a
    uint8_t). *)
Theorem Search_returns_status_and_fills_consecutive_slots
    {W : Type} {hal : HAL W} (int_shl : Z -> Z -> Z) (fuel : nat) (w : W) :
  let '(out, stores, _) := fst (DS18B20_Search int_shl fuel w) in
  (forall v, out = Returned v -> v = 0) /\
  map fst stores = map uint8 (below (length stores)).
Proof.
  unfold DS18B20_Search.
  destruct (Search_loop_shape int_shl fuel 0 0 onewireSearchInit [] w ltac:(lia))
    as (out & added & state' & w' & Heq & Hout & Hidx).
  rewrite Heq. cbn [fst app]. split; [|exact Hidx].
  intros v Hv. destruct Hout as [->| ->]; [discriminate|]. now injection Hv as <-.
Qed.

(** C4 as stated fails on a bus with the single device [rom_02]: the search
    cycle discovers it (the state holds its address), but the function
    returns 0 and stores nothing. *)
Lemma Search_count_counterexample :
  let '(out, stores, state) :=
    fst (DS18B20_Search wrap_shl 4 (SimBus.bus [address_value rom_02])) in
  address state = rom_02 /\
  out = Returned 0 /\
  stores = [] /\
  ~ (out = Returned 1 /\ map fst stores = [0]).
Proof.
  vm_compute. repeat split. intros [Hout _]. discriminate Hout.
Qed.

(** ** Bus faults *)

(** C5 fails on the code. After a first complete cycle on a two-device bus
    (state [st1]), a second cycle is run on a line that answers the reset
    and then floats high.  Its first bit reads "11" and the loop is left
    through the [default:] branch at position 0; yet [searchDevices] returns
    0 with the state untouched, exactly the value and state that the
    complete cycle returned. On every bus [searchNext] returns 0 whether the
    loop ran to its end or not. *)
Theorem bus_fault_is_returned_as_success :
  let healthy := SimBus.bus [address_value rom_01; address_value rom_02] in
  let ok := fst (searchDevices SEARCH_ROM onewireSearchInit healthy) in
  let st1 := snd ok in
  let floating : ScriptBus.t := [GPIO_PIN_RESET; GPIO_PIN_SET; GPIO_PIN_SET] in
  fst (searchNext_bit 0 (-1) st1 ([GPIO_PIN_SET; GPIO_PIN_SET] : ScriptBus.t)) = None /\
  fst (fst (fst (searchNext_loop 64 0 (-1) st1
                   ([GPIO_PIN_SET; GPIO_PIN_SET] : ScriptBus.t)))) = false /\
  address st1 = rom_02 /\ done st1 = false /\
  fst (searchDevices SEARCH_ROM st1 floating) = (0, st1) /\
  fst (searchDevices SEARCH_ROM st1 floating) = ok /\
  (forall (W : Type) (hal : HAL W) (state : onewire_search_state_t) (w : W),
     fst (fst (searchNext state w)) = 0).
Proof.
  cbv zeta.
  do 6 (split; [vm_compute; reflexivity|]).
  intros W hal state w. apply searchNext_returns_0.
Qed.


Section GetTempAnyBus.

Context {W : Type} {hal : HAL W}.

(** One turn of the [while] loop of [DS18B20_GetTemp] on a non-zero code:
    whatever the bus answers, an entry is stored at [count]. *)
Lemma GetTemp_loop_step (fuel : nat) (count code : Z) (ROM_codes_array : list Z)
    (temperature : list (Z * Z)) (w : W) :
  nth_error ROM_codes_array (Z.to_nat count) = Some code -> code <> 0 ->
  exists T w',
    DS18B20_GetTemp_loop (S fuel) count ROM_codes_array temperature w =
    DS18B20_GetTemp_loop fuel (uint8 (count + 1)) ROM_codes_array
      (temperature ++ [(count, T)]) w'.
Proof.
  intros Hnth Hcode. cbn [DS18B20_GetTemp_loop]. rewrite Hnth.
  apply Z.eqb_neq in Hcode. rewrite Hcode.
  repeat rewrite bind_unfold. eauto.
Qed.


End GetTempAnyBus.



(** ** Replaying the previous path *)

(** C2 fails on the code. Four devices; after two cycles the state holds
    [rom_02] with [last_zero_branch = 11], and bit 10 of the buffer is 0 (a
    0 chosen at a conflict). In the third cycle the replay at position 9
    computes [bitValue = address[1] & (1 << 1) = 2] and the store
    [address[1] |= 2 << 1] sets bit 10 of the buffer. Position 10 then reads
    a conflict, lies before the branch point, and is given the value 4 (a 1
    on the bus) although the previous cycle chose 0 there. The cycle ends on
    [rom_06] with [done] set, and [rom_0A] is never found. *)
Theorem replay_before_branch_point_diverges :
  let bus := SimBus.bus (map address_value [rom_00; rom_02; rom_0A; rom_06]) in
  let '(found2, st2, w2) := search_cycles 2 onewireSearchInit bus in
  let w3 := snd ((DS18B20_Start ;; DS18B20_writeData SEARCH_ROM) w2) in
  let '(_, l10, s10, w10) := searchNext_loop 10 0 (-1) st2 w3 in
  let '(found, st, _) := search_cycles 6 onewireSearchInit bus in
  found2 = map address_value [rom_00; rom_02] /\
  address st2 = rom_02 /\
  last_zero_branch st2 = 11 /\
  addr_bit (address st2) 10 = false /\
  addr_bit (address s10) 10 = true /\
  fst ((r1 <- DS18B20_read ;; r2 <- DS18B20_read ;; ret (r1, r2)) w10) = (0, 0) /\
  (exists l s, fst (searchNext_bit 10 l10 s10 w10) = Some (4, l, s)) /\
  found = map address_value [rom_00; rom_02; rom_06] /\
  done st = true /\
  ~ In (address_value rom_0A) found.
Proof.
  vm_compute. repeat split; eauto.
  intros [H|[H|[H|[]]]]; discriminate H.
Qed.

(** ** The simulated bus, slot by slot *)

Lemma sim_Start (w : SimBus.t) (roms : list Z) (ph : SimBus.Phase) :
  quiet w roms ph -> roms <> [] ->
  exists w', DS18B20_Start w = (1, w') /\ quiet w' roms (SimBus.Command 0 0).
Proof.
  destruct w as [rs p ml lu hu pl]. unfold quiet. cbn [SimBus.roms SimBus.master_low SimBus.phase].
  intros (-> & -> & ->) Hne. destruct roms as [|r roms]; [congruence|].
  eexists. split; [vm_compute; reflexivity|]. cbn. auto.
Qed.

Lemma sim_read_bit (w : SimBus.t) (roms : list Z) (p : Z) (alive : list Z) :
  quiet w roms (SimBus.SearchBit p alive) ->
  exists w',
    DS18B20_read w = ((if SimBus.sends false p alive then 0 else 1), w') /\
    quiet w' roms (SimBus.SearchCmp p alive).
Proof.
  destruct w as [rs ph ml lu hu pl]. unfold quiet. cbn [SimBus.roms SimBus.master_low SimBus.phase].
  intros (-> & -> & ->).
  unfold DS18B20_read, bind, WritePin, DS18B20_delay, act, ret. cbn.
  destruct (SimBus.sends false p alive); cbn; eexists; split; try reflexivity; cbn; auto.
Qed.

Lemma sim_read_cmp (w : SimBus.t) (roms : list Z) (p : Z) (alive : list Z) :
  quiet w roms (SimBus.SearchCmp p alive) ->
  exists w',
    DS18B20_read w = ((if SimBus.sends true p alive then 0 else 1), w') /\
    quiet w' roms (SimBus.SearchSel p alive).
Proof.
  destruct w as [rs ph ml lu hu pl]. unfold quiet. cbn [SimBus.roms SimBus.master_low SimBus.phase].
  intros (-> & -> & ->).
  unfold DS18B20_read, bind, WritePin, DS18B20_delay, act, ret. cbn.
  destruct (SimBus.sends true p alive); cbn; eexists; split; try reflexivity; cbn; auto.
Qed.

Lemma sim_write_sel (w : SimBus.t) (roms : list Z) (p : Z) (alive : list Z) (b : bool) :
  quiet w roms (SimBus.SearchSel p alive) ->
  exists w',
    (if b then DS18B20_write1 else DS18B20_write0) w = (0, w') /\
    quiet w' roms
      (if p =? 63 then SimBus.Idle
       else SimBus.SearchBit (p + 1) (SimBus.select b p alive)).
Proof.
  destruct w as [rs ph ml lu hu pl]. unfold quiet. cbn [SimBus.roms SimBus.master_low SimBus.phase].
  intros (-> & -> & ->).
  destruct b; unfold DS18B20_write1, DS18B20_write0, bind, WritePin, DS18B20_delay, act, ret; cbn;
    eexists; (split; [reflexivity|]); cbn; auto.
Qed.

Lemma sim_search_command (w : SimBus.t) (roms : list Z) :
  quiet w roms (SimBus.Command 0 0) ->
  exists w',
    DS18B20_writeData SEARCH_ROM w = (0, w') /\
    quiet w' roms (SimBus.SearchBit 0 roms).
Proof.
  destruct w as [rs ph ml lu hu pl]. unfold quiet. cbn [SimBus.roms SimBus.master_low SimBus.phase].
  intros (-> & -> & ->).
  eexists. split; [vm_compute; reflexivity|]. cbn. auto.
Qed.

(** ** Bits of the address buffer *)

Lemma check_below3 (P : Z -> Z -> Z -> bool) (n1 n2 n3 : nat) :
  forallb (fun a => forallb (fun b => forallb (P a b) (below n3)) (below n2))
    (below n1) = true ->
  forall a b k, 0 <= a < Z.of_nat n1 -> 0 <= b < Z.of_nat n2 ->
                0 <= k < Z.of_nat n3 -> P a b k = true.
Proof.
  intros Hall a b k Ha Hb Hk.
  pose proof (check_below _ n1 Hall a Ha) as H1. cbv beta in H1.
  pose proof (check_below _ n2 H1 b Hb) as H2. cbv beta in H2.
  exact (check_below _ n3 H2 k Hk).
Qed.

Lemma clear_bit_spec (a b k : Z) :
  is_byte a -> 0 <= b < 8 -> 0 <= k < 8 ->
  Z.testbit (uint8 (Z.land a (Z.lnot (Z.shiftl 1 b)))) k =
  (if k =? b then false else Z.testbit a k).
Proof.
  intros Ha Hb Hk.
  pose proof (check_below3 clear_check 256 8 8 ltac:(vm_compute; reflexivity)
                a b k Ha Hb Hk) as Hc.
  apply eqb_prop, Hc.
Qed.

Lemma set_bit_spec (a b k : Z) :
  is_byte a -> 0 <= b < 8 -> 0 <= k < 8 ->
  Z.testbit (uint8 (Z.lor a (Z.shiftl 1 b))) k =
  (if k =? b then true else Z.testbit a k).
Proof.
  intros Ha Hb Hk.
  pose proof (check_below3 set_check 256 8 8 ltac:(vm_compute; reflexivity)
                a b k Ha Hb Hk) as Hc.
  apply eqb_prop, Hc.
Qed.

Lemma replay_bit_spec (a b k : Z) :
  is_byte a -> 0 <= b < 8 -> 0 <= k < 8 ->
  let v := uint8 (Z.land a (Z.shiftl 1 b)) in
  (v =? 0) = negb (Z.testbit a b) /\
  Z.testbit (uint8 (Z.lor a (Z.shiftl v b))) k =
  (Z.testbit a k || (negb (v =? 0) && (k =? 2 * b))).
Proof.
  intros Ha Hb Hk.
  pose proof (check_below3 replay_check 256 8 8 ltac:(vm_compute; reflexivity)
                a b k Ha Hb Hk) as Hc.
  unfold replay_check in Hc. apply andb_true_iff in Hc. destruct Hc as [H1 H2].
  split; apply eqb_prop; assumption.
Qed.

Lemma load_store_byte (a : list Z) (i : nat) (v : Z) (k : nat) :
  (i < length a)%nat ->
  nth k (store_byte a i v) 0 = if (k =? i)%nat then v else nth k a 0.
Proof.
  revert i k. induction a as [|h t IH]; intros i k Hi; [cbn in Hi; lia|].
  destruct i as [|i]; destruct k as [|k]; cbn; try reflexivity.
  apply IH. cbn in Hi. lia.
Qed.

Lemma store_byte_length (a : list Z) (i : nat) (v : Z) :
  length (store_byte a i v) = length a.
Proof.
  revert i. induction a as [|h t IH]; intros [|i]; cbn; try reflexivity.
  now rewrite IH.
Qed.

Lemma store_byte_bytes (a : list Z) (i : nat) (v : Z) :
  is_byte v -> Forall is_byte a -> Forall is_byte (store_byte a i v).
Proof.
  intros Hv Ha. revert i. induction Ha as [|h t Hh Ht IH]; intros [|i]; cbn;
    constructor; auto.
Qed.

Lemma load_byte_is_byte (a : list Z) (i : Z) :
  Forall is_byte a -> is_byte (load_byte a i).
Proof.
  intros Ha. unfold load_byte.
  destruct (nth_in_or_default (Z.to_nat i) a 0) as [Hin| ->].
  - rewrite Forall_forall in Ha. apply Ha, Hin.
  - unfold is_byte. lia.
Qed.

Lemma addr_bit_write (cur : list Z) (p v j : Z) :
  bytes8 cur -> 0 <= p < 64 -> 0 <= j < 64 ->
  addr_bit (address_write_bit cur (p / 8) (p mod 8) v) j =
  if j / 8 =? p / 8 then
    Z.testbit
      (if v =? 0
       then uint8 (Z.land (load_byte cur (p / 8)) (Z.lnot (Z.shiftl 1 (p mod 8))))
       else uint8 (Z.lor (load_byte cur (p / 8)) (Z.shiftl v (p mod 8))))
      (j mod 8)
  else addr_bit cur j.
Proof.
  intros [Hlen _] Hp Hj.
  assert (Hi : (Z.to_nat (p / 8) < length cur)%nat).
  { rewrite Hlen. Z.div_mod_to_equations. lia. }
  unfold addr_bit, address_write_bit, load_byte.
  destruct (v =? 0); rewrite load_store_byte by exact Hi;
    (destruct (Z.eqb_spec (j / 8) (p / 8)) as [Heq|Hne];
     [ rewrite Heq, Nat.eqb_refl; reflexivity
     | destruct (Nat.eqb_spec (Z.to_nat (j / 8)) (Z.to_nat (p / 8))) as [Habs|_];
       [ exfalso; apply Hne; Z.div_mod_to_equations; lia | reflexivity ] ]).
Qed.

Lemma write_bit_bytes8 (cur : list Z) (p v : Z) :
  bytes8 cur -> bytes8 (address_write_bit cur (p / 8) (p mod 8) v).
Proof.
  intros [Hlen Hb]. unfold address_write_bit.
  destruct (v =? 0); (split; [rewrite store_byte_length; exact Hlen|]);
    apply store_byte_bytes; try exact Hb; apply uint8_range.
Qed.

Lemma same_position (p j : Z) :
  (j / 8 = p / 8 /\ j mod 8 = p mod 8) <-> j = p.
Proof. split; [intros [H1 H2]|intros ->; auto]. Z.div_mod_to_equations. lia. Qed.

(** Writing a 0: only bit [p] changes, to 0. *)
Lemma write_zero_bits (cur : list Z) (p j : Z) :
  bytes8 cur -> 0 <= p < 64 -> 0 <= j < 64 ->
  addr_bit (address_write_bit cur (p / 8) (p mod 8) 0) j =
  if j =? p then false else addr_bit cur j.
Proof.
  intros Hcur Hp Hj. rewrite addr_bit_write by assumption.
  change (0 =? 0) with true. cbv iota.
  destruct (Z.eqb_spec (j / 8) (p / 8)) as [Hbyte|Hbyte].
  - rewrite clear_bit_spec
      by (try apply load_byte_is_byte; try apply Hcur; Z.div_mod_to_equations; lia).
    destruct (Z.eqb_spec (j mod 8) (p mod 8)) as [Hbit|Hbit];
      destruct (Z.eqb_spec j p) as [Hjp|Hjp]; try reflexivity.
    + exfalso. apply Hjp, same_position. auto.
    + subst j. congruence.
    + unfold addr_bit. now rewrite Hbyte.
  - destruct (Z.eqb_spec j p) as [->|_]; [congruence|reflexivity].
Qed.

(** Writing a 1: only bit [p] changes, to 1. *)
Lemma write_one_bits (cur : list Z) (p j : Z) :
  bytes8 cur -> 0 <= p < 64 -> 0 <= j < 64 ->
  addr_bit (address_write_bit cur (p / 8) (p mod 8) 1) j =
  if j =? p then true else addr_bit cur j.
Proof.
  intros Hcur Hp Hj. rewrite addr_bit_write by assumption.
  change (1 =? 0) with false. cbv iota.
  destruct (Z.eqb_spec (j / 8) (p / 8)) as [Hbyte|Hbyte].
  - rewrite set_bit_spec
      by (try apply load_byte_is_byte; try apply Hcur; Z.div_mod_to_equations; lia).
    destruct (Z.eqb_spec (j mod 8) (p mod 8)) as [Hbit|Hbit];
      destruct (Z.eqb_spec j p) as [Hjp|Hjp]; try reflexivity.
    + exfalso. apply Hjp, same_position. auto.
    + subst j. congruence.
    + unfold addr_bit. now rewrite Hbyte.
  - destruct (Z.eqb_spec j p) as [->|_]; [congruence|reflexivity].
Qed.

(** Writing the mask [address[byteIndex] & (1 << bitIndex)] when it is not
    zero: bit [p] was 1 and stays 1, bits below [p] are unchanged, and no
    bit is cleared (bit [2 * bitIndex] of the byte is set). *)
Lemma write_mask_bits (cur : list Z) (p j : Z) :
  bytes8 cur -> 0 <= p < 64 -> 0 <= j < 64 ->
  let v := uint8 (Z.land (load_byte cur (p / 8)) (Z.shiftl 1 (p mod 8))) in
  (v =? 0) = negb (addr_bit cur p) /\
  (v <> 0 ->
   addr_bit (address_write_bit cur (p / 8) (p mod 8) v) j =
   (addr_bit cur j || ((j / 8 =? p / 8) && (j mod 8 =? 2 * (p mod 8))))).
Proof.
  intros Hcur Hp Hj v.
  assert (Hold : is_byte (load_byte cur (p / 8))) by (apply load_byte_is_byte, Hcur).
  assert (Hb : 0 <= p mod 8 < 8) by (Z.div_mod_to_equations; lia).
  assert (Hk : 0 <= j mod 8 < 8) by (Z.div_mod_to_equations; lia).
  destruct (replay_bit_spec _ _ _ Hold Hb Hk) as [Hv Hbit].
  fold v in Hv, Hbit. split; [exact Hv|].
  intros Hnz. rewrite addr_bit_write by assumption.
  apply Z.eqb_neq in Hnz. rewrite Hnz in *. cbn [negb andb] in Hbit.
  destruct (Z.eqb_spec (j / 8) (p / 8)) as [Hbyte|Hbyte].
  - rewrite Hbit. unfold addr_bit. rewrite Hbyte. reflexivity.
  - cbn [andb]. now rewrite orb_false_r.
Qed.

Lemma bit_written_nonzero (cur : list Z) (p v : Z) (c : bool) :
  bit_written cur p v c -> negb (v =? 0) = c.
Proof.
  intros [[-> ->]|[[-> ->]|(_ & Hnz & -> & _)]]; try reflexivity.
  apply Z.eqb_neq in Hnz. now rewrite Hnz.
Qed.

Lemma update_facts (cur : list Z) (p v : Z) (c : bool) :
  bytes8 cur -> 0 <= p < 64 -> bit_written cur p v c ->
  let cur' := address_write_bit cur (p / 8) (p mod 8) v in
  bytes8 cur' /\
  (forall j, 0 <= j < p -> addr_bit cur' j = addr_bit cur j) /\
  addr_bit cur' p = c /\
  (forall j, p < j < 64 -> addr_bit cur j = true -> addr_bit cur' j = true).
Proof.
  intros Hcur Hp Hw cur'. split; [apply write_bit_bytes8, Hcur|].
  destruct Hw as [[-> ->]|[[-> ->]|(Hv & Hnz & -> & Hbit)]]; subst cur'.
  - repeat split.
    + intros j Hj. rewrite write_zero_bits by (assumption || lia).
      destruct (Z.eqb_spec j p); [lia|reflexivity].
    + rewrite write_zero_bits by (assumption || lia). now rewrite Z.eqb_refl.
    + intros j Hj Hset. rewrite write_zero_bits by (assumption || lia).
      destruct (Z.eqb_spec j p); [lia|exact Hset].
  - repeat split.
    + intros j Hj. rewrite write_one_bits by (assumption || lia).
      destruct (Z.eqb_spec j p); [lia|reflexivity].
    + rewrite write_one_bits by (assumption || lia). now rewrite Z.eqb_refl.
    + intros j Hj Hset. rewrite write_one_bits by (assumption || lia).
      destruct (Z.eqb_spec j p); [lia|exact Hset].
  - unfold replay_mask in Hv. subst v. repeat split.
    + intros j Hj.
      destruct (write_mask_bits cur p j Hcur Hp ltac:(lia)) as [_ Hm].
      rewrite (Hm Hnz).
      destruct (Z.eqb_spec (j / 8) (p / 8)) as [Hbyte|_];
        [|cbn [andb]; now rewrite orb_false_r].
      destruct (Z.eqb_spec (j mod 8) (2 * (p mod 8))) as [Hk|_];
        [|cbn [andb]; now rewrite orb_false_r].
      exfalso. Z.div_mod_to_equations. lia.
    + destruct (write_mask_bits cur p p Hcur Hp Hp) as [_ Hm].
      rewrite (Hm Hnz), Hbit. reflexivity.
    + intros j Hj Hset.
      destruct (write_mask_bits cur p j Hcur Hp ltac:(lia)) as [_ Hm].
      rewrite (Hm Hnz), Hset. reflexivity.
Qed.

Lemma sends_spec (b : bool) (p : Z) (alive : list Z) :
  SimBus.sends b p alive = true <-> exists r, In r alive /\ Z.testbit r p = b.
Proof.
  unfold SimBus.sends. rewrite existsb_exists.
  split; intros (r & Hin & Hb); exists r; split; auto; apply eqb_true_iff; auto.
Qed.

Lemma sends_none (b : bool) (p : Z) (alive : list Z) :
  SimBus.sends b p alive = false -> forall r, In r alive -> Z.testbit r p = negb b.
Proof.
  intros Hs r Hin. destruct (Bool.eqb (Z.testbit r p) b) eqn:E.
  - apply eqb_prop in E. assert (SimBus.sends b p alive = true) as Habs
      by (apply sends_spec; eauto). congruence.
  - destruct (Z.testbit r p), b; cbn in *; congruence.
Qed.

Lemma select_spec (b : bool) (p : Z) (alive : list Z) (r : Z) :
  In r (SimBus.select b p alive) <-> In r alive /\ Z.testbit r p = b.
Proof.
  unfold SimBus.select. rewrite filter_In, eqb_true_iff. reflexivity.
Qed.

(** One bit of the search on the simulated bus. *)
Lemma sim_step (roms : list Z) (state : onewire_search_state_t)
    (w : SimBus.t) (p local : Z) (alive : list Z) :
  quiet w roms (SimBus.SearchBit p alive) ->
  0 <= p < 64 ->
  bytes8 (address state) ->
  (exists r, In r alive) ->
  exists v local' w' c,
    searchNext_bit p local state w =
      (Some (v, local',
             set_address state
               (address_write_bit (address state) (p / 8) (p mod 8) v)), w') /\
    quiet w' roms
      (if p =? 63 then SimBus.Idle
       else SimBus.SearchBit (p + 1) (SimBus.select c p alive)) /\
    bit_written (address state) p v c /\
    (exists r, In r alive /\ Z.testbit r p = c) /\
    (((forall r, In r alive -> Z.testbit r p = c) /\ local' = local) \/
     ((exists r, In r alive /\ Z.testbit r p = false) /\
      (exists r, In r alive /\ Z.testbit r p = true) /\
      local' = (if c then local else p) /\
      ((p = last_zero_branch state /\ c = true) \/
       (p < last_zero_branch state /\ c = addr_bit (address state) p) \/
       (last_zero_branch state < p /\ c = false)))).
Proof.
  intros Hq Hp Hcur [r0 Hr0].
  unfold searchNext_bit. rewrite bind_unfold.
  destruct (sim_read_bit w roms p alive Hq) as (w1 & Hread1 & Hq1).
  rewrite Hread1. cbn [fst snd]. rewrite bind_unfold.
  destruct (sim_read_cmp w1 roms p alive Hq1) as (w2 & Hread2 & Hq2).
  rewrite Hread2. cbn [fst snd].
  destruct (SimBus.sends false p alive) eqn:Hs0;
    destruct (SimBus.sends true p alive) eqn:Hs1.
  - (* conflict *)
    change (uint8 (Z.lor (Z.lor 0 0) (Z.shiftl 0 1))) with 0.
    unfold switch_reading. change (0 =? kZero) with false.
    change (0 =? kOne) with false. change (0 =? kConflict) with true.
    cbn [orb]. cbv iota.
    apply sends_spec in Hs0, Hs1.
    set (lzb := last_zero_branch state).
    fold (replay_mask (address state) p).
    destruct (Z.eqb_spec p lzb) as [Heq|Hne].
    + change (1 =? 0) with false. cbv iota. rewrite bind_unfold.
      destruct (sim_write_sel w2 roms p alive true Hq2) as (w3 & Hwr & Hq3).
      cbv iota in Hwr. rewrite Hwr. cbn [fst snd].
      exists 1, local, w3, true. split; [reflexivity|]. split; [exact Hq3|].
      split; [right; left; auto|]. split; [exact Hs1|].
      right. repeat split; auto.
    + destruct (Z.ltb_spec p lzb) as [Hlt|Hge].
      * destruct (write_mask_bits (address state) p p Hcur Hp Hp) as [Hv _].
        fold (replay_mask (address state) p) in Hv.
        destruct (replay_mask (address state) p =? 0) eqn:Hz.
        -- rewrite bind_unfold.
           destruct (sim_write_sel w2 roms p alive false Hq2) as (w3 & Hwr & Hq3).
           cbv iota in Hwr. rewrite Hwr. cbn [fst snd].
           apply Z.eqb_eq in Hz. rewrite Hz.
           exists 0, p, w3, false. split; [reflexivity|]. split; [exact Hq3|].
           split; [left; auto|]. split; [exact Hs0|].
           right. repeat split; auto. right; left. split; [exact Hlt|].
           destruct (addr_bit (address state) p); [discriminate Hv|reflexivity].
        -- rewrite bind_unfold.
           destruct (sim_write_sel w2 roms p alive true Hq2) as (w3 & Hwr & Hq3).
           cbv iota in Hwr. rewrite Hwr. cbn [fst snd].
           assert (Hbit : addr_bit (address state) p = true)
             by (destruct (addr_bit (address state) p); [reflexivity|discriminate Hv]).
           apply Z.eqb_neq in Hz.
           exists (replay_mask (address state) p), local, w3, true.
           split; [reflexivity|]. split; [exact Hq3|].
           split; [right; right; auto|]. split; [exact Hs1|].
           right. repeat split; auto.
      * change (0 =? 0) with true. cbv iota. rewrite bind_unfold.
        destruct (sim_write_sel w2 roms p alive false Hq2) as (w3 & Hwr & Hq3).
        cbv iota in Hwr. rewrite Hwr. cbn [fst snd].
        exists 0, p, w3, false. split; [reflexivity|]. split; [exact Hq3|].
        split; [left; auto|]. split; [exact Hs0|].
        right. repeat split; auto. right; right. split; [lia|reflexivity].
  - (* all zero *)
    change (uint8 (Z.lor (Z.lor 0 0) (Z.shiftl 1 1))) with 2.
    change (switch_reading 2 p state local) with (Some (0, local)).
    cbv iota beta. change (0 =? 0) with true. cbv iota. rewrite bind_unfold.
    destruct (sim_write_sel w2 roms p alive false Hq2) as (w3 & Hwr & Hq3).
    cbv iota in Hwr. rewrite Hwr. cbn [fst snd].
    exists 0, local, w3, false. split; [reflexivity|]. split; [exact Hq3|].
    split; [left; auto|]. split; [apply sends_spec, Hs0|].
    left. split; [|reflexivity]. intros r Hr. apply (sends_none true p alive Hs1 r Hr).
  - (* all one *)
    change (uint8 (Z.lor (Z.lor 0 1) (Z.shiftl 0 1))) with 1.
    change (switch_reading 1 p state local) with (Some (1, local)).
    cbv iota beta. change (1 =? 0) with false. cbv iota. rewrite bind_unfold.
    destruct (sim_write_sel w2 roms p alive true Hq2) as (w3 & Hwr & Hq3).
    cbv iota in Hwr. rewrite Hwr. cbn [fst snd].
    exists 1, local, w3, true. split; [reflexivity|]. split; [exact Hq3|].
    split; [right; left; auto|]. split; [apply sends_spec, Hs1|].
    left. split; [|reflexivity]. intros r Hr. apply (sends_none false p alive Hs0 r Hr).
  - (* nobody answers: impossible with a device alive *)
    exfalso. pose proof (sends_none false p alive Hs0 r0 Hr0) as H0.
    pose proof (sends_none true p alive Hs1 r0 Hr0) as H1.
    rewrite H0 in H1. discriminate H1.
Qed.

(** ** Invariants of the search loop on the simulated bus *)

Section Step.

Variables (roms A0 : list Z) (lzb0 : Z).
Variables (cur cur' alive : list Z) (p : Z) (c : bool).
Hypothesis Hp : 0 <= p < 64.
Hypothesis Hbelow : forall j, 0 <= j < p -> addr_bit cur' j = addr_bit cur j.
Hypothesis Hat : addr_bit cur' p = c.
Hypothesis Habove :
  forall j, p < j < 64 -> addr_bit cur j = true -> addr_bit cur' j = true.
Hypothesis Halive : alive_ok roms alive cur p.
Hypothesis Hsome : exists r, In r alive /\ Z.testbit r p = c.

Lemma agree_below (r q : Z) : q <= p -> (agree r cur' q <-> agree r cur q).
Proof.
  intros Hq. split; intros Ha j Hj.
  - rewrite <- Hbelow by lia. apply Ha, Hj.
  - rewrite Hbelow by lia. apply Ha, Hj.
Qed.

Lemma agree_next (r : Z) :
  agree r cur' (p + 1) <-> agree r cur p /\ Z.testbit r p = c.
Proof.
  split.
  - intros Ha. split.
    + apply agree_below; [lia|]. intros j Hj. apply Ha. lia.
    + rewrite <- Hat. apply Ha. lia.
  - intros [Ha Hc] j Hj. destruct (Z.eq_dec j p) as [->|Hne].
    + now rewrite Hat.
    + apply agree_below with (q := p); [lia|exact Ha|lia].
Qed.

Lemma alive_ok_step : alive_ok roms (SimBus.select c p alive) cur' (p + 1).
Proof.
  destruct Halive as [Hiff _]. split.
  - intros r. rewrite select_spec, agree_next, Hiff. tauto.
  - destruct Hsome as (r & Hin & Hc). exists r. apply select_spec. auto.
Qed.

Lemma local_ok_keep (local : Z) : local_ok roms local cur p -> local_ok roms local cur' (p + 1).
Proof.
  intros [->|(Hl & Hbit & r & Hin & Ha & Hr)]; [now left|right].
  split; [lia|]. split; [rewrite Hbelow by lia; exact Hbit|].
  exists r. split; [exact Hin|]. split; [|exact Hr].
  apply agree_below; [lia|exact Ha].
Qed.

Lemma local_ok_new :
  c = false -> (exists r, In r alive /\ Z.testbit r p = true) ->
  local_ok roms p cur' (p + 1).
Proof.
  intros Hc (r & Hin & Hr). right. split; [lia|]. split; [now rewrite Hat|].
  destruct Halive as [Hiff _]. apply Hiff in Hin. destruct Hin as [Hroms Ha].
  exists r. split; [exact Hroms|]. split; [|exact Hr].
  apply agree_below; [lia|exact Ha].
Qed.

Lemma order_ok_step (lzb : Z) :
  entry_ok roms A0 lzb0 -> lzb = lzb0 ->
  order_ok A0 lzb0 cur p ->
  ((forall r, In r alive -> Z.testbit r p = c) \/
   ((p = lzb /\ c = true) \/
    (p < lzb /\ c = addr_bit cur p) \/
    (lzb < p /\ c = false))) ->
  order_ok A0 lzb0 cur' (p + 1).
Proof.
  intros (Hlzb & (r0 & Hr0 & Ha0) & Hbit0 & r1 & Hr1 & Ha1 & Hb1) -> Hord Hchoice.
  destruct Hord as [(Hle & Hpre & Hmono)|(q & Hq & Hpre & HqA & Hqc)].
  2:{ right. exists q. split; [lia|]. split.
      - intros j Hj. rewrite Hbelow by lia. apply Hpre, Hj.
      - split; [exact HqA|]. rewrite Hbelow by lia. exact Hqc. }
  destruct Halive as [Hiff _].
  assert (Hin0 : In r0 alive).
  { apply Hiff. split; [exact Hr0|]. intros j Hj. rewrite Hpre by exact Hj.
    apply Ha0. lia. }
  assert (Hin1 : In r1 alive).
  { apply Hiff. split; [exact Hr1|]. intros j Hj. rewrite Hpre by exact Hj.
    apply Ha1. lia. }
  assert (HA0p : Z.testbit r0 p = addr_bit A0 p) by (apply Ha0; lia).
  assert (Hstay : addr_bit A0 p = c -> p < lzb0 -> same_path A0 lzb0 cur' (p + 1)).
  { intros Hc Hlt. split; [lia|]. split.
    - intros j Hj. destruct (Z.eq_dec j p) as [->|Hne].
      + now rewrite Hat.
      + rewrite Hbelow by lia. apply Hpre. lia.
    - intros j Hj HA. apply Habove; [lia|]. apply Hmono; [lia|exact HA]. }
  assert (Hleave : addr_bit A0 p = false -> c = true -> branched A0 cur' (p + 1)).
  { intros HA Hc. exists p. split; [lia|]. split.
    - intros j Hj. rewrite Hbelow by exact Hj. apply Hpre, Hj.
    - split; [exact HA|]. now rewrite Hat. }
  destruct Hchoice as [Hall|[[Heq Hc]|[[Hlt Hc]|[Hgt _]]]].
  - (* every device has the same bit *)
    destruct (Z.eq_dec p lzb0) as [Heq|Hne].
    + exfalso. subst p. pose proof (Hall r0 Hin0) as E0.
      pose proof (Hall r1 Hin1) as E1. congruence.
    + left. apply Hstay; [|lia]. rewrite <- HA0p. apply Hall, Hin0.
  - (* the branch point: take the 1 side *)
    right. apply Hleave; [|exact Hc]. now subst p.
  - (* before the branch point: the bit found in the buffer *)
    destruct (addr_bit A0 p) eqn:HA.
    + left. apply Hstay; [|exact Hlt].
      rewrite Hc. symmetry. apply Hmono; [lia|exact HA].
    + destruct c.
      * right. apply Hleave; auto.
      * left. apply Hstay; [reflexivity|exact Hlt].
  - lia.
Qed.

End Step.

Lemma set_address_same (state : onewire_search_state_t) :
  set_address state (address state) = state.
Proof. destruct state; reflexivity. Qed.

Lemma sim_loop (roms A0 : list Z) (lzb0 : Z) (n : nat) :
  forall (p local : Z) (state : onewire_search_state_t) (w : SimBus.t)
         (alive : list Z),
    Z.of_nat n + p = 64 -> 0 <= p ->
    quiet w roms (phase_at p alive) ->
    bytes8 (address state) ->
    alive_ok roms alive (address state) p ->
    local_ok roms local (address state) p ->
    exists local' cur' w' alive',
      searchNext_loop n p local state w =
        ((true, local', set_address state cur'), w') /\
      quiet w' roms SimBus.Idle /\
      bytes8 cur' /\
      alive_ok roms alive' cur' 64 /\
      local_ok roms local' cur' 64 /\
      (entry_ok roms A0 lzb0 -> last_zero_branch state = lzb0 ->
       order_ok A0 lzb0 (address state) p -> order_ok A0 lzb0 cur' 64).
Proof.
  induction n as [|n IH]; intros p local state w alive Hn Hp0 Hq Hcur Halive Hlocal.
  - assert (p = 64) as -> by lia.
    exists local, (address state), w, alive.
    rewrite set_address_same. cbn [searchNext_loop]. unfold ret.
    split; [reflexivity|]. split; [exact Hq|]. split; [exact Hcur|].
    split; [exact Halive|]. split; [exact Hlocal|]. auto.
  - assert (Hp : 0 <= p < 64) by lia.
    unfold phase_at in Hq. destruct (Z.eqb_spec p 64) as [|_]; [lia|].
    destruct (sim_step roms state w p local alive Hq Hp Hcur (proj2 Halive))
      as (v & local1 & w1 & c & Hbit & Hq1 & Hwritten & Hsome & Hchoice).
    destruct (update_facts (address state) p v c Hcur Hp Hwritten)
      as (Hcur1 & Hbelow & Hat & Habove).
    set (cur1 := address_write_bit (address state) (p / 8) (p mod 8) v) in *.
    assert (Hq1' : quiet w1 roms (phase_at (p + 1) (SimBus.select c p alive))).
    { unfold phase_at. destruct (Z.eqb_spec p 63); destruct (Z.eqb_spec (p + 1) 64);
        try lia; exact Hq1. }
    assert (Halive1 : alive_ok roms (SimBus.select c p alive) cur1 (p + 1))
      by (eapply alive_ok_step; eassumption).
    assert (Hlocal1 : local_ok roms local1 cur1 (p + 1)).
    { destruct Hchoice as [[_ ->]|(_ & Hone & -> & _)].
      - eapply local_ok_keep; eassumption.
      - destruct c.
        + eapply local_ok_keep; eassumption.
        + eapply local_ok_new; try eassumption. reflexivity. }
    destruct (IH (p + 1) local1 (set_address state cur1) w1
                (SimBus.select c p alive) ltac:(lia) ltac:(lia) Hq1' Hcur1
                Halive1 Hlocal1)
      as (local' & cur' & w' & alive' & Hloop & Hq' & Hcur' & Halive' & Hlocal' & Hord').
    exists local', cur', w', alive'.
    split.
    { cbn [searchNext_loop]. rewrite bind_unfold, Hbit. cbn [fst snd].
      rewrite Hloop. reflexivity. }
    repeat (split; [assumption|]).
    intros Hentry Hlzb Hord. apply Hord'; [exact Hentry|exact Hlzb|].
    cbn [set_address address].
    eapply order_ok_step with (alive := alive) (c := c) (lzb := last_zero_branch state);
      try eassumption.
    destruct Hchoice as [[Hall _]|(_ & _ & _ & Hcases)]; [left; exact Hall|right; exact Hcases].
Qed.

(** ** The address buffer as a number *)

Lemma testbit_add_byte (b V j : Z) :
  is_byte b -> 0 <= j ->
  Z.testbit (b + 256 * V) j =
  if j <? 8 then Z.testbit b j else Z.testbit V (j - 8).
Proof.
  intros Hb Hj. unfold is_byte in Hb. destruct (Z.ltb_spec j 8) as [Hlt|Hge].
  - rewrite <- (Z.mod_pow2_bits_low (b + 256 * V) 8 j) by lia.
    change (2 ^ 8) with 256. rewrite (Z.mul_comm 256 V), Z_mod_plus_full.
    now rewrite Z.mod_small by lia.
  - replace j with ((j - 8) + 8) at 1 by lia.
    rewrite <- Z.div_pow2_bits by lia.
    change (2 ^ 8) with 256. rewrite (Z.mul_comm 256 V), Z.div_add by lia.
    now rewrite Z.div_small by lia.
Qed.

Lemma address_value_bits (a : list Z) :
  Forall is_byte a ->
  forall j, 0 <= j ->
    Z.testbit (address_value a) j = Z.testbit (load_byte a (j / 8)) (j mod 8).
Proof.
  unfold load_byte. induction 1 as [|b rest Hb Hrest IH]; intros j Hj.
  - cbn [address_value]. rewrite Z.bits_0.
    destruct (Z.to_nat (j / 8)); cbn; now rewrite Z.bits_0.
  - cbn [address_value]. rewrite testbit_add_byte by assumption.
    destruct (Z.ltb_spec j 8) as [Hlt|Hge].
    + rewrite Z.div_small, Z.mod_small by lia. reflexivity.
    + rewrite IH by lia.
      replace (j / 8) with ((j - 8) / 8 + 1) by (Z.div_mod_to_equations; lia).
      replace ((j - 8) mod 8) with (j mod 8) by (Z.div_mod_to_equations; lia).
      assert (0 <= (j - 8) / 8) by (Z.div_mod_to_equations; lia).
      rewrite Z2Nat.inj_add by lia. rewrite Nat.add_1_r. reflexivity.
Qed.

Lemma address_value_addr_bit (a : list Z) (j : Z) :
  bytes8 a -> 0 <= j -> Z.testbit (address_value a) j = addr_bit a j.
Proof. intros [_ Hb] Hj. unfold addr_bit. apply address_value_bits; assumption. Qed.

Lemma address_value_range (a : list Z) :
  bytes8 a -> 0 <= address_value a < 2 ^ 64.
Proof.
  intros [Hlen Hb].
  destruct a as [|b0 [|b1 [|b2 [|b3 [|b4 [|b5 [|b6 [|b7 [|? ?]]]]]]]]];
    try discriminate Hlen.
  repeat match goal with
         | Hf : Forall _ (_ :: _) |- _ => inversion Hf; subst; clear Hf
         end.
  unfold is_byte in *. cbn [address_value].
  change (2 ^ 64) with 18446744073709551616. lia.
Qed.

Lemma agree_address_value (a : list Z) (p : Z) :
  bytes8 a -> agree (address_value a) a p.
Proof. intros Ha j Hj. apply address_value_addr_bit; [exact Ha|lia]. Qed.

(** A 64-bit code that matches the buffer on all 64 positions is the
    buffer's value. *)
Lemma agree_all_value (r : Z) (a : list Z) :
  0 <= r < 2 ^ 64 -> bytes8 a -> agree r a 64 -> address_value a = r.
Proof.
  intros Hr Ha Hagree.
  pose proof (address_value_range a Ha) as Hv.
  rewrite <- (Z.mod_small r (2 ^ 64)) by exact Hr.
  rewrite <- (Z.mod_small (address_value a) (2 ^ 64)) by exact Hv.
  apply Z.bits_inj'. intros n Hn.
  destruct (Z.ltb_spec n 64) as [Hlt|Hge].
  - rewrite !Z.mod_pow2_bits_low by lia.
    rewrite address_value_addr_bit by assumption. symmetry. apply Hagree. lia.
  - rewrite !Z.mod_pow2_bits_high by lia. reflexivity.
Qed.

(** ** The order of discovery *)

Lemma bitrev_range (n : nat) (a : Z) : 0 <= bitrev n a < 2 ^ Z.of_nat n.
Proof.
  revert a. induction n as [|n IH]; intros a; [cbn; lia|].
  cbn [bitrev]. specialize (IH (a / 2)).
  rewrite Nat2Z.inj_succ, Z.pow_succ_r by lia.
  destruct (Z.odd a); lia.
Qed.

Lemma testbit_half (a j : Z) : 0 <= j -> Z.testbit (a / 2) j = Z.testbit a (j + 1).
Proof. intros Hj. change 2 with (2 ^ 1). apply Z.div_pow2_bits; lia. Qed.

Lemma bitrev_lt (n : nat) :
  forall a b q,
    0 <= q < Z.of_nat n ->
    (forall j, 0 <= j < q -> Z.testbit a j = Z.testbit b j) ->
    Z.testbit a q = false -> Z.testbit b q = true ->
    bitrev n a < bitrev n b.
Proof.
  induction n as [|n IH]; intros a b q Hq Hpre Ha Hb; [lia|].
  cbn [bitrev]. destruct (Z.eq_dec q 0) as [->|Hq0].
  - rewrite Z.bit0_odd in Ha, Hb. rewrite Ha, Hb.
    pose proof (bitrev_range n (a / 2)). pose proof (bitrev_range n (b / 2)). lia.
  - assert (Hodd : Z.odd a = Z.odd b) by (rewrite <- !Z.bit0_odd; apply Hpre; lia).
    rewrite Hodd.
    assert (bitrev n (a / 2) < bitrev n (b / 2)); [|lia].
    apply (IH (a / 2) (b / 2) (q - 1)).
    + lia.
    + intros j Hj. rewrite !testbit_half by lia. apply Hpre. lia.
    + rewrite testbit_half by lia. now replace (q - 1 + 1) with q by lia.
    + rewrite testbit_half by lia. now replace (q - 1 + 1) with q by lia.
Qed.

Lemma lsb_first_lt_irrefl (a : Z) : ~ lsb_first_lt a a.
Proof. unfold lsb_first_lt. lia. Qed.

Lemma lsb_first_lt_trans (a b c : Z) :
  lsb_first_lt a b -> lsb_first_lt b c -> lsb_first_lt a c.
Proof. unfold lsb_first_lt. lia. Qed.

(** ** One search cycle on the simulated bus *)

Lemma sim_cycle (roms : list Z) (state : onewire_search_state_t)
    (w : SimBus.t) (ph : SimBus.Phase) :
  valid_roms roms ->
  quiet w roms ph ->
  done state = false ->
  bytes8 (address state) ->
  exists state' w',
    searchDevices SEARCH_ROM state w = ((0, state'), w') /\
    quiet w' roms SimBus.Idle /\
    bytes8 (address state') /\
    In (address_value (address state')) roms /\
    ((done state' = true) \/
     (done state' = false /\
      entry_ok roms (address state') (last_zero_branch state'))) /\
    (entry_ok roms (address state) (last_zero_branch state) ->
     lsb_first_lt (address_value (address state)) (address_value (address state'))).
Proof.
  intros [Hne Hvalid] Hq Hdone Hcur.
  unfold searchDevices. rewrite Hdone, bind_unfold.
  destruct (sim_Start w roms ph Hq Hne) as (w1 & Hstart & Hq1).
  rewrite Hstart. cbn [fst snd]. change (1 =? 0) with false. cbv iota.
  rewrite bind_unfold.
  destruct (sim_search_command w1 roms Hq1) as (w2 & Hcmd & Hq2).
  rewrite Hcmd. cbn [fst snd].
  unfold searchNext. rewrite bind_unfold.
  assert (Halive0 : alive_ok roms roms (address state) 0).
  { split.
    - intros r. split; [intros Hin; split; [exact Hin|intros j Hj; lia]|tauto].
    - destruct roms as [|r roms']; [congruence|]. exists r. now left. }
  destruct (sim_loop roms (address state) (last_zero_branch state) 64 0 (-1)
              state w2 roms eq_refl ltac:(lia) Hq2 Hcur Halive0 (or_introl eq_refl))
    as (local' & cur' & w' & alive' & Hloop & Hq' & Hcur' & Halive' & Hlocal' & Hord').
  rewrite Hloop. cbn [fst snd].
  destruct Halive' as [Hiff [r Hr]].
  apply Hiff in Hr. destruct Hr as [Hrin Hragree].
  assert (Hval : address_value cur' = r).
  { apply agree_all_value; try assumption.
    rewrite Forall_forall in Hvalid. apply Hvalid, Hrin. }
  assert (Horder : entry_ok roms (address state) (last_zero_branch state) ->
                   lsb_first_lt (address_value (address state)) (address_value cur')).
  { intros Hentry.
    assert (Hstart0 : order_ok (address state) (last_zero_branch state) (address state) 0).
    { left. destruct Hentry as [Hl _]. split; [lia|]. split; auto. }
    destruct (Hord' Hentry eq_refl Hstart0)
      as [(Hle & _)|(q & Hq64 & Hpre & HA & Hc)].
    - destruct Hentry as [Hl _]. lia.
    - unfold lsb_first_lt. apply (bitrev_lt 64 _ _ q).
      + change (Z.of_nat 64) with 64. lia.
      + intros j Hj. rewrite !address_value_addr_bit by (assumption || lia).
        symmetry. apply Hpre, Hj.
      + rewrite address_value_addr_bit by (assumption || lia). exact HA.
      + rewrite address_value_addr_bit by (assumption || lia). exact Hc. }
  destruct (Z.eqb_spec local' (-1)) as [Hl|Hl].
  - exists (set_done (set_address state cur') true), w'.
    split; [reflexivity|]. split; [exact Hq'|]. split; [exact Hcur'|].
    split; [cbn; rewrite Hval; exact Hrin|]. split; [left; reflexivity|exact Horder].
  - exists (set_last_zero_branch (set_address state cur') local'), w'.
    split; [reflexivity|]. split; [exact Hq'|]. split; [exact Hcur'|].
    split; [cbn; rewrite Hval; exact Hrin|]. split; [|exact Horder].
    right. split; [exact Hdone|]. cbn.
    destruct Hlocal' as [Habs|(Hrange & Hbit & r1 & Hr1 & Ha1 & Hb1)]; [contradiction|].
    split; [exact Hrange|]. split; [exists r; auto|]. split; [exact Hbit|].
    exists r1. auto.
Qed.

(** The devices ahead of an address shrink with every discovery. *)
Lemma filter_length_lt {A : Type} (f g : A -> bool) (l : list A) (x : A) :
  (forall y, f y = true -> g y = true) ->
  In x l -> g x = true -> f x = false ->
  (length (filter f l) < length (filter g l))%nat.
Proof.
  intros Hfg. induction l as [|h t IH]; intros Hin Hg Hf; [contradiction|].
  assert (Hle : (length (filter f t) <= length (filter g t))%nat).
  { clear -Hfg. induction t as [|h t IH]; [cbn; lia|]. cbn.
    destruct (f h) eqn:E; [rewrite (Hfg h E); cbn; lia|].
    destruct (g h); cbn; lia. }
  cbn. destruct Hin as [->|Hin].
  - rewrite Hf, Hg. cbn. lia.
  - specialize (IH Hin Hg Hf).
    destruct (f h) eqn:E; [rewrite (Hfg h E); cbn; lia|].
    destruct (g h); cbn; lia.
Qed.

Lemma ahead_decreases (roms : list Z) (a b : Z) :
  In b roms -> lsb_first_lt a b ->
  (length (ahead roms b) < length (ahead roms a))%nat.
Proof.
  intros Hin Hlt. unfold ahead, lsb_first_lt in *.
  apply filter_length_lt with (x := b); try exact Hin.
  - intros y Hy. apply Z.ltb_lt in Hy. apply Z.ltb_lt. lia.
  - apply Z.ltb_lt. exact Hlt.
  - apply Z.ltb_ge. lia.
Qed.

Lemma ahead_below_all (roms : list Z) (b : Z) :
  In b roms -> (length (ahead roms b) < length roms)%nat.
Proof.
  intros Hin. unfold ahead.
  assert (Hall : length (filter (fun _ : Z => true) roms) = length roms).
  { clear. induction roms as [|h t IH]; cbn; lia. }
  rewrite <- Hall. apply filter_length_lt with (x := b); auto.
  apply Z.ltb_ge. lia.
Qed.

(** ** Repeated cycles *)

Lemma search_cycles_step {W : Type} {hal : HAL W} (n : nat)
    (state state1 st : onewire_search_state_t) (w w1 w' : W) (found : list Z) :
  searchDevices SEARCH_ROM state w = ((0, state1), w1) ->
  search_cycles n state1 w1 = (found, st, w') ->
  search_cycles (S n) state w = (address_value (address state1) :: found, st, w').
Proof. intros H1 H2. cbn [search_cycles]. rewrite H1, H2. reflexivity. Qed.

Lemma search_cycles_done {W : Type} {hal : HAL W} (n : nat)
    (state : onewire_search_state_t) (w : W) :
  done state = true -> search_cycles n state w = ([], state, w).
Proof.
  intros Hd. induction n as [|n IH]; [reflexivity|].
  cbn [search_cycles]. rewrite (searchDevices_done SEARCH_ROM state w Hd), IH.
  reflexivity.
Qed.

Lemma entry_ok_has_ahead (roms a : list Z) (lzb : Z) :
  bytes8 a -> entry_ok roms a lzb ->
  exists r, In r roms /\ lsb_first_lt (address_value a) r.
Proof.
  intros Ha (Hl & _ & Hbit & r1 & Hr1 & Ha1 & Hb1).
  exists r1. split; [exact Hr1|]. unfold lsb_first_lt.
  apply (bitrev_lt 64 _ _ lzb).
  - change (Z.of_nat 64) with 64. exact Hl.
  - intros j Hj. rewrite address_value_addr_bit by (assumption || lia).
    symmetry. apply Ha1, Hj.
  - rewrite address_value_addr_bit by (assumption || lia). exact Hbit.
  - exact Hb1.
Qed.

Lemma cycles_from (roms : list Z) (n : nat) :
  valid_roms roms ->
  forall (state : onewire_search_state_t) (w : SimBus.t) (ph : SimBus.Phase),
    quiet w roms ph ->
    done state = false ->
    bytes8 (address state) ->
    entry_ok roms (address state) (last_zero_branch state) ->
    (length (ahead roms (address_value (address state))) <= n)%nat ->
    exists k found state' w',
      (1 <= k <= n)%nat /\
      search_cycles k state w = (found, state', w') /\
      length found = k /\
      Forall (fun a => In a roms /\ lsb_first_lt (address_value (address state)) a)
        found /\
      StronglySorted lsb_first_lt found /\
      done state' = true.
Proof.
  intros Hvalid. induction n as [|n IH]; intros state w ph Hq Hdone Hcur Hentry Hm.
  - exfalso. destruct (entry_ok_has_ahead roms _ _ Hcur Hentry) as (r & Hr & Hlt).
    assert (Hin : In r (ahead roms (address_value (address state)))).
    { unfold ahead. apply filter_In. split; [exact Hr|]. apply Z.ltb_lt, Hlt. }
    destruct (ahead roms (address_value (address state))); [contradiction|].
    cbn in Hm. lia.
  - destruct (sim_cycle roms state w ph Hvalid Hq Hdone Hcur)
      as (state1 & w1 & Hcycle & Hq1 & Hcur1 & Hin1 & Hnext & Hlt).
    specialize (Hlt Hentry).
    destruct Hnext as [Hd1|[Hd1 Hentry1]].
    + exists 1%nat, [address_value (address state1)], state1, w1.
      split; [lia|]. split.
      { apply (search_cycles_step 0 state state1 state1 w w1 w1 []);
          [exact Hcycle|reflexivity]. }
      split; [reflexivity|]. split; [repeat constructor; assumption|].
      split; [repeat constructor|exact Hd1].
    + pose proof (ahead_decreases roms _ _ Hin1 Hlt) as Hdec.
      destruct (IH state1 w1 SimBus.Idle Hq1 Hd1 Hcur1 Hentry1 ltac:(lia))
        as (k & found & state' & w' & Hk & Hrun & Hlen & Hall & Hsorted & Hd').
      exists (S k), (address_value (address state1) :: found), state', w'.
      split; [lia|]. split.
      { apply (search_cycles_step k state state1 state' w w1 w' found);
          assumption. }
      split; [cbn; lia|].
      split.
      { constructor; [split; assumption|].
        eapply Forall_impl; [|exact Hall]. cbn. intros a [Ha1 Ha2].
        split; [exact Ha1|]. eapply lsb_first_lt_trans; eassumption. }
      split; [|exact Hd'].
      constructor; [exact Hsorted|].
      eapply Forall_impl; [|exact Hall]. cbn. tauto.
Qed.

Lemma sorted_NoDup (l : list Z) : StronglySorted lsb_first_lt l -> NoDup l.
Proof.
  induction 1 as [|a l Hs IH Hall]; constructor; [|exact IH].
  intros Hin. rewrite Forall_forall in Hall.
  apply (lsb_first_lt_irrefl a), Hall, Hin.
Qed.

(** C1, as the code has it. On every simulated bus with N >= 1 devices,
    repeated search cycles from the freshly initialised state, each fed the
    state of the one before, return 0 and leave in the buffer the code of a
    device on the bus; the codes come out in strictly ascending order of
    their values read with bit 0 as the most significant bit (so none comes
    twice); after at most N cycles [done] is set, and from then on every
    further cycle yields nothing and changes nothing. *)
Theorem search_cycles_discover_in_lsb_first_order (roms : list Z) :
  roms <> [] ->
  Forall (fun r => 0 <= r < 2 ^ 64) roms ->
  exists k found state w',
    (1 <= k <= length roms)%nat /\
    search_cycles k onewireSearchInit (SimBus.bus roms) = (found, state, w') /\
    length found = k /\
    incl found roms /\
    StronglySorted lsb_first_lt found /\
    NoDup found /\
    done state = true /\
    forall n, search_cycles n state w' = ([], state, w').
Proof.
  intros Hne Hrange.
  assert (Hvalid : valid_roms roms) by (split; assumption).
  assert (Hq : quiet (SimBus.bus roms) roms SimBus.Idle) by (repeat split).
  assert (Hcur : bytes8 (address onewireSearchInit)).
  { split; [reflexivity|]. repeat constructor; unfold is_byte; lia. }
  destruct (sim_cycle roms onewireSearchInit (SimBus.bus roms) SimBus.Idle
              Hvalid Hq eq_refl Hcur)
    as (state1 & w1 & Hcycle & Hq1 & Hcur1 & Hin1 & Hnext & _).
  pose proof (ahead_below_all roms _ Hin1) as Hm.
  destruct Hnext as [Hd1|[Hd1 Hentry1]].
  - exists 1%nat, [address_value (address state1)], state1, w1.
    split; [destruct roms; [congruence|cbn; lia]|]. split.
    { apply (search_cycles_step 0 _ state1 state1 _ w1 w1 []);
        [exact Hcycle|reflexivity]. }
    split; [reflexivity|].
    split; [intros a [<-|[]]; exact Hin1|].
    split; [repeat constructor|]. split; [repeat constructor; auto|].
    split; [exact Hd1|]. intros n. apply search_cycles_done, Hd1.
  - destruct (cycles_from roms (length roms - 1) Hvalid state1 w1 SimBus.Idle
                Hq1 Hd1 Hcur1 Hentry1 ltac:(lia))
      as (k & found & state' & w' & Hk & Hrun & Hlen & Hall & Hsorted & Hd').
    exists (S k), (address_value (address state1) :: found), state', w'.
    split; [lia|]. split.
    { apply (search_cycles_step k _ state1 state' _ w1 w' found); assumption. }
    split; [cbn; lia|].
    assert (Hs : StronglySorted lsb_first_lt (address_value (address state1) :: found)).
    { constructor; [exact Hsorted|]. eapply Forall_impl; [|exact Hall]. cbn. tauto. }
    split.
    { intros a [<-|Ha]; [exact Hin1|]. rewrite Forall_forall in Hall.
      apply (Hall a Ha). }
    split; [exact Hs|]. split; [apply sorted_NoDup, Hs|].
    split; [exact Hd'|]. intros n. apply search_cycles_done, Hd'.
Qed.

(** C1 as stated fails on a bus with the two devices [rom_01] and [rom_02]:
    at position 8, the first where they differ, [rom_02] has the 0, so it
    is discovered first, although it is the larger number, whether the
    address is read with byte 0 least or most significant. *)
Lemma search_order_counterexample :
  let '(found, state, _) :=
    search_cycles 3 onewireSearchInit
      (SimBus.bus [address_value rom_01; address_value rom_02]) in
  found = [address_value rom_02; address_value rom_01] /\
  done state = true /\
  address_value rom_01 < address_value rom_02 /\
  msb_first_value rom_01 < msb_first_value rom_02 /\
  ~ StronglySorted Z.lt found /\
  ~ StronglySorted Z.lt (map (fun a => msb_first_value (bytes_of 8 a)) found).
Proof.
  vm_compute. repeat split;
    intros Hs; inversion Hs as [|? ? ? Hall]; subst;
    inversion Hall as [|? ? Hlt ?]; subst; discriminate Hlt.
Qed.

Lemma search_cycles_discover_in_lsb_first_order_witness :
  exists k found state w',
    (1 <= k <= length (map address_value [rom_00; rom_02; rom_0A; rom_06]))%nat /\
    search_cycles k onewireSearchInit
      (SimBus.bus (map address_value [rom_00; rom_02; rom_0A; rom_06])) =
      (found, state, w') /\
    length found = k /\
    incl found (map address_value [rom_00; rom_02; rom_0A; rom_06]) /\
    StronglySorted lsb_first_lt found /\
    NoDup found /\
    done state = true /\
    forall n, search_cycles n state w' = ([], state, w').
Proof.
  apply (search_cycles_discover_in_lsb_first_order
           (map address_value [rom_00; rom_02; rom_0A; rom_06])).
  - discriminate.
  - repeat constructor; vm_compute; congruence.
Defined.

(** ** What [DS18B20_Search] stores *)

Section SearchStores.
Context {W : Type} {hal : HAL W}.

(** A call of [searchDevices] that does not return 0 leaves the state as it
    was. *)
Lemma searchDevices_nonzero_keeps (command : Z) (state : onewire_search_state_t)
    (w : W) :
  fst (fst (searchDevices command state w)) <> 0 ->
  snd (fst (searchDevices command state w)) = state.
Proof.
  intros Hr. destruct (done state) eqn:Hd.
  - now rewrite (searchDevices_done command state w Hd).
  - destruct (Z.eq_dec (fst (DS18B20_Start w)) 0) as [Hp|Hp].
    + now rewrite (searchDevices_no_presence command state w Hd Hp).
    + exfalso. apply Hr. apply searchDevices_presence; assumption.
Qed.

(** The loop body runs only after such a call: what it packs is the buffer
    the loop was entered with. *)
Lemma Search_loop_stores_entry_buffer (int_shl : Z -> Z -> Z) (fuel : nat) :
  forall (index count : Z) (state : onewire_search_state_t)
         (stores : list (Z * Z)) (w : W),
    exists added,
      snd (fst (fst (DS18B20_Search_loop int_shl fuel index count state stores w))) =
        stores ++ added /\
      Forall (fun s => snd s = pack_ROM_code int_shl (address state)) added.
Proof.
  induction fuel as [|fuel IH]; intros index count state stores w.
  - exists []. cbn. rewrite app_nil_r. auto.
  - cbn [DS18B20_Search_loop]. rewrite bind_unfold.
    pose proof (searchDevices_nonzero_keeps SEARCH_ROM state w) as Hkeep.
    destruct (fst (searchDevices SEARCH_ROM state w)) as [result state1].
    cbn [fst snd] in Hkeep.
    destruct (Z.eqb_spec result 0) as [_|Hne].
    + exists []. cbn. rewrite app_nil_r. auto.
    + rewrite (Hkeep Hne).
      destruct (IH (uint8 (index + 1)) (uint8 (count + 1)) state
                  (stores ++ [(index, pack_ROM_code int_shl (address state))])
                  (snd (searchDevices SEARCH_ROM state w)))
        as (added & Heq & Hall).
      exists ((index, pack_ROM_code int_shl (address state)) :: added).
      rewrite Heq, <- app_assoc. split; [reflexivity|].
      constructor; [reflexivity|exact Hall].
Qed.

End SearchStores.

(** C9 fails on the code. On every simulated bus with at least one device,
    [DS18B20_Search] discovers an address (the search state it ends with
    holds the code of a device of the bus), returns 0, and has stored
    nothing: the output array gets no integer for the discovered address.
    And on any bus, whatever the target's int shift, every value that
    [DS18B20_Search] does store is the packing of the all-zero buffer of the
    freshly initialised state, never that of a discovered address. *)
Theorem Search_stores_nothing_for_a_discovered_address
    (int_shl : Z -> Z -> Z) (roms : list Z) (fuel : nat) :
  roms <> [] ->
  Forall (fun r => 0 <= r < 2 ^ 64) roms ->
  (exists state w',
     DS18B20_Search int_shl (S fuel) (SimBus.bus roms) =
       ((Returned 0, [], state), w') /\
     bytes8 (address state) /\
     In (address_value (address state)) roms) /\
  (forall (W : Type) (hal : HAL W) (w : W) (n : nat),
     Forall (fun s => snd s = pack_ROM_code int_shl [0; 0; 0; 0; 0; 0; 0; 0])
       (snd (fst (fst (DS18B20_Search int_shl n w))))).
Proof.
  intros Hne Hrange. split.
  - assert (Hvalid : valid_roms roms) by (split; assumption).
    assert (Hq : quiet (SimBus.bus roms) roms SimBus.Idle) by (repeat split).
    assert (Hcur : bytes8 (address onewireSearchInit)).
    { split; [reflexivity|]. repeat constructor; unfold is_byte; lia. }
    destruct (sim_cycle roms onewireSearchInit (SimBus.bus roms) SimBus.Idle
                Hvalid Hq eq_refl Hcur)
      as (state1 & w1 & Hcycle & _ & Hcur1 & Hin1 & _).
    exists state1, w1. split; [|split; assumption].
    unfold DS18B20_Search. cbn [DS18B20_Search_loop].
    rewrite bind_unfold, Hcycle. reflexivity.
  - intros W hal w n. unfold DS18B20_Search.
    destruct (Search_loop_stores_entry_buffer int_shl n 0 0 onewireSearchInit [] w)
      as (added & Heq & Hall).
    rewrite Heq. exact Hall.
Qed.

Lemma Search_stores_nothing_for_a_discovered_address_witness :
  (exists state w',
     DS18B20_Search wrap_shl 4 (SimBus.bus [address_value rom_02]) =
       ((Returned 0, [], state), w') /\
     bytes8 (address state) /\
     In (address_value (address state)) [address_value rom_02]) /\
  (forall (W : Type) (hal : HAL W) (w : W) (n : nat),
     Forall (fun s => snd s = pack_ROM_code wrap_shl [0; 0; 0; 0; 0; 0; 0; 0])
       (snd (fst (fst (DS18B20_Search wrap_shl n w))))).
Proof.
  apply (Search_stores_nothing_for_a_discovered_address wrap_shl
           [address_value rom_02] 3).
  - discriminate.
  - repeat constructor; vm_compute; try discriminate; reflexivity.
Defined.

(** C10, as the code has it. [DS18B20_Search] is given no capacity and
    checks none. On every bus, the slot stored k-th goes to index k modulo
    256 (the index is a uint8_t), whatever the length of the caller's array:
    an array of at least 256 slots is never written past its capacity. *)
Theorem Search_index_is_bounded_by_its_uint8_only
    {W : Type} {hal : HAL W} (int_shl : Z -> Z -> Z) (capacity : Z)
    (fuel : nat) (w : W) :
  256 <= capacity ->
  let '(_, stores, _) := fst (DS18B20_Search int_shl fuel w) in
  Forall (fun s => 0 <= fst s < capacity) stores /\
  map fst stores = map uint8 (below (length stores)).
Proof.
  intros Hcap. unfold DS18B20_Search.
  destruct (Search_loop_shape int_shl fuel 0 0 onewireSearchInit [] w ltac:(lia))
    as (out & added & state' & w' & Heq & _ & Hidx).
  rewrite Heq. cbn [fst app]. split; [|exact Hidx].
  apply Forall_forall. intros s Hs.
  assert (Hin : In (fst s) (map fst added)) by (apply in_map, Hs).
  rewrite Hidx in Hin. apply in_map_iff in Hin. destruct Hin as (k & <- & _).
  pose proof (uint8_range k). lia.
Qed.

Lemma Search_index_is_bounded_by_its_uint8_only_witness :
  let '(_, stores, _) :=
    fst (DS18B20_Search wrap_shl 3 ([] : ScriptBus.t)) in
  Forall (fun s => 0 <= fst s < 256) stores /\
  map fst stores = map uint8 (below (length stores)).
Proof.
  apply (Search_index_is_bounded_by_its_uint8_only wrap_shl 256 3 ([] : ScriptBus.t)).
  lia.
Defined.

(** C10 as stated fails: two devices on the bus, an output array of one
    slot, and a master that misses the first two presence pulses.
    [DS18B20_Search] stores into the slots 0 and 1 and returns 0. *)
Lemma Search_capacity_counterexample :
  let roms := [address_value rom_00; address_value rom_02] in
  let capacity := 1 in
  let '(out, stores, _) :=
    fst (DS18B20_Search wrap_shl 4 ((2%nat, SimBus.bus roms) : LossyBus.t)) in
  capacity < Z.of_nat (length roms) /\
  out = Returned 0 /\
  map fst stores = [0; 1] /\
  ~ Forall (fun s => 0 <= fst s < capacity) stores.
Proof.
  vm_compute. split; [reflexivity|]. split; [reflexivity|]. split; [reflexivity|].
  intros H. inversion H as [|? ? _ Hrest]; subst.
  inversion Hrest as [|? ? [_ Hlt] _]; subst. discriminate Hlt.
Qed.

(** * Further properties of the driver *)

(** ** Slots on the recording bus *)

Lemma slots_events_app (a b : list Slot) :
  slots_events (a ++ b) = slots_events a ++ slots_events b.
Proof. unfold slots_events. now rewrite map_app, concat_app. Qed.

Section Emits.
Context {W : Type} {hal : HAL W}.

Lemma emits_ret {A : Type} (a : A) :
  emits (W := W) (ret a) (ret a) (fun _ => []).
Proof. intros w l. cbn. now rewrite app_nil_r. Qed.

Lemma emits_bind {A B : Type} (cl : M (W * list Event) A) (c : M W A)
    (kl : A -> M (W * list Event) B) (k : A -> M W B)
    (f : W -> list Slot) (g : A -> W -> list Slot) :
  emits cl c f -> (forall a, emits (kl a) (k a) (g a)) ->
  emits (bind cl kl) (bind c k) (fun w => f w ++ g (fst (c w)) (snd (c w))).
Proof.
  intros Hc Hk w l. rewrite !bind_unfold, Hc. cbn [fst snd].
  rewrite Hk, slots_events_app, app_assoc. reflexivity.
Qed.

Lemma emits_ext {A : Type} (cl : M (W * list Event) A) (c : M W A)
    (f g : W -> list Slot) :
  emits cl c f -> (forall w, f w = g w) -> emits cl c g.
Proof. intros H Hfg w l. rewrite H, Hfg. reflexivity. Qed.

Lemma emits_Start :
  emits DS18B20_Start DS18B20_Start
    (fun w => [SlotReset (if fst (DS18B20_Start w) =? 0 then GPIO_PIN_SET else GPIO_PIN_RESET)]).
Proof.
  intros w l. destruct (logged_Start w l) as (s & Heq & Hs).
  rewrite Heq, Hs. destruct s; cbn; rewrite ?app_nil_r; reflexivity.
Qed.

Lemma emits_read :
  emits DS18B20_read DS18B20_read
    (fun w => [SlotRead (if fst (DS18B20_read w) =? 0 then GPIO_PIN_RESET else GPIO_PIN_SET)]).
Proof.
  intros w l.
  unfold DS18B20_read, bind, WritePin, DS18B20_delay, act, ret. cbn.
  unfold Logged.read_pin, Logged.wait, Logged.write_pin. cbn.
  destruct (HAL_GPIO_ReadPin _) as [s w1]. cbn.
  rewrite <- !app_assoc. destruct s; reflexivity.
Qed.

Lemma emits_write0 : emits DS18B20_write0 DS18B20_write0 (fun _ => [SlotWrite false]).
Proof.
  intros w l. unfold DS18B20_write0, bind, WritePin, DS18B20_delay, act, ret. cbn.
  unfold Logged.wait, Logged.write_pin. cbn. rewrite <- !app_assoc. reflexivity.
Qed.

Lemma emits_write1 : emits DS18B20_write1 DS18B20_write1 (fun _ => [SlotWrite true]).
Proof.
  intros w l. unfold DS18B20_write1, bind, WritePin, DS18B20_delay, act, ret. cbn.
  unfold Logged.wait, Logged.write_pin. cbn. rewrite <- !app_assoc. reflexivity.
Qed.

End Emits.

Lemma check_below2 (P : Z -> Z -> bool) (n1 n2 : nat) :
  forallb (fun a => forallb (P a) (below n2)) (below n1) = true ->
  forall a b, 0 <= a < Z.of_nat n1 -> 0 <= b < Z.of_nat n2 -> P a b = true.
Proof.
  intros Hall a b Ha Hb.
  pose proof (check_below _ n1 Hall a Ha) as H1. cbv beta in H1.
  exact (check_below _ n2 H1 b Hb).
Qed.

Lemma mask_test (d k : Z) :
  0 <= d < 256 -> 0 <= k < 8 ->
  (Z.land d (Z.shiftl 1 k) =? Z.shiftl 1 k) = Z.testbit d k.
Proof.
  intros Hd Hk.
  apply eqb_prop.
  exact (check_below2 mask_check 256 8 ltac:(vm_compute; reflexivity) d k Hd Hk).
Qed.

Lemma map_upto_ext {A : Type} (f g : Z -> A) (n : nat) (a : Z) :
  (forall k, a <= k < a + Z.of_nat n -> f k = g k) ->
  map f (upto n a) = map g (upto n a).
Proof.
  revert a. induction n as [|n IH]; intros a Hfg; [reflexivity|].
  cbn [upto map]. rewrite Hfg by lia. f_equal. apply IH. intros k Hk. apply Hfg. lia.
Qed.

Section EmitsBytes.
Context {W : Type} {hal : HAL W}.

Lemma emits_writeData_loop (n : nat) (i data : Z) :
  emits (W := W) (DS18B20_writeData_loop n i data) (DS18B20_writeData_loop n i data)
    (fun _ => map (fun k => SlotWrite (Z.land data (Z.shiftl 1 k) =? Z.shiftl 1 k))
                (upto n i)).
Proof.
  revert i. induction n as [|n IH]; intros i; [apply emits_ret|].
  cbn [DS18B20_writeData_loop upto map].
  set (rest := map (fun k => SlotWrite (Z.land data (Z.shiftl 1 k) =? Z.shiftl 1 k))
                 (upto n (i + 1))).
  destruct (Z.land data (Z.shiftl 1 i) =? Z.shiftl 1 i).
  - apply (emits_bind _ _ _ _ (fun _ => [SlotWrite true]) (fun _ _ => rest)).
    + apply emits_write1.
    + intros _. apply IH.
  - apply (emits_bind _ _ _ _ (fun _ => [SlotWrite false]) (fun _ _ => rest)).
    + apply emits_write0.
    + intros _. apply IH.
Qed.

Lemma emits_writeData (data : Z) :
  0 <= data < 256 ->
  emits (W := W) (DS18B20_writeData data) (DS18B20_writeData data)
    (fun _ => map (fun k => SlotWrite (Z.testbit data k)) (below 8)).
Proof.
  intros Hd. unfold DS18B20_writeData. eapply emits_ext.
  - apply (emits_bind _ _ _ _
             (fun _ => map (fun k => SlotWrite (Z.land data (Z.shiftl 1 k) =? Z.shiftl 1 k))
                         (upto 8 0))
             (fun _ _ => [])).
    + apply emits_writeData_loop.
    + intros _. apply emits_ret.
  - intros w. cbn beta. rewrite app_nil_r. unfold below.
    apply map_upto_ext. intros k Hk. f_equal. apply mask_test; [exact Hd|].
    change (Z.of_nat 8) with 8 in Hk. lia.
Qed.

End EmitsBytes.

(** X1. [DS18B20_writeData] sends a byte least significant bit first. On
    any bus, for a byte value [data], what the master does on the pin is
    exactly eight write slots, slot [k] being a write-1 slot (5 us low, 60 us
    released) when bit [k] of [data] is set and a write-0 slot (60 us low,
    5 us released) otherwise; the call returns 0. *)
Theorem writeData_sends_bits_lsb_first {W : Type} {hal : HAL W}
    (data : Z) (w : W) (log : list Event) :
  0 <= data < 256 ->
  DS18B20_writeData data ((w, log) : W * list Event) =
    (0, (snd (DS18B20_writeData data w),
         log ++ slots_events (map (fun k => SlotWrite (Z.testbit data k)) (below 8)))).
Proof.
  intros Hd. rewrite (emits_writeData data Hd w log). f_equal.
  unfold DS18B20_writeData. rewrite bind_unfold. reflexivity.
Qed.

Lemma writeData_sends_bits_lsb_first_witness :
  DS18B20_writeData SEARCH_ROM ((SimBus.bus [], []) : SimBus.t * list Event) =
    (0, (snd (DS18B20_writeData SEARCH_ROM (SimBus.bus [])),
         [] ++ slots_events (map (fun k => SlotWrite (Z.testbit SEARCH_ROM k)) (below 8)))).
Proof.
  apply (writeData_sends_bits_lsb_first SEARCH_ROM (SimBus.bus []) []).
  unfold SEARCH_ROM. lia.
Defined.

(** X2. [DS18B20_readByte] assembles eight samples least significant bit
    first: it takes exactly eight samples of the line and returns the sum of
    [2^k] over the samples [k] that were high. *)
Theorem readByte_assembles_samples_lsb_first (samples rest : list GPIO_PinState) :
  length samples = 8%nat ->
  DS18B20_readByte (samples ++ rest : ScriptBus.t) = (lsb_first_value samples, rest).
Proof.
  intros Hlen.
  destruct samples as [|s0 [|s1 [|s2 [|s3 [|s4 [|s5 [|s6 [|s7 [|? ?]]]]]]]]];
    try discriminate Hlen.
  destruct s0, s1, s2, s3, s4, s5, s6, s7; reflexivity.
Qed.

Lemma readByte_assembles_samples_lsb_first_witness :
  DS18B20_readByte (ScriptBus.bits_of 8 0xA5 ++ [GPIO_PIN_RESET] : ScriptBus.t) =
  (lsb_first_value (ScriptBus.bits_of 8 0xA5), [GPIO_PIN_RESET]).
Proof.
  apply (readByte_assembles_samples_lsb_first (ScriptBus.bits_of 8 0xA5) [GPIO_PIN_RESET]).
  reflexivity.
Defined.

(** ** Slots and results of composed operations *)

Section Traces.
Context {W : Type} {hal : HAL W}.

Lemma traces_ret {A : Type} (a : A) :
  traces (W := W) (ret a) (fun s x => s = [] /\ x = a).
Proof. intros w l. exists [], a, w. cbn. rewrite app_nil_r. auto. Qed.

Lemma traces_bind {A B : Type} (cl : M (W * list Event) A)
    (kl : A -> M (W * list Event) B)
    (R1 : list Slot -> A -> Prop) (R : list Slot -> B -> Prop) :
  traces cl R1 ->
  (forall s1 a, R1 s1 a -> traces (kl a) (fun s2 b => R (s1 ++ s2) b)) ->
  traces (bind cl kl) R.
Proof.
  intros H1 H2 w l. destruct (H1 w l) as (s1 & a & w1 & Heq1 & HR1).
  destruct (H2 s1 a HR1 w1 (l ++ slots_events s1)) as (s2 & b & w2 & Heq2 & HR2).
  exists (s1 ++ s2), b, w2. split; [|exact HR2].
  rewrite bind_unfold, Heq1. cbn [fst snd]. rewrite Heq2.
  now rewrite slots_events_app, app_assoc.
Qed.

Lemma traces_weaken {A : Type} (cl : M (W * list Event) A)
    (R R' : list Slot -> A -> Prop) :
  traces cl R -> (forall s a, R s a -> R' s a) -> traces cl R'.
Proof.
  intros H Hw w l. destruct (H w l) as (s & a & w' & Heq & HR).
  exists s, a, w'. auto.
Qed.

Lemma traces_of_emits {A : Type} (cl : M (W * list Event) A) (c : M W A)
    (f : W -> list Slot) :
  emits cl c f -> traces cl (fun s a => exists w, s = f w /\ a = fst (c w)).
Proof.
  intros H w l. exists (f w), (fst (c w)), (snd (c w)). split; [apply H|eauto].
Qed.

Lemma traces_Start :
  traces (W := W) DS18B20_Start (fun s _ => map kind s = [KReset]).
Proof.
  eapply traces_weaken; [apply (traces_of_emits _ _ _ emits_Start)|].
  intros s a (w & -> & _). reflexivity.
Qed.

Lemma traces_read :
  traces (W := W) DS18B20_read
    (fun s a => exists lv, s = [SlotRead lv] /\ a = sample_bit lv).
Proof.
  eapply traces_weaken; [apply (traces_of_emits _ _ _ emits_read)|].
  intros s a (w & -> & ->). cbv beta.
  assert (Hbit : fst (DS18B20_read w) = 0 \/ fst (DS18B20_read w) = 1).
  { unfold DS18B20_read, bind, WritePin, DS18B20_delay, act, ret.
    destruct (HAL_GPIO_ReadPin _) as [[|] ?]; cbn; auto. }
  destruct Hbit as [-> | ->]; eexists; split; reflexivity.
Qed.

Lemma traces_writeData (data : Z) :
  0 <= data < 256 ->
  traces (W := W) (DS18B20_writeData data)
    (fun s _ => map kind s = byte_kinds data).
Proof.
  intros Hd.
  eapply traces_weaken; [apply (traces_of_emits _ _ _ (emits_writeData data Hd))|].
  intros s a (w & -> & _). unfold byte_kinds. rewrite map_map. reflexivity.
Qed.

Lemma traces_readByte_loop (n : nat) (i value : Z) :
  traces (W := W) (DS18B20_readByte_loop n i value)
    (fun s _ => map kind s = repeat KRead n).
Proof.
  revert i value. induction n as [|n IH]; intros i value.
  - eapply traces_weaken; [apply traces_ret|]. intros s a [-> _]. reflexivity.
  - cbn [DS18B20_readByte_loop]. eapply traces_bind; [apply traces_read|].
    intros s1 a (lv & -> & _).
    eapply traces_weaken; [apply IH|].
    intros s2 b Hs2. cbn. now rewrite Hs2.
Qed.

Lemma ROM_byte_code (code i : Z) :
  0 <= code -> 0 <= i < 8 ->
  uint8 (Z.land (Z.shiftr code (8 * (7 - i))) 0xFF) = ROM_byte code i.
Proof.
  intros Hc Hi. unfold ROM_byte.
  change 0xFF with (Z.ones 8). rewrite Z.land_ones by lia.
  rewrite Z.shiftr_div_pow2 by lia. change (2 ^ 8) with 256.
  unfold uint8. apply Z.mod_mod. lia.
Qed.

Lemma traces_send_ROM_code (code : Z) (n : nat) (i : Z) :
  0 <= code -> 0 <= i -> i + Z.of_nat n <= 8 ->
  traces (W := W) (send_ROM_code n i code)
    (fun s _ => map kind s =
                concat (map (fun k => byte_kinds (ROM_byte code k)) (upto n i))).
Proof.
  intros Hc. revert i. induction n as [|n IH]; intros i Hi Hn.
  - eapply traces_weaken; [apply traces_ret|]. intros s a [-> _]. reflexivity.
  - cbn [send_ROM_code upto map concat]. cbv zeta.
    eapply traces_bind; [apply traces_writeData; apply uint8_range|].
    intros s1 a Hs1.
    eapply traces_weaken; [apply (IH (i + 1)); lia|].
    intros s2 b Hs2. rewrite map_app, Hs1, Hs2.
    rewrite ROM_byte_code by lia. reflexivity.
Qed.

End Traces.

Section GetTempTrace.
Context {W : Type} {hal : HAL W}.

Lemma command_bytes : 0 <= MATCH_ROM < 256 /\ 0 <= CONVERT_T < 256 /\
                      0 <= READ_SCRATCHPAD < 256 /\ 0 <= SEARCH_ROM < 256.
Proof. unfold MATCH_ROM, CONVERT_T, READ_SCRATCHPAD, SEARCH_ROM. lia. Qed.

Lemma traces_GetTemp_loop (codes : list Z) :
  Forall (fun c => 0 < c) codes ->
  forall (pre rest : list Z) (fuel : nat) (temps : list (Z * Z)),
    (length pre + length codes < 256)%nat ->
    (length codes < fuel)%nat ->
    traces (W := W)
      (DS18B20_GetTemp_loop fuel (Z.of_nat (length pre))
         (pre ++ codes ++ 0 :: rest) temps)
      (fun s r =>
         map kind s = concat (map transaction_kinds codes) /\
         fst r = Returned 0 /\
         exists Ts, length Ts = length codes /\
           snd r = temps ++
                   combine (map Z.of_nat (seq (length pre) (length codes))) Ts).
Proof.
  destruct command_bytes as (Hm & Hc & Hr & _).
  induction 1 as [|code codes Hcode Hcodes IH]; intros pre rest fuel temps Hlen Hfuel.
  - destruct fuel as [|fuel]; [cbn in Hfuel; lia|].
    cbn [DS18B20_GetTemp_loop app]. rewrite Nat2Z.id.
    rewrite nth_error_app2, Nat.sub_diag by lia. cbn [nth_error].
    change (0 =? 0) with true. cbv iota.
    eapply traces_weaken; [apply traces_ret|].
    intros s a [-> ->]. cbn. split; [reflexivity|]. split; [reflexivity|].
    exists []. now rewrite app_nil_r.
  - destruct fuel as [|fuel]; [cbn in Hfuel; lia|].
    cbn [DS18B20_GetTemp_loop]. rewrite Nat2Z.id.
    rewrite nth_error_app2, Nat.sub_diag by lia. cbn [nth_error app].
    destruct (Z.eqb_spec code 0) as [|_]; [lia|].
    eapply traces_bind; [apply traces_Start|]. intros s1 a1 Hs1.
    eapply traces_bind; [apply (traces_writeData _ Hm)|]. intros s2 a2 Hs2.
    eapply traces_bind; [apply (traces_send_ROM_code code 8 0); lia|]. intros s3 a3 Hs3.
    eapply traces_bind; [apply (traces_writeData _ Hc)|]. intros s4 a4 Hs4.
    eapply traces_bind; [apply traces_Start|]. intros s5 a5 Hs5.
    eapply traces_bind; [apply (traces_writeData _ Hm)|]. intros s6 a6 Hs6.
    eapply traces_bind; [apply (traces_send_ROM_code code 8 0); lia|]. intros s7 a7 Hs7.
    eapply traces_bind; [apply (traces_writeData _ Hr)|]. intros s8 a8 Hs8.
    eapply traces_bind; [apply (traces_readByte_loop 8 0 0)|]. intros s9 b1 Hs9.
    eapply traces_bind; [apply (traces_readByte_loop 8 0 0)|]. intros s10 b2 Hs10.
    assert (Hcount : uint8 (Z.of_nat (length pre) + 1) = Z.of_nat (length (pre ++ [code]))).
    { rewrite length_app. cbn [length]. rewrite uint8_small; cbn in Hlen; lia. }
    rewrite Hcount.
    replace (pre ++ code :: codes ++ 0 :: rest)
      with ((pre ++ [code]) ++ codes ++ 0 :: rest)
      by (rewrite <- app_assoc; reflexivity).
    eapply traces_weaken.
    { apply (IH (pre ++ [code]) rest fuel
               (temps ++ [(Z.of_nat (length pre), Temperature_of b1 b2)])).
      - rewrite length_app. cbn [length] in *. lia.
      - cbn [length] in Hfuel. lia. }
    intros s r (Hs & Hout & Ts & HTs & Hsnd). split; [|split].
    + rewrite !map_app, Hs1, Hs2, Hs3, Hs4, Hs5, Hs6, Hs7, Hs8, Hs9, Hs10, Hs.
      cbn [map concat]. unfold transaction_kinds, code_kinds, below.
      rewrite <- !app_assoc. reflexivity.
    + exact Hout.
    + exists (Temperature_of b1 b2 :: Ts). split; [cbn; lia|].
      rewrite Hsnd, <- app_assoc. rewrite length_app. cbn [length seq map combine app].
      rewrite Nat.add_1_r. reflexivity.
Qed.

End GetTempTrace.

(** X3. [DS18B20_GetTemp] walks the array from index 0 up to the first zero
    entry. For fewer than 256 non-zero codes followed by a zero it returns 0,
    stores one temperature per code at the indices 0, 1, ... in order, and on
    the bus performs for each code in turn: reset, MATCH_ROM, the eight bytes
    of the code most significant first, CONVERT_T, reset, MATCH_ROM, the same
    eight bytes, READ_SCRATCHPAD and sixteen read slots. What follows the
    zero entry is not read. *)
Theorem GetTemp_queries_codes_in_order_up_to_terminator
    {W : Type} {hal : HAL W} (codes rest : list Z) (fuel : nat)
    (w : W) (log : list Event) :
  Forall (fun c => 0 < c) codes ->
  (length codes < 256)%nat ->
  (length codes < fuel)%nat ->
  exists slots Ts w',
    DS18B20_GetTemp fuel (codes ++ 0 :: rest) ((w, log) : W * list Event) =
      ((Returned 0, combine (map Z.of_nat (seq 0 (length codes))) Ts),
       (w', log ++ slots_events slots)) /\
    map kind slots = concat (map transaction_kinds codes) /\
    length Ts = length codes.
Proof.
  intros Hcodes Hlen Hfuel. unfold DS18B20_GetTemp.
  destruct (traces_GetTemp_loop codes Hcodes [] rest fuel [] Hlen Hfuel w log)
    as (slots & [out temps] & w' & Heq & Hkinds & Hout & Ts & HTs & Htemps).
  cbn [fst snd length app] in *. subst out temps.
  exists slots, Ts, w'. auto.
Qed.

Lemma GetTemp_queries_codes_in_order_up_to_terminator_witness :
  exists slots Ts w',
    DS18B20_GetTemp 3 ([address_value rom_01; address_value rom_02] ++ 0 :: [7])
        ((SimBus.bus [], []) : SimBus.t * list Event) =
      ((Returned 0, combine (map Z.of_nat (seq 0 2)) Ts),
       (w', [] ++ slots_events slots)) /\
    map kind slots =
      concat (map transaction_kinds [address_value rom_01; address_value rom_02]) /\
    length Ts = 2%nat.
Proof.
  apply (GetTemp_queries_codes_in_order_up_to_terminator
           [address_value rom_01; address_value rom_02] [7] 3 (SimBus.bus []) []).
  - repeat constructor.
  - cbn. lia.
  - cbn. lia.
Defined.

Section GetTempBounds.
Context {W : Type} {hal : HAL W}.

Lemma GetTemp_loop_no_terminator (codes : list Z) :
  Forall (fun c => c <> 0) codes ->
  forall (pre : list Z) (fuel : nat) (temps : list (Z * Z)) (w : W),
    (length pre + length codes < 256)%nat ->
    (length codes < fuel)%nat ->
    exists added,
      fst (DS18B20_GetTemp_loop fuel (Z.of_nat (length pre)) (pre ++ codes) temps w) =
        (OutOfBounds, temps ++ added) /\
      length added = length codes.
Proof.
  induction 1 as [|code codes Hcode Hcodes IH]; intros pre fuel temps w Hlen Hfuel.
  - destruct fuel as [|fuel]; [cbn in Hfuel; lia|].
    cbn [DS18B20_GetTemp_loop]. rewrite Nat2Z.id, app_nil_r.
    rewrite (proj2 (nth_error_None pre (length pre))) by lia.
    exists []. cbn. now rewrite app_nil_r.
  - destruct fuel as [|fuel]; [cbn in Hfuel; lia|].
    assert (Hnth : nth_error (pre ++ code :: codes) (Z.to_nat (Z.of_nat (length pre)))
                   = Some code).
    { rewrite Nat2Z.id, nth_error_app2, Nat.sub_diag by lia. reflexivity. }
    destruct (GetTemp_loop_step fuel _ code _ temps w Hnth Hcode) as (T & w' & Hstep).
    rewrite Hstep.
    assert (Hcount : uint8 (Z.of_nat (length pre) + 1) = Z.of_nat (length (pre ++ [code]))).
    { rewrite length_app. cbn [length]. rewrite uint8_small; cbn in Hlen; lia. }
    rewrite Hcount.
    replace (pre ++ code :: codes) with ((pre ++ [code]) ++ codes)
      by (rewrite <- app_assoc; reflexivity).
    destruct (IH (pre ++ [code]) fuel (temps ++ [(Z.of_nat (length pre), T)]) w')
      as (added & Heq & Hadded).
    + rewrite length_app. cbn [length] in *. lia.
    + cbn [length] in Hfuel. lia.
    + exists ((Z.of_nat (length pre), T) :: added).
      rewrite Heq, <- app_assoc. split; [reflexivity|]. cbn; lia.
Qed.

End GetTempBounds.

(** X4. The zero entry is the only end mark. When every entry of the array
    is non-zero (fewer than 256 entries), [DS18B20_GetTemp] stores one
    temperature for each entry and then reads the array past its last
    element. *)
Theorem GetTemp_without_terminator_reads_past_the_array
    {W : Type} {hal : HAL W} (codes : list Z) (fuel : nat) (w : W) :
  Forall (fun c => c <> 0) codes ->
  (length codes < 256)%nat ->
  (length codes < fuel)%nat ->
  exists temps,
    fst (DS18B20_GetTemp fuel codes w) = (OutOfBounds, temps) /\
    length temps = length codes.
Proof.
  intros Hcodes Hlen Hfuel. unfold DS18B20_GetTemp.
  destruct (GetTemp_loop_no_terminator codes Hcodes [] fuel [] w Hlen Hfuel)
    as (added & Heq & Hadded).
  exists added. cbn [length app] in Heq. auto.
Qed.

Lemma GetTemp_without_terminator_reads_past_the_array_witness :
  exists temps,
    fst (DS18B20_GetTemp 3 [address_value rom_01; address_value rom_02]
           (SimBus.bus [])) = (OutOfBounds, temps) /\
    length temps = 2%nat.
Proof.
  apply (GetTemp_without_terminator_reads_past_the_array
           [address_value rom_01; address_value rom_02] 3 (SimBus.bus [])).
  - repeat constructor; vm_compute; discriminate.
  - cbn. lia.
  - cbn. lia.
Defined.

(** ** The search loop, slot by slot, on any bus *)

Lemma switch_reading_written (r p local v local' : Z)
    (state : onewire_search_state_t) :
  bytes8 (address state) -> 0 <= p < 64 ->
  switch_reading r p state local = Some (v, local') ->
  bit_written (address state) p v (negb (v =? 0)).
Proof.
  intros Hcur Hp. unfold switch_reading.
  destruct (Z.eqb_spec r kZero) as [->|_].
  { cbn. intros H. injection H as <- _. left. auto. }
  destruct (Z.eqb_spec r kOne) as [->|_].
  { cbn. intros H. injection H as <- _. right; left. auto. }
  cbn [orb]. destruct (r =? kConflict); [|discriminate].
  intros H. injection H as <- _.
  destruct (p =? last_zero_branch state); [right; left; auto|].
  destruct (p <? last_zero_branch state); [|left; auto].
  fold (replay_mask (address state) p).
  destruct (write_mask_bits (address state) p p Hcur Hp Hp) as [Hv _].
  fold (replay_mask (address state) p) in Hv.
  destruct (Z.eqb_spec (replay_mask (address state) p) 0) as [Hz|Hnz].
  - rewrite Hz. left. auto.
  - right; right. repeat split; auto.
    destruct (addr_bit (address state) p); [reflexivity|discriminate Hv].
Qed.

Section SearchTrace.
Context {W : Type} {hal : HAL W}.

Lemma traces_write_bit (v : Z) :
  traces (W := W) (if v =? 0 then DS18B20_write0 else DS18B20_write1)
    (fun s _ => s = [SlotWrite (negb (v =? 0))]).
Proof.
  destruct (v =? 0); cbn [negb].
  - eapply traces_weaken; [apply (traces_of_emits _ _ _ emits_write0)|].
    intros s a (w & -> & _). reflexivity.
  - eapply traces_weaken; [apply (traces_of_emits _ _ _ emits_write1)|].
    intros s a (w & -> & _). reflexivity.
Qed.

Lemma traces_searchNext_bit (p local : Z) (state : onewire_search_state_t) :
  traces (W := W) (searchNext_bit p local state)
    (fun s res =>
       match res with
       | None => map kind s = [KRead; KRead]
       | Some (v, local', state') =>
           map kind s = [KRead; KRead; KWrite (negb (v =? 0))] /\
           state' = set_address state
                      (address_write_bit (address state) (p / 8) (p mod 8) v) /\
           exists r, switch_reading r p state local = Some (v, local')
       end).
Proof.
  unfold searchNext_bit.
  eapply traces_bind; [apply traces_read|]. intros s1 r1 (lv1 & -> & _).
  eapply traces_bind; [apply traces_read|]. intros s2 r2 (lv2 & -> & _).
  cbv zeta.
  destruct (switch_reading _ p state local) as [[v local']|] eqn:Hsw.
  - eapply traces_bind; [apply traces_write_bit|]. intros s3 a3 ->.
    eapply traces_weaken; [apply traces_ret|]. intros s4 a4 [-> ->].
    split; [reflexivity|]. split; [reflexivity|]. eauto.
  - eapply traces_weaken; [apply traces_ret|]. intros s4 a4 [-> ->]. reflexivity.
Qed.

Lemma traces_searchNext_loop (n : nat) :
  forall (p local : Z) (state : onewire_search_state_t),
    bytes8 (address state) -> 0 <= p -> p + Z.of_nat n <= 64 ->
    traces (W := W) (searchNext_loop n p local state)
      (fun s res =>
         let '(completed, _, state') := res in
         completed = true ->
         map kind s = search_kinds (address state') n p /\
         bytes8 (address state') /\
         forall j, 0 <= j < p -> addr_bit (address state') j = addr_bit (address state) j).
Proof.
  induction n as [|n IH]; intros p local state Hcur Hp Hn.
  - cbn [searchNext_loop]. eapply traces_weaken; [apply traces_ret|].
    intros s a [-> ->]. intros _. cbn. auto.
  - cbn [searchNext_loop].
    eapply traces_bind; [apply traces_searchNext_bit|].
    intros s1 [[[v l1] st1]|] H1.
    + destruct H1 as (Hs1 & -> & r & Hsw).
      pose proof (switch_reading_written r p local v l1 state Hcur ltac:(lia) Hsw) as Hw.
      destruct (update_facts (address state) p v _ Hcur ltac:(lia) Hw)
        as (Hcur1 & Hbelow & Hat & _).
      eapply traces_weaken.
      { apply (IH (p + 1) l1); [exact Hcur1|lia|lia]. }
      intros s2 [[completed l2] st2] H2 Hc.
      destruct (H2 Hc) as (Hs2 & Hcur2 & Hkeep).
      cbn [set_address address] in Hkeep.
      split; [|split; [exact Hcur2|]].
      * rewrite map_app, Hs1, Hs2. unfold search_kinds. cbn [upto map concat app].
        rewrite (Hkeep p) by lia. rewrite Hat. reflexivity.
      * intros j Hj. rewrite Hkeep by lia. apply Hbelow, Hj.
    + eapply traces_weaken; [apply traces_ret|].
      intros s2 a2 [-> ->]. intros Habs. discriminate Habs.
Qed.

End SearchTrace.

(** X5. In a run of the loop of [searchNext] that goes through all 64
    positions, each position is two read slots followed by one write slot,
    and the bit written on the bus at a position is the bit that the address
    buffer holds at that position when the loop ends; the buffer is still
    eight bytes. This holds on any bus and from any state whose buffer is
    eight bytes. *)
Theorem complete_cycle_holds_the_bits_written
    {W : Type} {hal : HAL W} (state : onewire_search_state_t)
    (w : W) (log : list Event) :
  bytes8 (address state) ->
  exists slots completed local state' w',
    searchNext_loop 64 0 (-1) state ((w, log) : W * list Event) =
      ((completed, local, state'), (w', log ++ slots_events slots)) /\
    (completed = true ->
     map kind slots = search_kinds (address state') 64 0 /\
     bytes8 (address state')).
Proof.
  intros Hcur.
  destruct (traces_searchNext_loop 64 0 (-1) state Hcur ltac:(lia) ltac:(cbn; lia) w log)
    as (slots & [[completed local] state'] & w' & Heq & Hpost).
  exists slots, completed, local, state', w'. split; [exact Heq|].
  intros Hc. destruct (Hpost Hc) as (Hk & Hb & _). auto.
Qed.

Lemma complete_cycle_holds_the_bits_written_witness :
  exists slots completed local state' w',
    searchNext_loop 64 0 (-1) onewireSearchInit
        ((repeat GPIO_PIN_RESET 128, []) : ScriptBus.t * list Event) =
      ((completed, local, state'), (w', [] ++ slots_events slots)) /\
    (completed = true ->
     map kind slots = search_kinds (address state') 64 0 /\
     bytes8 (address state')).
Proof.
  apply (complete_cycle_holds_the_bits_written onewireSearchInit
           (repeat GPIO_PIN_RESET 128 : ScriptBus.t) []).
  split; [reflexivity|]. repeat constructor; unfold is_byte; lia.
Defined.

(** ** Completeness on small buses *)

Lemma sim_loop_unanimous (roms : list Z) (n : nat) :
  forall (p local : Z) (state : onewire_search_state_t) (w : SimBus.t)
         (alive : list Z),
    Z.of_nat n + p = 64 -> 0 <= p ->
    quiet w roms (phase_at p alive) ->
    bytes8 (address state) ->
    alive_ok roms alive (address state) p ->
    last_zero_branch state = -1 ->
    (local = -1 -> forall r, In r roms -> agree r (address state) p) ->
    exists local' state' w',
      searchNext_loop n p local state w = ((true, local', state'), w') /\
      (local' = -1 -> forall r, In r roms -> agree r (address state') 64).
Proof.
  induction n as [|n IH]; intros p local state w alive Hn Hp0 Hq Hcur Halive Hlzb Hall.
  - assert (p = 64) as -> by lia.
    exists local, state, w. split; [reflexivity|exact Hall].
  - assert (Hp : 0 <= p < 64) by lia.
    unfold phase_at in Hq. destruct (Z.eqb_spec p 64) as [|_]; [lia|].
    destruct (sim_step roms state w p local alive Hq Hp Hcur (proj2 Halive))
      as (v & local1 & w1 & c & Hbit & Hq1 & Hwritten & Hsome & Hchoice).
    destruct (update_facts (address state) p v c Hcur Hp Hwritten)
      as (Hcur1 & Hbelow & Hat & Habove).
    set (cur1 := address_write_bit (address state) (p / 8) (p mod 8) v) in *.
    assert (Hq1' : quiet w1 roms (phase_at (p + 1) (SimBus.select c p alive))).
    { unfold phase_at. destruct (Z.eqb_spec p 63); destruct (Z.eqb_spec (p + 1) 64);
        try lia; exact Hq1. }
    assert (Halive1 : alive_ok roms (SimBus.select c p alive) cur1 (p + 1))
      by (eapply alive_ok_step; eassumption).
    assert (Hall1 : local1 = -1 -> forall r, In r roms -> agree r cur1 (p + 1)).
    { intros Hl1 r Hr.
      destruct Hchoice as [[Hsame ->]|(_ & _ & Hl & Hcases)].
      - specialize (Hall Hl1 r Hr).
        eapply (agree_next (address state) cur1 p c); try eassumption.
        split; [exact Hall|]. apply Hsame. apply (proj1 Halive). auto.
      - exfalso. rewrite Hlzb in Hcases.
        destruct Hcases as [[Heq _]|[[Hlt _]|[_ Hc]]]; try lia.
        subst c. lia. }
    destruct (IH (p + 1) local1 (set_address state cur1) w1
                (SimBus.select c p alive) ltac:(lia) ltac:(lia) Hq1' Hcur1
                Halive1 Hlzb Hall1)
      as (local' & state' & w' & Hloop & Hfinal).
    exists local', state', w'. split; [|exact Hfinal].
    cbn [searchNext_loop]. rewrite bind_unfold, Hbit. cbn [fst snd]. exact Hloop.
Qed.

(** The first cycle sets [done] only when every device has the code found. *)
Lemma first_cycle_done (roms : list Z) (state : onewire_search_state_t)
    (w : SimBus.t) (ph : SimBus.Phase) :
  valid_roms roms ->
  quiet w roms ph ->
  done state = false ->
  last_zero_branch state = -1 ->
  bytes8 (address state) ->
  done (snd (fst (searchDevices SEARCH_ROM state w))) = true ->
  forall r, In r roms ->
    r = address_value (address (snd (fst (searchDevices SEARCH_ROM state w)))).
Proof.
  intros [Hne Hvalid] Hq Hdone Hlzb Hcur.
  unfold searchDevices. rewrite Hdone, bind_unfold.
  destruct (sim_Start w roms ph Hq Hne) as (w1 & Hstart & Hq1).
  rewrite Hstart. cbn [fst snd]. change (1 =? 0) with false. cbv iota.
  rewrite bind_unfold.
  destruct (sim_search_command w1 roms Hq1) as (w2 & Hcmd & Hq2).
  rewrite Hcmd. cbn [fst snd].
  unfold searchNext. rewrite bind_unfold.
  assert (Halive0 : alive_ok roms roms (address state) 0).
  { split.
    - intros r. split; [intros Hin; split; [exact Hin|intros j Hj; lia]|tauto].
    - destruct roms as [|r roms']; [congruence|]. exists r. now left. }
  destruct (sim_loop_unanimous roms 64 0 (-1) state w2 roms eq_refl ltac:(lia)
              Hq2 Hcur Halive0 Hlzb) as (local' & state' & w' & Hloop & Hfinal).
  { intros _ r _ j Hj. lia. }
  destruct (sim_loop roms (address state) (-1) 64 0 (-1) state w2 roms eq_refl
              ltac:(lia) Hq2 Hcur Halive0 (or_introl eq_refl))
    as (l2 & cur2 & w2' & alive2 & Hloop2 & _ & Hcur2 & _).
  rewrite Hloop2 in Hloop. injection Hloop as <- <- <-.
  rewrite Hloop2. cbn [fst snd].
  assert (Hst : done (set_address state cur2) = false) by exact Hdone.
  destruct (Z.eqb_spec l2 (-1)) as [Hl|Hl]; cbn [fst snd].
  - intros _ r Hr. cbn [set_done set_address address].
    symmetry. apply agree_all_value; try assumption.
    + rewrite Forall_forall in Hvalid. apply Hvalid, Hr.
    + apply (Hfinal Hl r Hr).
  - unfold set_last_zero_branch, set_address. cbn. rewrite Hdone. discriminate.
Qed.

(** X6. Two devices are both found. On a simulated bus that carries
    exactly two distinct 64-bit codes, two search cycles from the freshly
    initialised state yield both codes, the one that is first in
    least-significant-bit-first order first, and the second cycle sets
    [done]. *)
Theorem two_devices_are_both_found (a b : Z) (roms : list Z) :
  0 <= a < 2 ^ 64 -> 0 <= b < 2 ^ 64 -> a <> b ->
  In a roms -> In b roms -> (forall r, In r roms -> r = a \/ r = b) ->
  exists x y state w',
    search_cycles 2 onewireSearchInit (SimBus.bus roms) = ([x; y], state, w') /\
    ((x = a /\ y = b) \/ (x = b /\ y = a)) /\
    lsb_first_lt x y /\
    done state = true.
Proof.
  intros Ha Hb Hab Hina Hinb Honly.
  assert (Hvalid : valid_roms roms).
  { split; [intros ->; contradiction|].
    apply Forall_forall. intros r Hr. destruct (Honly r Hr); subst; assumption. }
  assert (Hq : quiet (SimBus.bus roms) roms SimBus.Idle) by (repeat split).
  assert (Hcur : bytes8 (address onewireSearchInit)).
  { split; [reflexivity|]. repeat constructor; unfold is_byte; lia. }
  destruct (sim_cycle roms onewireSearchInit (SimBus.bus roms) SimBus.Idle
              Hvalid Hq eq_refl Hcur)
    as (state1 & w1 & Hcycle1 & Hq1 & Hcur1 & Hin1 & Hnext1 & _).
  pose proof (first_cycle_done roms onewireSearchInit (SimBus.bus roms)
                SimBus.Idle Hvalid Hq eq_refl eq_refl Hcur) as Hfirst.
  rewrite Hcycle1 in Hfirst. cbn [fst snd] in Hfirst.
  destruct Hnext1 as [Hd1|[Hd1 Hentry1]].
  { exfalso. apply Hab.
    rewrite (Hfirst Hd1 a Hina), (Hfirst Hd1 b Hinb). reflexivity. }
  destruct (sim_cycle roms state1 w1 SimBus.Idle Hvalid Hq1 Hd1 Hcur1)
    as (state2 & w2 & Hcycle2 & Hq2 & Hcur2 & Hin2 & Hnext2 & Hlt).
  specialize (Hlt Hentry1).
  set (x := address_value (address state1)) in *.
  set (y := address_value (address state2)) in *.
  assert (Hxy : x <> y) by (intros E; rewrite E in Hlt; exact (lsb_first_lt_irrefl _ Hlt)).
  exists x, y, state2, w2.
  split.
  { apply (search_cycles_step 1 _ state1 state2 _ w1 w2 [y]); [exact Hcycle1|].
    apply (search_cycles_step 0 _ state2 state2 _ w2 w2 []); [exact Hcycle2|reflexivity]. }
  split.
  { destruct (Honly x Hin1), (Honly y Hin2); subst; auto; congruence. }
  split; [exact Hlt|].
  destruct Hnext2 as [Hd2|[Hd2 Hentry2]]; [exact Hd2|exfalso].
  destruct (entry_ok_has_ahead roms _ _ Hcur2 Hentry2) as (r & Hr & Hr2).
  fold y in Hr2.
  assert (Hcase : r = x \/ r = y).
  { destruct (Honly x Hin1), (Honly y Hin2), (Honly r Hr); subst; auto; congruence. }
  destruct Hcase as [->| ->].
  - apply (lsb_first_lt_irrefl x). eapply lsb_first_lt_trans; eassumption.
  - exact (lsb_first_lt_irrefl _ Hr2).
Qed.

Lemma two_devices_are_both_found_witness :
  exists x y state w',
    search_cycles 2 onewireSearchInit
      (SimBus.bus [address_value rom_02; address_value rom_00]) = ([x; y], state, w') /\
    ((x = address_value rom_02 /\ y = address_value rom_00) \/
     (x = address_value rom_00 /\ y = address_value rom_02)) /\
    lsb_first_lt x y /\
    done state = true.
Proof.
  apply (two_devices_are_both_found (address_value rom_02) (address_value rom_00)).
  - vm_compute. split; [discriminate|reflexivity].
  - vm_compute. split; [discriminate|reflexivity].
  - vm_compute. discriminate.
  - now left.
  - right. now left.
  - intros r [<-|[<-|[]]]; auto.
Defined.

(** ** CRC: what [addressValid] detects *)

Lemma crc8_table_injective (i j : Z) :
  0 <= i < 256 -> 0 <= j < 256 ->
  load_byte crc8_table i = load_byte crc8_table j -> i = j.
Proof.
  intros Hi Hj Heq.
  pose proof (check_below2 table_injective_check 256 256
                ltac:(vm_compute; reflexivity) i j Hi Hj) as Hc.
  unfold table_injective_check in Hc. rewrite Heq, Z.eqb_refl in Hc.
  apply Z.eqb_eq, Hc.
Qed.

Lemma xor_byte_range (x c : Z) :
  0 <= x < 256 -> 0 <= c < 256 -> 0 <= Z.lxor x c < 256.
Proof.
  intros Hx Hc.
  pose proof (check_below2 xor_byte_check 256 256
                ltac:(vm_compute; reflexivity) x c Hx Hc) as H.
  unfold xor_byte_check in H. apply andb_prop in H. destruct H as [H1 H2].
  apply Z.leb_le in H1. apply Z.ltb_lt in H2. lia.
Qed.

Lemma crcGenerator_injective (c c' x x' : Z) :
  is_byte c -> is_byte c' -> is_byte x -> is_byte x' ->
  crcGenerator c x = crcGenerator c' x' -> Z.lxor x c = Z.lxor x' c'.
Proof.
  unfold is_byte, crcGenerator. intros Hc Hc' Hx Hx' Heq. cbv zeta in Heq.
  pose proof (xor_byte_range x c Hx Hc) as H1.
  pose proof (xor_byte_range x' c' Hx' Hc') as H2.
  rewrite !uint8_small in Heq by assumption.
  apply crc8_table_injective; assumption.
Qed.

Lemma lxor_cancel_r (a b c : Z) : Z.lxor a c = Z.lxor b c -> a = b.
Proof.
  intros H.
  rewrite <- (Z.lxor_0_r a), <- (Z.lxor_0_r b), <- (Z.lxor_nilpotent c).
  rewrite <- !Z.lxor_assoc. now rewrite H.
Qed.

Lemma lxor_cancel_l (a b c : Z) : Z.lxor c a = Z.lxor c b -> a = b.
Proof. rewrite !(Z.lxor_comm c). apply lxor_cancel_r. Qed.

Lemma crc_fold_range (l : list Z) (c : Z) :
  is_byte c -> is_byte (fold_left crcGenerator l c).
Proof.
  revert c. induction l as [|x l IH]; intros c Hc; [exact Hc|].
  cbn [fold_left]. apply IH, crcGenerator_range.
Qed.

(** Two different running values stay different over the same bytes. *)
Lemma crc_fold_injective (l : list Z) :
  Forall is_byte l ->
  forall c c', is_byte c -> is_byte c' ->
    fold_left crcGenerator l c = fold_left crcGenerator l c' -> c = c'.
Proof.
  induction 1 as [|x l Hx Hl IH]; intros c c' Hc Hc' Heq; [exact Heq|].
  cbn [fold_left] in Heq.
  apply IH in Heq; try apply crcGenerator_range.
  apply crcGenerator_injective in Heq; try assumption.
  now apply lxor_cancel_l in Heq.
Qed.

Lemma crc_fold_one_byte (pre post : list Z) (x x' c : Z) :
  Forall is_byte pre -> Forall is_byte post -> is_byte x -> is_byte x' ->
  is_byte c ->
  fold_left crcGenerator (pre ++ x :: post) c =
    fold_left crcGenerator (pre ++ x' :: post) c ->
  x = x'.
Proof.
  intros Hpre Hpost Hx Hx' Hc Heq.
  rewrite !fold_left_app in Heq. cbn [fold_left] in Heq.
  apply crc_fold_injective in Heq; try assumption; try apply crcGenerator_range.
  apply crcGenerator_injective in Heq; try assumption;
    try (apply crc_fold_range; assumption).
  now apply lxor_cancel_r in Heq.
Qed.

Lemma addressValid_snoc (l : list Z) (c : Z) :
  length l = 7%nat ->
  addressValid (l ++ [c]) =
    if negb (fold_left crcGenerator l 0 =? c) then 1 else 0.
Proof.
  intros Hlen.
  destruct l as [|b0 [|b1 [|b2 [|b3 [|b4 [|b5 [|b6 [|? ?]]]]]]]];
    try discriminate Hlen.
  reflexivity.
Qed.

Lemma bytes8_snoc (a : list Z) :
  bytes8 a ->
  exists l c, a = l ++ [c] /\ length l = 7%nat /\ Forall is_byte l /\ is_byte c.
Proof.
  intros [Hlen Hb].
  destruct a as [|b0 [|b1 [|b2 [|b3 [|b4 [|b5 [|b6 [|b7 [|? ?]]]]]]]]];
    try discriminate Hlen.
  exists [b0; b1; b2; b3; b4; b5; b6], b7.
  split; [reflexivity|]. split; [reflexivity|].
  repeat match goal with
         | Hf : Forall _ (_ :: _) |- _ => inversion Hf; subst; clear Hf
         end.
  split; [|assumption].
  repeat (apply Forall_cons; [assumption|]). apply Forall_nil.
Qed.

(** [addressValid] as a test of the residue over all eight bytes. *)
Lemma addressValid_residue (a : list Z) :
  bytes8 a ->
  addressValid a = if fold_left crcGenerator a 0 =? 0 then 0 else 1.
Proof.
  intros Ha. destruct (bytes8_snoc a Ha) as (l & c & -> & Hlen & Hl & Hc).
  rewrite (addressValid_snoc l c Hlen), fold_left_app. cbn [fold_left].
  assert (Hz : is_byte 0) by (unfold is_byte; lia).
  pose proof (crc_fold_range l 0 Hz) as Hr.
  destruct (Z.eqb_spec (fold_left crcGenerator l 0) c) as [He|Hne]; cbn [negb].
  - rewrite He. unfold crcGenerator. rewrite Z.lxor_nilpotent. reflexivity.
  - destruct (Z.eqb_spec (crcGenerator (fold_left crcGenerator l 0) c) 0)
      as [H0|_]; [exfalso|reflexivity].
    apply Hne. change 0 with (crcGenerator 0 0) in H0 at 2.
    apply crcGenerator_injective in H0; try assumption.
    rewrite Z.lxor_0_r in H0. apply Z.lxor_eq in H0. congruence.
Qed.

(** X7. [addressValid] accepts exactly the addresses with CRC residue 0:
    for an address of eight bytes it returns 0 when running [crcGenerator]
    over all eight bytes from 0 gives 0, and 1 otherwise. *)
Theorem addressValid_accepts_exactly_the_zero_residue (a : list Z) :
  bytes8 a ->
  (addressValid a = 0 <-> fold_left crcGenerator a 0 = 0) /\
  (addressValid a = 1 <-> fold_left crcGenerator a 0 <> 0).
Proof.
  intros Ha. rewrite (addressValid_residue a Ha).
  destruct (Z.eqb_spec (fold_left crcGenerator a 0) 0) as [He|Hne].
  - split; split; intros H; try reflexivity; try discriminate; try assumption.
    contradiction.
  - split; split; intros H; try reflexivity; try discriminate; try assumption.
    contradiction.
Qed.

Lemma addressValid_accepts_exactly_the_zero_residue_witness :
  (addressValid rom_02 = 0 <-> fold_left crcGenerator rom_02 0 = 0) /\
  (addressValid rom_02 = 1 <-> fold_left crcGenerator rom_02 0 <> 0).
Proof.
  apply (addressValid_accepts_exactly_the_zero_residue rom_02).
  split; [reflexivity|]. repeat constructor; unfold is_byte; lia.
Defined.

(** X8. [addressValid] detects any corruption confined to one byte: if an
    address of eight bytes is accepted, every address that differs from it
    in exactly one byte (any of the eight, by any value) is rejected. *)
Theorem addressValid_detects_one_corrupted_byte (pre post : list Z) (x x' : Z) :
  bytes8 (pre ++ x :: post) -> is_byte x' -> x' <> x ->
  addressValid (pre ++ x :: post) = 0 ->
  addressValid (pre ++ x' :: post) = 1.
Proof.
  intros Ha Hx' Hne Hvalid.
  assert (Ha' : bytes8 (pre ++ x' :: post)).
  { destruct Ha as [Hlen Hb]. split.
    - rewrite length_app in *. exact Hlen.
    - apply Forall_app in Hb. destruct Hb as [Hp Hq]. inversion Hq; subst.
      apply Forall_app. split; [exact Hp|]. constructor; assumption. }
  assert (Hx : is_byte x /\ Forall is_byte pre /\ Forall is_byte post).
  { destruct Ha as [_ Hb]. apply Forall_app in Hb. destruct Hb as [Hp Hq].
    inversion Hq; subst. auto. }
  destruct Hx as (Hx & Hpre & Hpost).
  rewrite (addressValid_residue _ Ha) in Hvalid.
  rewrite (addressValid_residue _ Ha').
  destruct (Z.eqb_spec (fold_left crcGenerator (pre ++ x :: post) 0) 0)
    as [He|_]; [|discriminate Hvalid].
  destruct (Z.eqb_spec (fold_left crcGenerator (pre ++ x' :: post) 0) 0)
    as [He'|_]; [exfalso|reflexivity].
  apply Hne.
  symmetry. apply (crc_fold_one_byte pre post x x' 0); try assumption.
  - unfold is_byte; lia.
  - now rewrite He, He'.
Qed.

Lemma addressValid_detects_one_corrupted_byte_witness :
  addressValid ([0x28; 0x02] ++ 0x65 :: [0x1E; 0x0F; 0x2A; 0x01; 0x74]) = 1.
Proof.
  apply (addressValid_detects_one_corrupted_byte [0x28; 0x02]
           [0x1E; 0x0F; 0x2A; 0x01; 0x74] 0x64 0x65).
  - split; [reflexivity|]. repeat constructor; unfold is_byte; lia.
  - unfold is_byte; lia.
  - discriminate.
  - vm_compute. reflexivity.
Defined.

(** ** GetTemp: the uint8_t counter *)

Lemma map_upto_shift {A : Type} (f g : Z -> A) (n : nat) :
  forall a b, (forall k, 0 <= k -> f (a + k) = g (b + k)) ->
    map f (upto n a) = map g (upto n b).
Proof.
  induction n as [|n IH]; intros a b Hfg; [reflexivity|].
  cbn [upto map]. f_equal.
  - specialize (Hfg 0 ltac:(lia)). now rewrite !Z.add_0_r in Hfg.
  - apply IH. intros k Hk. specialize (Hfg (1 + k) ltac:(lia)).
    now rewrite !Z.add_assoc in Hfg.
Qed.

Section GetTempWrap.
Context {W : Type} {hal : HAL W}.

Lemma GetTemp_loop_wraps (first rest : list Z) :
  length first = 256%nat ->
  Forall (fun c => c <> 0) first ->
  forall (fuel : nat) (count : Z) (temps : list (Z * Z)) (w : W),
    0 <= count < 256 ->
    exists added,
      fst (DS18B20_GetTemp_loop fuel count (first ++ rest) temps w) =
        (OutOfFuel, temps ++ added) /\
      map fst added = map (fun k => uint8 (count + k)) (below fuel).
Proof.
  intros Hlen Hfirst. induction fuel as [|fuel IH]; intros count temps w Hcount.
  - exists []. cbn. now rewrite app_nil_r.
  - assert (Hlt : (Z.to_nat count < length first)%nat) by lia.
    destruct (nth_error first (Z.to_nat count)) as [code|] eqn:Hnth;
      [|apply nth_error_None in Hnth; lia].
    assert (Hcode : code <> 0).
    { rewrite Forall_forall in Hfirst. eapply Hfirst, nth_error_In, Hnth. }
    assert (Hnth' : nth_error (first ++ rest) (Z.to_nat count) = Some code)
      by (rewrite nth_error_app1 by exact Hlt; exact Hnth).
    destruct (GetTemp_loop_step fuel count code _ temps w Hnth' Hcode)
      as (T & w' & Hstep).
    rewrite Hstep.
    destruct (IH (uint8 (count + 1)) (temps ++ [(count, T)]) w' (uint8_range _))
      as (added & Heq & Hidx).
    exists ((count, T) :: added). rewrite Heq, <- app_assoc.
    split; [reflexivity|].
    cbn [map fst]. unfold below in *. cbn [upto map].
    rewrite Z.add_0_r, uint8_small by exact Hcount. f_equal.
    rewrite Hidx. apply map_upto_shift. intros k _.
    unfold uint8. rewrite Zplus_mod_idemp_l. f_equal. lia.
Qed.

End GetTempWrap.

(** X9. The entry counter of [DS18B20_GetTemp] is a [uint8_t]: when the
    first 256 entries of the array are non-zero the counter wraps to 0 before
    an end mark can be reached, and the loop never ends. Whatever the number
    of iterations allowed, the loop is still running after them, having
    stored one temperature per iteration at the indices 0, 1, ..., 255, 0,
    1, ... *)
Theorem GetTemp_with_256_codes_never_returns
    {W : Type} {hal : HAL W} (first rest : list Z) (fuel : nat) (w : W) :
  length first = 256%nat ->
  Forall (fun c => c <> 0) first ->
  exists temps,
    fst (DS18B20_GetTemp fuel (first ++ rest) w) = (OutOfFuel, temps) /\
    map fst temps = map uint8 (below fuel).
Proof.
  intros Hlen Hfirst. unfold DS18B20_GetTemp.
  destruct (GetTemp_loop_wraps first rest Hlen Hfirst fuel 0 [] w ltac:(lia))
    as (added & Heq & Hidx).
  exists added. split; [exact Heq|]. rewrite Hidx.
  apply map_ext. intros k. reflexivity.
Qed.

Lemma GetTemp_with_256_codes_never_returns_witness :
  exists temps,
    fst (DS18B20_GetTemp 258 (repeat 1 256 ++ [0]) (SimBus.bus [])) =
      (OutOfFuel, temps) /\
    map fst temps = map uint8 (below 258).
Proof.
  apply (GetTemp_with_256_codes_never_returns (repeat 1 256) [0] 258 (SimBus.bus [])).
  - apply repeat_length.
  - apply Forall_forall. intros c Hc. apply repeat_spec in Hc. subst c. discriminate.
Defined.

(** ** Pin discipline of the entry points *)

Lemma slot_discipline (x : Slot) (rest : list Event) :
  bus_discipline false (slot_events x ++ rest) = bus_discipline false rest.
Proof. destruct x as [s|s|[|]]; reflexivity. Qed.

Lemma slots_discipline (l : list Slot) : bus_discipline false (slots_events l) = true.
Proof.
  induction l as [|x l IH]; [reflexivity|].
  unfold slots_events in *. cbn [map concat]. now rewrite slot_discipline.
Qed.

Section Slotted.
Context {W : Type} {hal : HAL W}.

Lemma slotted_of_traces {A : Type} (cl : M (W * list Event) A)
    (R : list Slot -> A -> Prop) :
  traces cl R -> slotted cl.
Proof. intros H. eapply traces_weaken; [exact H|]. auto. Qed.

Lemma slotted_ret {A : Type} (a : A) : slotted (W := W) (ret a).
Proof. apply (slotted_of_traces _ _ (traces_ret a)). Qed.

Lemma slotted_bind {A B : Type} (cl : M (W * list Event) A)
    (kl : A -> M (W * list Event) B) :
  slotted cl -> (forall a, slotted (kl a)) -> slotted (bind cl kl).
Proof.
  intros H1 H2. eapply traces_bind; [exact H1|].
  intros s1 a _. eapply traces_weaken; [apply H2|]. auto.
Qed.

Lemma slotted_discipline {A : Type} (cl : M (W * list Event) A) (w : W) :
  slotted cl -> bus_discipline false (snd (snd (cl (w, [])))) = true.
Proof.
  intros H. destruct (H w []) as (slots & a & w' & Heq & _).
  rewrite Heq. cbn [snd app]. apply slots_discipline.
Qed.

Lemma slotted_Start : slotted (W := W) DS18B20_Start.
Proof. apply (slotted_of_traces _ _ traces_Start). Qed.

Lemma slotted_read : slotted (W := W) DS18B20_read.
Proof. apply (slotted_of_traces _ _ traces_read). Qed.

Lemma slotted_write_bit (c : bool) :
  slotted (W := W) (if c then DS18B20_write1 else DS18B20_write0).
Proof.
  destruct c.
  - apply (slotted_of_traces _ _ (traces_of_emits _ _ _ emits_write1)).
  - apply (slotted_of_traces _ _ (traces_of_emits _ _ _ emits_write0)).
Qed.

Lemma slotted_writeData (data : Z) : slotted (W := W) (DS18B20_writeData data).
Proof.
  unfold DS18B20_writeData. apply slotted_bind; [|intros _; apply slotted_ret].
  generalize 0 at 1 as i. generalize 8%nat as n.
  induction n as [|n IH]; intros i; [apply slotted_ret|].
  cbn [DS18B20_writeData_loop].
  apply slotted_bind; [apply slotted_write_bit|intros _; apply IH].
Qed.

Lemma slotted_readByte : slotted (W := W) DS18B20_readByte.
Proof.
  unfold DS18B20_readByte.
  eapply slotted_of_traces. apply traces_readByte_loop.
Qed.

Lemma slotted_searchNext_loop (n : nat) (p local : Z) (state : onewire_search_state_t) :
  slotted (W := W) (searchNext_loop n p local state).
Proof.
  revert p local state. induction n as [|n IH]; intros p local state;
    [apply slotted_ret|].
  cbn [searchNext_loop]. apply slotted_bind.
  - apply (slotted_of_traces _ _ (traces_searchNext_bit p local state)).
  - intros [[[v l1] st1]|]; [apply IH|apply slotted_ret].
Qed.

Lemma slotted_searchDevices (command : Z) (state : onewire_search_state_t) :
  slotted (W := W) (searchDevices command state).
Proof.
  unfold searchDevices. destruct (done state); [apply slotted_ret|].
  apply slotted_bind; [apply slotted_Start|]. intros presence.
  destruct (presence =? 0); [apply slotted_ret|].
  apply slotted_bind; [apply slotted_writeData|]. intros _.
  unfold searchNext. apply slotted_bind; [apply slotted_searchNext_loop|].
  intros [[completed l] st]. destruct completed; [|apply slotted_ret].
  destruct (l =? -1); apply slotted_ret.
Qed.

Lemma slotted_Search_loop (int_shl : Z -> Z -> Z) (fuel : nat) :
  forall index count state stores,
    slotted (W := W) (DS18B20_Search_loop int_shl fuel index count state stores).
Proof.
  induction fuel as [|fuel IH]; intros index count state stores; [apply slotted_ret|].
  cbn [DS18B20_Search_loop]. apply slotted_bind; [apply slotted_searchDevices|].
  intros [result st]. destruct (result =? 0); [apply slotted_ret|apply IH].
Qed.

Lemma slotted_send_ROM_code (n : nat) (i code : Z) :
  slotted (W := W) (send_ROM_code n i code).
Proof.
  revert i. induction n as [|n IH]; intros i; [apply slotted_ret|].
  cbn [send_ROM_code]. apply slotted_bind; [apply slotted_writeData|intros _; apply IH].
Qed.

Lemma slotted_GetTemp_loop (fuel : nat) :
  forall count codes temps,
    slotted (W := W) (DS18B20_GetTemp_loop fuel count codes temps).
Proof.
  induction fuel as [|fuel IH]; intros count codes temps; [apply slotted_ret|].
  cbn [DS18B20_GetTemp_loop].
  destruct (nth_error codes (Z.to_nat count)) as [code|]; [|apply slotted_ret].
  destruct (code =? 0); [apply slotted_ret|].
  repeat (apply slotted_bind;
          [first [apply slotted_Start | apply slotted_writeData
                 | apply slotted_send_ROM_code | apply slotted_readByte]|intros ?]).
  apply IH.
Qed.

End Slotted.

(** X10. Pin discipline. On any bus, during a call of [searchDevices],
    [DS18B20_Search] or [DS18B20_GetTemp] (any arguments, any number of loop
    iterations), the master samples the line only at moments when it has
    released it, and when the call ends the line is released. *)
Theorem entry_points_sample_a_released_line_and_leave_it_released
    {W : Type} {hal : HAL W} (w : W) (command : Z) (state : onewire_search_state_t)
    (int_shl : Z -> Z -> Z) (fuel : nat) (codes : list Z) :
  bus_discipline false
    (snd (snd (searchDevices command state ((w, []) : W * list Event)))) = true /\
  bus_discipline false
    (snd (snd (DS18B20_Search int_shl fuel ((w, []) : W * list Event)))) = true /\
  bus_discipline false
    (snd (snd (DS18B20_GetTemp fuel codes ((w, []) : W * list Event)))) = true.
Proof.
  split; [|split].
  - apply slotted_discipline, slotted_searchDevices.
  - apply slotted_discipline. unfold DS18B20_Search. apply slotted_Search_loop.
  - apply slotted_discipline. unfold DS18B20_GetTemp. apply slotted_GetTemp_loop.
Qed.

(** ** Time spent waiting *)

Lemma total_delay_app (a b : list Event) :
  total_delay (a ++ b) = total_delay a + total_delay b.
Proof.
  induction a as [|[s|us|s] a IH]; cbn [app total_delay]; lia.
Qed.

Lemma total_delay_slots (l : list Slot) :
  total_delay (slots_events l) = kinds_time (map kind l).
Proof.
  unfold slots_events, kinds_time.
  induction l as [|x l IH]; [reflexivity|].
  cbn [map concat fold_right]. rewrite total_delay_app, IH.
  f_equal. destruct x as [s|s|[|]]; reflexivity.
Qed.

Lemma kinds_time_app (a b : list SlotKind) :
  kinds_time (a ++ b) = kinds_time a + kinds_time b.
Proof.
  unfold kinds_time. induction a as [|k a IH]; cbn [app map fold_right]; lia.
Qed.

Lemma transaction_time (code : Z) : kinds_time (transaction_kinds code) = 13360.
Proof. reflexivity. Qed.

Lemma transactions_time (codes : list Z) :
  kinds_time (concat (map transaction_kinds codes)) = 13360 * Z.of_nat (length codes).
Proof.
  induction codes as [|code codes IH]; [reflexivity|].
  cbn [map concat length]. rewrite kinds_time_app, IH, transaction_time. lia.
Qed.

Lemma slots_delays_bounded (l : list Slot) (us : Z) :
  In (EvDelay us) (slots_events l) -> 0 < us <= 480.
Proof.
  unfold slots_events. induction l as [|x l IH]; [intros []|].
  cbn [map concat]. intros Hin. apply in_app_or in Hin.
  destruct Hin as [Hin|Hin]; [|exact (IH Hin)].
  destruct x as [s|s|[|]]; cbn in Hin;
    repeat (destruct Hin as [Hin|Hin];
            [try discriminate Hin; injection Hin as <-; lia|]);
    contradiction.
Qed.

(** X11. [DS18B20_GetTemp] spends 13360 us of [DS18B20_delay] per queried
    code, whatever the code and whatever the bus answers, and no single
    delay is longer than the 480 us of the reset pulse: between CONVERT_T
    and READ_SCRATCHPAD it waits for nothing but the next reset. *)
Theorem GetTemp_waits_13360_us_per_sensor
    {W : Type} {hal : HAL W} (codes rest : list Z) (fuel : nat) (w : W) :
  Forall (fun c => 0 < c) codes ->
  (length codes < 256)%nat ->
  (length codes < fuel)%nat ->
  exists temps events w',
    DS18B20_GetTemp fuel (codes ++ 0 :: rest) ((w, []) : W * list Event) =
      ((Returned 0, temps), (w', events)) /\
    total_delay events = 13360 * Z.of_nat (length codes) /\
    forall us, In (EvDelay us) events -> 0 < us <= 480.
Proof.
  intros Hcodes Hlen Hfuel. unfold DS18B20_GetTemp.
  destruct (traces_GetTemp_loop codes Hcodes [] rest fuel [] Hlen Hfuel w [])
    as (slots & [out temps] & w' & Heq & Hkinds & Hout & _).
  cbn [fst snd length app] in *. subst out.
  exists temps, (slots_events slots), w'. split; [exact Heq|]. split.
  - rewrite total_delay_slots, Hkinds. apply transactions_time.
  - apply slots_delays_bounded.
Qed.

Lemma GetTemp_waits_13360_us_per_sensor_witness :
  exists temps events w',
    DS18B20_GetTemp 3 ([address_value rom_01; address_value rom_02] ++ 0 :: [])
        ((SimBus.bus [], []) : SimBus.t * list Event) =
      ((Returned 0, temps), (w', events)) /\
    total_delay events = 13360 * Z.of_nat 2 /\
    forall us, In (EvDelay us) events -> 0 < us <= 480.
Proof.
  apply (GetTemp_waits_13360_us_per_sensor
           [address_value rom_01; address_value rom_02] [] 3 (SimBus.bus [])).
  - repeat constructor.
  - cbn. lia.
  - cbn. lia.
Defined.

(** ** The search state stays in range *)

Section StateRange.
Context {W : Type} {hal : HAL W}.

Lemma switch_reading_local (r p local v local' : Z) (state : onewire_search_state_t) :
  switch_reading r p state local = Some (v, local') ->
  local' = local \/ local' = p.
Proof.
  unfold switch_reading.
  destruct ((r =? kZero) || (r =? kOne)).
  - intros H. injection H as _ <-. now left.
  - destruct (r =? kConflict); [|discriminate].
    cbv zeta. intros H. injection H as _ <-.
    destruct (_ =? 0); auto.
Qed.

Lemma searchNext_loop_range (n : nat) :
  forall (p local : Z) (state : onewire_search_state_t) (w : W),
    bytes8 (address state) -> 0 <= p -> p + Z.of_nat n <= 64 ->
    -1 <= local <= 63 ->
    let '(_, local', state') := fst (searchNext_loop n p local state w) in
    bytes8 (address state') /\ -1 <= local' <= 63.
Proof.
  induction n as [|n IH]; intros p local state w Hcur Hp Hn Hl.
  - cbn. auto.
  - cbn [searchNext_loop]. rewrite bind_unfold.
    unfold searchNext_bit at 1. rewrite !bind_unfold. cbv zeta.
    destruct (switch_reading _ p state local) as [[v l1]|] eqn:Hsw.
    + rewrite bind_unfold. cbn [fst snd ret].
      apply switch_reading_local in Hsw.
      apply IH; [apply write_bit_bytes8, Hcur|lia|lia|].
      destruct Hsw as [-> | ->]; lia.
    + cbn. auto.
Qed.

Lemma searchDevices_range (command : Z) (state : onewire_search_state_t) (w : W) :
  search_state_ok state ->
  search_state_ok (snd (fst (searchDevices command state w))).
Proof.
  intros [Hcur Hl]. unfold searchDevices.
  destruct (done state); [split; assumption|].
  rewrite bind_unfold. destruct (fst (DS18B20_Start w) =? 0); [split; assumption|].
  rewrite bind_unfold. unfold searchNext. rewrite bind_unfold.
  set (w2 := snd (DS18B20_writeData command _)).
  pose proof (searchNext_loop_range 64 0 (-1) state w2 Hcur ltac:(lia) ltac:(lia)
                ltac:(lia)) as Hloop.
  pose proof (searchNext_loop_keeps 64 0 (-1) state w2) as Hkeep.
  destruct (fst (searchNext_loop 64 0 (-1) state w2)) as [[completed l] st].
  cbn [fst snd] in Hkeep. destruct Hloop as [Hst Hl'], Hkeep as [Hb _].
  unfold search_state_ok.
  destruct completed; [destruct (l =? -1)|];
    cbn [ret fst snd set_done set_last_zero_branch address last_zero_branch];
    rewrite ?Hb; auto.
Qed.

End StateRange.

(** X12. The search state stays in range. From a state whose buffer is
    eight bytes and whose [last_zero_branch] is -1 or a bit position 0..63,
    any number of search cycles on any bus leaves a state of the same kind
    (so [last_zero_branch] always fits its [int8_t]), and every address
    reported is a 64-bit number. *)
Theorem search_cycles_keep_the_state_in_range
    {W : Type} {hal : HAL W} (n : nat) (state : onewire_search_state_t) (w : W) :
  search_state_ok state ->
  let '(found, state', _) := search_cycles n state w in
  search_state_ok state' /\ Forall (fun a => 0 <= a < 2 ^ 64) found.
Proof.
  revert state w. induction n as [|n IH]; intros state w Hok.
  - cbn. auto.
  - cbn [search_cycles].
    pose proof (searchDevices_range SEARCH_ROM state w Hok) as H1.
    destruct (searchDevices SEARCH_ROM state w) as [[result state1] w1].
    cbn [fst snd] in H1. specialize (IH state1 w1 H1).
    destruct (search_cycles n state1 w1) as [[found state2] w2].
    destruct IH as [Hok2 Hfound]. split; [exact Hok2|].
    apply Forall_app. split; [|exact Hfound].
    destruct (result =? 0); [|constructor].
    constructor; [|constructor]. apply address_value_range, H1.
Qed.

Lemma search_cycles_keep_the_state_in_range_witness :
  let '(found, state', _) :=
    search_cycles 3 onewireSearchInit
      (SimBus.bus [address_value rom_02; address_value rom_00]) in
  search_state_ok state' /\ Forall (fun a => 0 <= a < 2 ^ 64) found.
Proof.
  apply (search_cycles_keep_the_state_in_range 3 onewireSearchInit
           (SimBus.bus [address_value rom_02; address_value rom_00])).
  split.
  - split; [reflexivity|]. repeat constructor; unfold is_byte; lia.
  - cbn. lia.
Defined.

(** ** The first cycle *)

Lemma sim_loop_first (roms : list Z) (n : nat) :
  forall (p local : Z) (state : onewire_search_state_t) (w : SimBus.t)
         (alive : list Z),
    Z.of_nat n + p = 64 -> 0 <= p ->
    quiet w roms (phase_at p alive) ->
    bytes8 (address state) ->
    alive_ok roms alive (address state) p ->
    last_zero_branch state = -1 ->
    behind_ok roms (address state) p ->
    exists local' cur' w',
      searchNext_loop n p local state w =
        ((true, local', set_address state cur'), w') /\
      bytes8 cur' /\
      behind_ok roms cur' 64.
Proof.
  induction n as [|n IH]; intros p local state w alive Hn Hp0 Hq Hcur Halive Hlzb Hbehind.
  - assert (p = 64) as -> by lia.
    exists local, (address state), w. rewrite set_address_same.
    split; [reflexivity|]. split; assumption.
  - assert (Hp : 0 <= p < 64) by lia.
    unfold phase_at in Hq. destruct (Z.eqb_spec p 64) as [|_]; [lia|].
    destruct (sim_step roms state w p local alive Hq Hp Hcur (proj2 Halive))
      as (v & local1 & w1 & c & Hbit & Hq1 & Hwritten & Hsome & Hchoice).
    destruct (update_facts (address state) p v c Hcur Hp Hwritten)
      as (Hcur1 & Hbelow & Hat & Habove).
    set (cur1 := address_write_bit (address state) (p / 8) (p mod 8) v) in *.
    assert (Hq1' : quiet w1 roms (phase_at (p + 1) (SimBus.select c p alive))).
    { unfold phase_at. destruct (Z.eqb_spec p 63); destruct (Z.eqb_spec (p + 1) 64);
        try lia; exact Hq1. }
    assert (Halive1 : alive_ok roms (SimBus.select c p alive) cur1 (p + 1))
      by (eapply alive_ok_step; eassumption).
    assert (Hbehind1 : behind_ok roms cur1 (p + 1)).
    { intros r Hr. destruct (Hbehind r Hr) as [Ha|(q & Hq0 & Ha & Hb & Ht)].
      - assert (Hin : In r alive) by (apply (proj1 Halive); auto).
        destruct (Bool.bool_dec (Z.testbit r p) c) as [Hc|Hc].
        + left. eapply (agree_next (address state) cur1 p c); try eassumption. auto.
        + right. exists p. split; [lia|].
          split; [eapply (agree_below (address state) cur1 p); try eassumption; lia|].
          destruct Hchoice as [[Hsame _]|(_ & _ & _ & Hcases)].
          * exfalso. apply Hc, Hsame, Hin.
          * rewrite Hlzb in Hcases.
            destruct Hcases as [[Heq _]|[[Hlt _]|[_ ->]]]; try lia.
            split; [exact Hat|]. destruct (Z.testbit r p); congruence.
      - right. exists q. split; [lia|].
        split; [eapply (agree_below (address state) cur1 p); try eassumption; lia|].
        split; [rewrite Hbelow by lia; exact Hb|exact Ht]. }
    destruct (IH (p + 1) local1 (set_address state cur1) w1
                (SimBus.select c p alive) ltac:(lia) ltac:(lia) Hq1' Hcur1
                Halive1 Hlzb Hbehind1)
      as (local' & cur' & w' & Hloop & Hcur' & Hfinal).
    exists local', cur', w'. split; [|split; assumption].
    cbn [searchNext_loop]. rewrite bind_unfold, Hbit. cbn [fst snd]. exact Hloop.
Qed.

(** X13. The first cycle finds the first device. On a simulated bus with at
    least one device, the cycle run from the freshly initialised state
    returns 0 with the code of a device in the buffer, and every other code
    on the bus comes after it in least-significant-bit-first order. *)
Theorem first_cycle_finds_the_first_device_in_lsb_first_order (roms : list Z) :
  roms <> [] ->
  Forall (fun r => 0 <= r < 2 ^ 64) roms ->
  exists state w',
    searchDevices SEARCH_ROM onewireSearchInit (SimBus.bus roms) = ((0, state), w') /\
    In (address_value (address state)) roms /\
    forall r, In r roms ->
      r = address_value (address state) \/ lsb_first_lt (address_value (address state)) r.
Proof.
  intros Hne Hrange.
  assert (Hvalid : valid_roms roms) by (split; assumption).
  assert (Hq : quiet (SimBus.bus roms) roms SimBus.Idle) by (repeat split).
  assert (Hcur : bytes8 (address onewireSearchInit)).
  { split; [reflexivity|]. repeat constructor; unfold is_byte; lia. }
  destruct (sim_cycle roms onewireSearchInit (SimBus.bus roms) SimBus.Idle
              Hvalid Hq eq_refl Hcur)
    as (state1 & w1 & Hcycle & _ & Hcur1 & Hin1 & _ & _).
  exists state1, w1. split; [exact Hcycle|]. split; [exact Hin1|].
  revert Hcycle.
  unfold searchDevices. change (done onewireSearchInit) with false. cbv iota.
  rewrite bind_unfold.
  destruct (sim_Start (SimBus.bus roms) roms SimBus.Idle Hq Hne) as (w2 & Hstart & Hq2).
  rewrite Hstart. cbn [fst snd]. change (1 =? 0) with false. cbv iota.
  rewrite bind_unfold.
  destruct (sim_search_command w2 roms Hq2) as (w3 & Hcmd & Hq3).
  rewrite Hcmd. cbn [fst snd].
  unfold searchNext. rewrite bind_unfold.
  assert (Halive0 : alive_ok roms roms (address onewireSearchInit) 0).
  { split.
    - intros r. split; [intros Hin; split; [exact Hin|intros j Hj; lia]|tauto].
    - destruct roms as [|r roms']; [congruence|]. exists r. now left. }
  destruct (sim_loop_first roms 64 0 (-1) onewireSearchInit w3 roms eq_refl
              ltac:(lia) Hq3 Hcur Halive0 eq_refl)
    as (local' & cur' & w' & Hloop & Hcur' & Hfinal).
  { intros r _. left. intros j Hj. lia. }
  rewrite Hloop. cbn [fst snd].
  intros Hcycle r Hr.
  assert (Haddr : address state1 = cur').
  { destruct (local' =? -1); cbn in Hcycle; injection Hcycle as <- _; reflexivity. }
  rewrite Haddr.
  rewrite Forall_forall in Hrange.
  destruct (Hfinal r Hr) as [Ha|(q & Hq0 & Ha & Hb & Ht)].
  - left. symmetry. apply agree_all_value; auto.
  - right. unfold lsb_first_lt. apply (bitrev_lt 64 _ _ q).
    + change (Z.of_nat 64) with 64. exact Hq0.
    + intros j Hj. rewrite address_value_addr_bit by (assumption || lia).
      symmetry. apply Ha, Hj.
    + rewrite address_value_addr_bit by (assumption || lia). exact Hb.
    + exact Ht.
Qed.

Lemma first_cycle_finds_the_first_device_in_lsb_first_order_witness :
  exists state w',
    searchDevices SEARCH_ROM onewireSearchInit
      (SimBus.bus (map address_value [rom_0A; rom_02; rom_06])) = ((0, state), w') /\
    In (address_value (address state)) (map address_value [rom_0A; rom_02; rom_06]) /\
    forall r, In r (map address_value [rom_0A; rom_02; rom_06]) ->
      r = address_value (address state) \/ lsb_first_lt (address_value (address state)) r.
Proof.
  apply (first_cycle_finds_the_first_device_in_lsb_first_order
           (map address_value [rom_0A; rom_02; rom_06])).
  - discriminate.
  - repeat constructor; vm_compute; try discriminate; reflexivity.
Defined.

(** ** Initialisation on a board *)


Lemma same_answers_refl (b : Board.t) : Board.same_answers b b.
Proof. unfold Board.same_answers. tauto. Qed.

Lemma same_answers_trans (b1 b2 b3 : Board.t) :
  Board.same_answers b1 b2 -> Board.same_answers b2 b3 -> Board.same_answers b1 b3.
Proof.
  unfold Board.same_answers. intros (?&?&?&?&?&?) (?&?&?&?&?&?).
  repeat split; congruence.
Qed.

Lemma same_answers_record (c : InitCall) (b : Board.t) :
  Board.same_answers b (Board.record c b).
Proof. unfold Board.same_answers. cbn. tauto. Qed.

Lemma call_if_set_same (f : option (Board.t -> Board.t)) (b : Board.t) :
  (forall g, f = Some g -> forall b, Board.same_answers b (g b)) ->
  Board.same_answers b (snd (call_if_set f b)).
Proof.
  intros Hf. destruct f as [g|]; cbn.
  - apply (Hf g eq_refl).
  - apply same_answers_refl.
Qed.

Lemma Timer_Init_on_board {platform : Platform} (sensor : DS18B20_t Board.t) (b : Board.t) :
  let b1 := snd (call_if_set (timer_clk_enable sensor) b) in
  let h := timer_handle sensor b1 in
  exists b',
    DS18B20_Timer_Init sensor b = ((timer_result sensor b1, set_htim sensor h), b') /\
    Board.same_answers b1 b' /\
    Board.calls b' = Board.calls b1 ++
      [CallGetClockConfig; CallGetPCLK1Freq; CallTIM_Base_Init h;
       CallConfigClockSource h TIM_CLOCKSOURCE_INTERNAL;
       CallMasterConfig h TIM_TRGO_RESET TIM_MASTERSLAVEMODE_DISABLE;
       CallTIM_Base_Start h].
Proof.
  intros b1 h. unfold DS18B20_Timer_Init. rewrite bind_unfold. fold b1.
  assert (Hunit : fst (call_if_set (timer_clk_enable sensor) b) = tt)
    by (destruct (fst _); reflexivity).
  subst h. unfold timer_handle, timer_result, Board.all_ok.
  destruct b1 as [dv f s1 s2 s3 s4 cs]. cbn -[uint32 Z.div Z.mul].
  destruct (dv =? RCC_HCLK_DIV1); cbn -[uint32 Z.div Z.mul];
    (eexists; split;
     [destruct s1, s2, s3, s4; cbn -[uint32 Z.div Z.mul]; reflexivity|]);
    (split; [unfold Board.same_answers; cbn; tauto|]);
    cbn; rewrite <- !app_assoc; reflexivity.
Qed.

Lemma Init_on_board {platform : Platform} (sensor : DS18B20_t Board.t) (b : Board.t) :
  Board.plain_callbacks sensor ->
  exists b1 b',
    Board.same_answers b b1 /\
    DS18B20_Init sensor b =
      ((if negb (timer_result sensor b1 =? 0) then ERROR_OTHER else OK,
        set_htim sensor (timer_handle sensor b1)), b') /\
    In (CallTIM_Base_Init (timer_handle sensor b1)) (Board.calls b') /\
    In (CallTIM_Base_Start (timer_handle sensor b1)) (Board.calls b').
Proof.
  intros Hplain. unfold DS18B20_Init. rewrite bind_unfold.
  set (b0 := snd (call_if_set (gpio_clk_enable sensor) b)).
  assert (H0 : Board.same_answers b b0).
  { apply call_if_set_same. intros g Hg. apply Hplain. now right. }
  rewrite bind_unfold. cbn [act fst snd].
  set (b2 := HAL_GPIO_Init _ _ b0).
  assert (H2 : Board.same_answers b0 b2) by apply same_answers_record.
  rewrite bind_unfold.
  destruct (Timer_Init_on_board sensor b2) as (b' & Heq & Hsame & Hcalls).
  set (b1 := snd (call_if_set (timer_clk_enable sensor) b2)) in *.
  assert (H1 : Board.same_answers b2 b1).
  { apply call_if_set_same. intros g Hg. apply Hplain. now left. }
  exists b1, b'. split.
  { apply (same_answers_trans b b0 b1 H0). exact (same_answers_trans b0 b2 b1 H2 H1). }
  rewrite Heq. cbn [fst snd]. split; [reflexivity|].
  rewrite Hcalls. split; apply in_or_app; right; cbn; tauto.
Qed.

Lemma timer_result_same {platform : Platform} (sensor : DS18B20_t Board.t)
    (b b1 : Board.t) :
  Board.same_answers b b1 -> timer_result sensor b1 = timer_result sensor b.
Proof.
  intros (_ & _ & E1 & E2 & E3 & E4). unfold timer_result, Board.all_ok.
  now rewrite E1, E2, E3, E4.
Qed.

Lemma timer_handle_same {platform : Platform} (sensor : DS18B20_t Board.t)
    (b b1 : Board.t) :
  Board.same_answers b b1 -> timer_handle sensor b1 = timer_handle sensor b.
Proof.
  intros (E1 & E2 & _). unfold timer_handle. now rewrite E1, E2.
Qed.

(** X14. [DS18B20_Init] reports only [OK] or [ERROR_OTHER]. With [OK]
    numbered 0 and [NULL_POINTER] not 0, on a board whose clock-enable
    functions leave the HAL's answers alone, the result is [OK] when the
    timer instance is not NULL and the four timer calls all return HAL_OK,
    and [ERROR_OTHER] in every other case: the [NULL_POINTER] of
    [DS18B20_Timer_Init] never reaches the caller. *)
Theorem Init_reports_a_missing_timer_as_ERROR_OTHER
    {platform : Platform} (sensor : DS18B20_t Board.t) (b : Board.t) :
  OK = 0 -> NULL_POINTER <> 0 ->
  Board.plain_callbacks sensor ->
  fst (fst (DS18B20_Init sensor b)) =
    if negb (timer_instance sensor =? NULL) && Board.all_ok b
    then OK else ERROR_OTHER.
Proof.
  intros HOK HNP Hplain.
  destruct (Init_on_board sensor b Hplain) as (b1 & b' & Hsame & Heq & _).
  rewrite Heq. cbn [fst]. rewrite (timer_result_same sensor b b1 Hsame).
  unfold timer_result.
  destruct (Board.all_ok b); rewrite ?andb_false_r, ?andb_true_r.
  - destruct (timer_instance sensor =? NULL); cbn [negb].
    + apply Z.eqb_neq in HNP. now rewrite HNP.
    + now rewrite HOK.
  - destruct (Z.eqb_spec ERROR_OTHER 0) as [E|_]; cbn [negb]; [|reflexivity].
    congruence.
Qed.

Lemma Init_reports_a_missing_timer_as_ERROR_OTHER_witness :
  fst (fst (DS18B20_Init (platform := example_platform)
              (mkSensor (mkTIM 0 0 0 0 0) NULL (Some (Board.enable 1)) 0x58020000 1
                 (Some (Board.enable 0)))
              (Board.mk 0x40 120000000 true true true true []))) = 2.
Proof.
  apply (Init_reports_a_missing_timer_as_ERROR_OTHER (platform := example_platform)
           (mkSensor (mkTIM 0 0 0 0 0) NULL (Some (Board.enable 1)) 0x58020000 1
              (Some (Board.enable 0)))
           (Board.mk 0x40 120000000 true true true true [])).
  - reflexivity.
  - cbn. discriminate.
  - intros f [H|H]; cbn in H; injection H as <-; intros b0;
      apply same_answers_record.
Defined.

(** X15. The timer is set to count whole megahertz. With a PCLK1 frequency
    below 2^31 Hz, the timer clock is PCLK1 when the APB1 divider is
    [RCC_HCLK_DIV1] and twice PCLK1 otherwise. After [DS18B20_Init] the
    handle holds the sensor's timer instance and the period 2^32 - 1; for a
    timer clock of at least 1 MHz its prescaler [P] satisfies
    [1000000 * (P + 1) <= clock < 1000000 * (P + 2)], and for a timer clock
    below 1 MHz the subtraction wraps and [P] is 2^32 - 1. This handle is the
    one given to [HAL_TIM_Base_Init] and [HAL_TIM_Base_Start], also when the
    result is an error. *)
Theorem Init_sets_the_timer_to_the_whole_megahertz_below
    {platform : Platform} (sensor : DS18B20_t Board.t) (b : Board.t) :
  Board.plain_callbacks sensor ->
  0 <= Board.PCLK1Freq b < 2 ^ 31 ->
  let clock := Board.timers_clock b in
  let h := htim (snd (fst (DS18B20_Init sensor b))) in
  let b' := snd (DS18B20_Init sensor b) in
  htim_Instance h = timer_instance sensor /\
  Init_Period h = 2 ^ 32 - 1 /\
  (1000000 <= clock ->
   1000000 * (Init_Prescaler h + 1) <= clock < 1000000 * (Init_Prescaler h + 2)) /\
  (clock < 1000000 -> Init_Prescaler h = 2 ^ 32 - 1) /\
  In (CallTIM_Base_Init h) (Board.calls b') /\
  In (CallTIM_Base_Start h) (Board.calls b').
Proof.
  intros Hplain Hf clock h b'. subst clock h b'.
  destruct (Init_on_board sensor b Hplain) as (b1 & b' & Hsame & Heq & Hin1 & Hin2).
  rewrite Heq. cbn [fst snd htim set_htim].
  rewrite (timer_handle_same sensor b b1 Hsame) in *.
  split; [reflexivity|]. split; [reflexivity|].
  split; [|split; [|split; assumption]].
  - unfold timer_handle, Board.timers_clock. cbn [Init_Prescaler].
    assert (H2 : uint32 (2 * Board.PCLK1Freq b) = 2 * Board.PCLK1Freq b).
    { unfold uint32. apply Z.mod_small. change (2 ^ 32) with (2 * 2 ^ 31). lia. }
    rewrite H2.
    set (c := if Board.APB1CLKDivider b =? RCC_HCLK_DIV1 then Board.PCLK1Freq b
              else 2 * Board.PCLK1Freq b).
    assert (Hc : 0 <= c < 2 ^ 32).
    { subst c. change (2 ^ 32) with (2 * 2 ^ 31).
      destruct (Board.APB1CLKDivider b =? RCC_HCLK_DIV1); lia. }
    intros Hge.
    assert (Hq : 1 <= c / 1000000 < 2 ^ 32).
    { split; [apply Z.div_le_lower_bound; lia|].
      apply Z.div_lt_upper_bound; change (2 ^ 32) with 4294967296 in *; lia. }
    unfold uint32. rewrite Z.mod_small by lia.
    pose proof (Z.mul_div_le c 1000000 ltac:(lia)).
    pose proof (Z.mul_succ_div_gt c 1000000 ltac:(lia)).
    lia.
  - unfold timer_handle, Board.timers_clock. cbn [Init_Prescaler].
    assert (H2 : uint32 (2 * Board.PCLK1Freq b) = 2 * Board.PCLK1Freq b).
    { unfold uint32. apply Z.mod_small. change (2 ^ 32) with (2 * 2 ^ 31). lia. }
    rewrite H2.
    set (c := if Board.APB1CLKDivider b =? RCC_HCLK_DIV1 then Board.PCLK1Freq b
              else 2 * Board.PCLK1Freq b).
    assert (Hc : 0 <= c).
    { subst c. destruct (Board.APB1CLKDivider b =? RCC_HCLK_DIV1); lia. }
    intros Hlt. rewrite Z.div_small by lia. reflexivity.
Qed.

Lemma Init_sets_the_timer_to_the_whole_megahertz_below_witness :
  let sensor := mkSensor (mkTIM 0 0 0 0 0) 0x40000000 (Some (Board.enable 1))
                  0x58020000 1 (Some (Board.enable 0)) in
  let b := Board.mk 0x40 120000000 true true true true [] in
  let clock := Board.timers_clock (platform := example_platform) b in
  let h := htim (snd (fst (DS18B20_Init (platform := example_platform) sensor b))) in
  let b' := snd (DS18B20_Init (platform := example_platform) sensor b) in
  htim_Instance h = timer_instance sensor /\
  Init_Period h = 2 ^ 32 - 1 /\
  (1000000 <= clock ->
   1000000 * (Init_Prescaler h + 1) <= clock < 1000000 * (Init_Prescaler h + 2)) /\
  (clock < 1000000 -> Init_Prescaler h = 2 ^ 32 - 1) /\
  In (CallTIM_Base_Init h) (Board.calls b') /\
  In (CallTIM_Base_Start h) (Board.calls b').
Proof.
  apply (Init_sets_the_timer_to_the_whole_megahertz_below (platform := example_platform)).
  - intros f [H|H]; cbn in H; injection H as <-; intros b0;
      apply same_answers_record.
  - cbn. lia.
Defined.
